(** * Photo asset pipeline of guangfu250923: shallow embedding and properties

    The development follows the Go packages of the repository:
    - [Sha256], [Filepath], [GoInt], [Float64]: the parts of the Go runtime
      and standard library the handlers rely on (crypto/sha256, encoding/hex,
      path/filepath on Unix, 64-bit [int], IEEE binary64);
    - [Localcache]: internal/localcache (PhotoPath, ThumbPath, Save, Exists);
    - [Storage]: internal/storage (S3Uploader, Upload);
    - [Handlers]: internal/handlers (UploadPhoto, GetPhoto, GetPhotoThumbnail);
    - [Config]: internal/config (env, Load);
    - [Middleware]: internal/middleware (NewWriteRequestCache).

    File contents and object bodies are [list byte]; paths, keys and specs are
    [string] (Go strings are byte sequences); the local disk is a finite map
    from the paths of its regular files to their contents. Library functions
    whose tables are not part of the repository ([image.Decode], the
    encoders, [http.DetectContentType], [strings.ToLower], [http.ServeFile])
    are given by the environment of a request. *)

From Stdlib Require Import ZArith List String Ascii Lia Bool SpecFloat.
From Stdlib.Strings Require Import Byte.
From stdpp Require Import gmap strings list pretty.

Open Scope string_scope.
Open Scope Z_scope.

(* ===================================================================== *)
(** ** crypto/sha256 and encoding/hex *)
(* ===================================================================== *)

Module Sha256.

Definition add32 (x y : Z) : Z := (x + y) mod 2 ^ 32.

Definition rotr (n x : Z) : Z :=
  Z.lor (Z.shiftr x n) ((Z.shiftl x (32 - n)) mod 2 ^ 32).

Definition Ch (x y z : Z) : Z := Z.lxor (Z.land x y) (Z.land (Z.lnot x) z).
Definition Maj (x y z : Z) : Z :=
  Z.lxor (Z.lxor (Z.land x y) (Z.land x z)) (Z.land y z).
Definition bsig0 (x : Z) : Z := Z.lxor (Z.lxor (rotr 2 x) (rotr 13 x)) (rotr 22 x).
Definition bsig1 (x : Z) : Z := Z.lxor (Z.lxor (rotr 6 x) (rotr 11 x)) (rotr 25 x).
Definition ssig0 (x : Z) : Z := Z.lxor (Z.lxor (rotr 7 x) (rotr 18 x)) (Z.shiftr x 3).
Definition ssig1 (x : Z) : Z := Z.lxor (Z.lxor (rotr 17 x) (rotr 19 x)) (Z.shiftr x 10).

(** The primes below 312: the first 64. *)
Definition is_prime (n : nat) : bool :=
  forallb (fun d => negb (Nat.eqb (Nat.modulo n d) 0)) (seq 2 (n - 2)).

Definition primes : list Z :=
  Eval vm_compute in map Z.of_nat (filter is_prime (seq 2 310)).

(** The largest [r] below [2^bits] with [r^3 <= n], one bit at a time. *)
Fixpoint cube_root (bits : nat) (n r : Z) : Z :=
  match bits with
  | O => r
  | S b =>
      let r' := r + 2 ^ Z.of_nat b in
      cube_root b n (if r' * r' * r' <=? n then r' else r)
  end.

(** The round constants: the first 32 bits of the fractional parts of the
    cube roots of the first 64 primes. *)
Definition K : list Z :=
  Eval vm_compute in map (fun p => cube_root 40 (p * 2 ^ 96) 0 mod 2 ^ 32) primes.

(** The eight working words a..h. *)
Record state := State
  { wa : Z; wb : Z; wc : Z; wd : Z; we : Z; wf : Z; wg : Z; wh : Z }.

(** The initial words: the first 32 bits of the fractional parts of the
    square roots of the first 8 primes. *)
Definition frac_sqrt (p : Z) : Z := Z.sqrt (p * 2 ^ 64) mod 2 ^ 32.

Definition init : state :=
  Eval vm_compute in
    State (frac_sqrt 2) (frac_sqrt 3) (frac_sqrt 5) (frac_sqrt 7)
          (frac_sqrt 11) (frac_sqrt 13) (frac_sqrt 17) (frac_sqrt 19).

Definition round (s : state) (kw : Z * Z) : state :=
  let t1 := add32 (add32 (add32 (add32 (wh s) (bsig1 (we s)))
                                (Ch (we s) (wf s) (wg s))) (fst kw)) (snd kw) in
  let t2 := add32 (bsig0 (wa s)) (Maj (wa s) (wb s) (wc s)) in
  State (add32 t1 t2) (wa s) (wb s) (wc s) (add32 (wd s) t1) (we s) (wf s) (wg s).

(** Message schedule; [rev_w] holds W[t-1], W[t-2], ... *)
Fixpoint extend (n : nat) (rev_w : list Z) : list Z :=
  match n with
  | O => rev_w
  | S n' =>
      let g i := nth i rev_w 0 in
      extend n' (add32 (add32 (add32 (ssig1 (g 1%nat)) (g 6%nat)) (ssig0 (g 14%nat)))
                       (g 15%nat) :: rev_w)
  end.

Fixpoint be_words (bs : list Z) : list Z :=
  match bs with
  | b0 :: b1 :: b2 :: b3 :: rest =>
      (((b0 * 256 + b1) * 256 + b2) * 256 + b3) :: be_words rest
  | _ => []
  end.

Definition block (s : state) (bs : list Z) : state :=
  let w := rev (extend 48 (rev (be_words bs))) in
  let s' := fold_left round (combine K w) s in
  State (add32 (wa s) (wa s')) (add32 (wb s) (wb s')) (add32 (wc s) (wc s'))
        (add32 (wd s) (wd s')) (add32 (we s) (we s')) (add32 (wf s) (wf s'))
        (add32 (wg s) (wg s')) (add32 (wh s) (wh s')).

Fixpoint blocks (fuel : nat) (s : state) (bs : list Z) : state :=
  match fuel with
  | O => s
  | S fuel' =>
      match bs with
      | [] => s
      | _ => blocks fuel' (block s (firstn 64 bs)) (skipn 64 bs)
      end
  end.

Definition be_bytes (n : nat) (x : Z) : list Z :=
  map (fun i => (Z.shiftr x (8 * Z.of_nat i)) mod 256) (rev (seq 0 n)).

Definition pad (bs : list Z) : list Z :=
  let len := Z.of_nat (length bs) in
  bs ++ [0x80] ++ repeat 0 (Z.to_nat ((55 - len) mod 64)) ++ be_bytes 8 (8 * len).

Definition digest (bs : list Z) : state :=
  let p := pad bs in blocks (length p) init p.

Definition state_bytes (s : state) : list Z :=
  be_bytes 4 (wa s) ++ be_bytes 4 (wb s) ++ be_bytes 4 (wc s) ++ be_bytes 4 (wd s) ++
  be_bytes 4 (we s) ++ be_bytes 4 (wf s) ++ be_bytes 4 (wg s) ++ be_bytes 4 (wh s).

Definition string_bytes (s : string) : list Z :=
  map (fun c => Z.of_N (N_of_ascii c)) (list_ascii_of_string s).

(** [sha256.Sum256([]byte(s))], as its 32 bytes. *)
Definition Sum256 (s : string) : list Z := state_bytes (digest (string_bytes s)).

Definition hexdigit (n : Z) : ascii :=
  nth (Z.to_nat (n mod 16))
      (list_ascii_of_string "0123456789abcdef") "0"%char.

(** [hex.EncodeToString]. *)
Fixpoint EncodeToString (bs : list Z) : string :=
  match bs with
  | [] => ""
  | b :: rest => String (hexdigit (b / 16)) (String (hexdigit b) (EncodeToString rest))
  end.

End Sha256.

(* ===================================================================== *)
(** ** path/filepath (Unix) *)
(* ===================================================================== *)

Module Filepath.

Definition is_sep (c : ascii) : bool := Ascii.eqb c "/".

(** [strings.Split(s, "/")]. *)
Fixpoint split (s : string) : list string :=
  match s with
  | EmptyString => [EmptyString]
  | String c s' =>
      if is_sep c then EmptyString :: split s'
      else match split s' with
           | x :: xs => String c x :: xs
           | [] => [String c EmptyString]
           end
  end.

Definition rooted (s : string) : bool :=
  match s with String c _ => is_sep c | EmptyString => false end.

(** One element of the path meets the elements kept so far (innermost
    first): "." and empty elements vanish, ".." removes the element before
    it unless there is none or it is ".." itself; at the root ".." vanishes. *)
Definition clean_step (root : bool) (stack : list string) (elem : string) : list string :=
  if String.eqb elem "" || String.eqb elem "." then stack
  else if String.eqb elem ".." then
    match stack with
    | top :: below => if String.eqb top ".." then elem :: stack else below
    | [] => if root then [] else [elem]
    end
  else elem :: stack.

(** [filepath.Clean]. *)
Definition Clean (path : string) : string :=
  let root := rooted path in
  let elems := rev (fold_left (clean_step root) (split path) []) in
  let body := String.concat "/" elems in
  if root then String "/" body
  else if String.eqb body "" then "." else body.

(** [filepath.Join]: the elements from the first non-empty one on, joined by
    the separator and cleaned; the empty string when all are empty. *)
Fixpoint Join (elem : list string) : string :=
  match elem with
  | [] => ""
  | e :: rest => if String.eqb e "" then Join rest else Clean (String.concat "/" elem)
  end.

(** The part of [s] after its last separator, [s] itself without one. *)
Fixpoint last_elem (s : string) : string :=
  match s with
  | EmptyString => EmptyString
  | String c s' =>
      if existsb is_sep (list_ascii_of_string s') then last_elem s'
      else if is_sep c then s' else s
  end.

(** [s] without its trailing separators. *)
Fixpoint strip_trailing (s : string) : string :=
  match s with
  | EmptyString => EmptyString
  | String c s' =>
      match strip_trailing s' with
      | EmptyString => if is_sep c then EmptyString else String c EmptyString
      | t => String c t
      end
  end.

(** [s] has no separator. *)
Definition nosep (s : string) : bool := negb (existsb is_sep (list_ascii_of_string s)).

(** [s] is one plain element of a path: not empty, no separator, and
    neither "." nor "..". *)
Definition is_segment (s : string) : bool :=
  nosep s && negb (String.eqb s "") && negb (String.eqb s ".") && negb (String.eqb s "..").

(** [filepath.Base]. *)
Definition Base (path : string) : string :=
  if String.eqb path "" then "."
  else
    let p := last_elem (strip_trailing path) in
    if String.eqb p "" then "/" else p.

End Filepath.

(* ===================================================================== *)
(** ** Go's 64-bit [int], [strings] helpers and IEEE binary64 *)
(* ===================================================================== *)

Module GoInt.

(** Two's-complement wrap-around of a 64-bit signed integer. *)
Definition wrap (z : Z) : Z := (z + 2 ^ 63) mod 2 ^ 64 - 2 ^ 63.

Definition add (x y : Z) : Z := wrap (x + y).
Definition mul (x y : Z) : Z := wrap (x * y).
(** Integer division truncates toward zero. *)
Definition div (x y : Z) : Z := wrap (Z.quot x y).

Definition min_int : Z := - 2 ^ 63.
Definition max_int : Z := 2 ^ 63 - 1.

(** [fmt.Sprintf("%d", z)]. *)
Definition Itoa (z : Z) : string := pretty z.

End GoInt.

Module Strings.

(** [strings.HasPrefix]. *)
Fixpoint HasPrefix (s p : string) {struct p} : bool :=
  match p, s with
  | EmptyString, _ => true
  | String c p', String d s' => Ascii.eqb c d && HasPrefix s' p'
  | String _ _, EmptyString => false
  end.

(** [strings.TrimPrefix]. *)
Definition TrimPrefix (s p : string) : string :=
  if HasPrefix s p then substring (String.length p) (String.length s - String.length p) s
  else s.

End Strings.

Module Float64.

Definition prec : Z := 53.
Definition emax : Z := 1024.

(** [float64(z)] for an integer [z]: rounded to nearest, ties to even. *)
Definition of_int (z : Z) : spec_float := binary_normalize prec emax z 0 false.

Definition mul : spec_float -> spec_float -> spec_float := SFmul prec emax.
Definition div : spec_float -> spec_float -> spec_float := SFdiv prec emax.

(** [int(f)]: the fractional part is discarded (truncation toward zero).  A
    value that does not fit, an infinity or a NaN converts to the smallest
    integer, as on amd64. *)
Definition to_int (f : spec_float) : Z :=
  match f with
  | S754_zero _ => 0
  | S754_finite s m e =>
      let a := if 0 <=? e then Z.pos m * 2 ^ e else Z.pos m / 2 ^ (- e) in
      let v := if s then - a else a in
      if (GoInt.min_int <=? v) && (v <=? GoInt.max_int) then v else GoInt.min_int
  | _ => GoInt.min_int
  end.

End Float64.

(** Vocabulary for the accuracy of the binary64 operations. *)
Module Rounding.

(** The fraction [a / b] lies where the location says. *)
Definition loc_ok (l : location) (a b : Z) : Prop :=
  match l with
  | loc_Exact => a = 0
  | loc_Inexact Lt => 0 < 2 * a < b
  | loc_Inexact Eq => 2 * a = b
  | loc_Inexact Gt => b < 2 * a
  end.

(** Values of floats are compared as integers, in units of [2 ^ - scale]. *)
Definition scale : Z := 1200.
Definition sval (m : positive) (e : Z) : Z := Z.pos m * 2 ^ (e + scale).

(** A mantissa of exactly 53 binary digits. *)
Definition normal (m : positive) : Prop := 2 ^ 52 <= Z.pos m < 2 ^ 53.

(** [x] is within a relative error of [2 ^ -53] of [y]. *)
Definition close (x y : Z) : Prop := 2 ^ 53 * Z.abs (x - y) <= y.

End Rounding.

(* ===================================================================== *)
(** ** Readers and the local disk *)
(* ===================================================================== *)

(** An [io.Reader]: it delivers [rd_data] and then reports end of file, or
    an error when [rd_err] is set. *)
Record reader := Reader { rd_data : list byte; rd_err : bool }.

Definition bytes_reader (data : list byte) : reader := Reader data false.

(** The first [n] elements, with a binary counter. *)
Fixpoint takeZ {A : Type} (l : list A) (n : Z) : list A :=
  match l with
  | [] => []
  | x :: l' => if n <=? 0 then [] else x :: takeZ l' (n - 1)
  end.

(** [length l < n]. *)
Fixpoint shorter {A : Type} (l : list A) (n : Z) : bool :=
  match l with
  | [] => 0 <? n
  | _ :: l' => if n <=? 0 then false else shorter l' (n - 1)
  end.

(** [io.LimitReader(r, n)] / [io.LimitedReader{R: r, N: n}]: end of file
    after [n] bytes; the error of [r] shows only when [r] ends before. *)
Definition LimitReader (r : reader) (n : Z) : reader :=
  if shorter (rd_data r) n then r else Reader (takeZ (rd_data r) n) false.

(** [io.ReadAll]. *)
Definition ReadAll (r : reader) : option (list byte) :=
  if rd_err r then None else Some (rd_data r).

Inductive error : Type :=
  | ErrMkdir | ErrCreate | ErrWrite | ErrRead | ErrClose | ErrRename | ErrRemove
  | ErrNotExist | ErrNotInitialized | ErrKeyRequired | ErrStore.

(** The regular files, by path. Directories are not part of it: a path
    is looked up as a whole, and a directory holds no bytes. *)
Abbreviation disk := (gmap string (list byte)).

(** What goes wrong in the file system during one [Save]. *)
Record faults := Faults
  { f_mkdir : bool;          (* os.MkdirAll fails *)
    f_create : bool;         (* os.Create fails *)
    f_write : option Z;      (* the write to the file fails after so many bytes *)
    f_close : bool;          (* Close fails *)
    f_rename : bool;         (* os.Rename fails *)
    f_remove : bool }.       (* os.Remove fails *)

Definition no_faults : faults := Faults false false None false false false.

Module Localcache.

(** [Dir]. *)
Definition Dir : string := ".cache".

Definition hexsum (objectKey : string) : string :=
  Sha256.EncodeToString (Sha256.Sum256 objectKey).

Definition filename (objectKey : string) : string :=
  let filename := Filepath.Base objectKey in
  if String.eqb filename "." || String.eqb filename "/" || String.eqb filename ""
  then hexsum objectKey else filename.

(** [PhotoPath]. *)
Definition PhotoPath (objectKey : string) : string :=
  let shard := substring 0 2 (hexsum objectKey) in
  Filepath.Join [Dir; "photos"; shard; filename objectKey].

(** [ThumbPath]. *)
Definition ThumbPath (objectKey spec : string) : string :=
  let shard := substring 0 2 (hexsum objectKey) in
  Filepath.Join [Dir; "thumbs"; spec; shard; filename objectKey].

(** The file-system calls of [Save], each failing when the fault says so
    and then leaving the regular files as they were. *)

(** [os.MkdirAll(filepath.Dir(path), 0o755)] makes directories, all of
    them or, when it fails, some: it creates and changes no regular file,
    and so the files of [d] are the same after it. *)
Definition MkdirAll (fl : faults) (d : disk) : disk * option error :=
  if f_mkdir fl then (d, Some ErrMkdir) else (d, None).

Definition Create (fl : faults) (name : string) (d : disk) : disk * option error :=
  if f_create fl then (d, Some ErrCreate) else (<[name := []]> d, None).

(** [io.Copy(f, r)] into the file [name]. *)
Definition Copy (fl : faults) (name : string) (r : reader) (d : disk) : disk * option error :=
  match f_write fl with
  | Some k =>
      if shorter (rd_data r) (k + 1) then
        (<[name := rd_data r]> d, if rd_err r then Some ErrRead else None)
      else (<[name := takeZ (rd_data r) k]> d, Some ErrWrite)
  | None => (<[name := rd_data r]> d, if rd_err r then Some ErrRead else None)
  end.

Definition Close (fl : faults) : option error :=
  if f_close fl then Some ErrClose else None.

Definition Rename (fl : faults) (old new : string) (d : disk) : disk * option error :=
  if f_rename fl then (d, Some ErrRename)
  else match d !! old with
       | Some c => (<[new := c]> (delete old d), None)
       | None => (d, Some ErrNotExist)
       end.

Definition Remove (fl : faults) (name : string) (d : disk) : disk * option error :=
  if f_remove fl then (d, Some ErrRemove)
  else match d !! name with
       | Some _ => (delete name d, None)
       | None => (d, Some ErrNotExist)
       end.

(** The temporary sibling of [path] written by process [pid]. *)
Definition tmp_name (path : string) (pid : Z) : string :=
  path +:+ ".tmp-" +:+ GoInt.Itoa pid.

(** [Save], its calls made one after the other with no call of another
    writer in between: the files after the call and the error returned
    ([None] is nil). *)
Definition Save (pid : Z) (fl : faults) (path : string) (r : reader) (d : disk)
  : disk * option error :=
  match MkdirAll fl d with
  | (d, Some err) => (d, Some err)
  | (d, None) =>
      let tmp := tmp_name path pid in
      match Create fl tmp d with
      | (d, Some err) => (d, Some err)
      | (d, None) =>
          let '(d, werr) := Copy fl tmp r d in
          let cerr := Close fl in
          match werr with
          | Some e => (fst (Remove fl tmp d), Some e)
          | None =>
              match cerr with
              | Some e => (fst (Remove fl tmp d), Some e)
              | None =>
                  match Rename fl tmp path d with
                  | (d, Some err) => (fst (Remove fl tmp d), Some err)
                  | (d, None) => (d, None)
                  end
              end
          end
      end
  end.

(** [Exists]. *)
Definition Exists (path : string) (d : disk) : bool :=
  bool_decide (is_Some (d !! path)).

(** File-system calls, of one writer or of several, in the order in which
    they reach the disk. *)
Definition run_calls (calls : list (disk -> disk * option error)) (d : disk) : disk :=
  fold_left (fun d call => fst (call d)) calls d.

End Localcache.

(* ===================================================================== *)
(** ** internal/storage *)
(* ===================================================================== *)

Module Storage.

(** The fields of [config.Config] the uploader reads. *)
Record Config := MkConfig { S3Bucket : string; S3BaseURL : string; MaxUploadMB : Z }.

(** [S3Uploader]; [client] tells whether the SDK client pointer is set. *)
Record S3Uploader := MkUploader
  { client : bool; bucket : string; baseURL : string; maxBytes : Z }.

(** The object store behind the SDK client, as one request sees it. *)
Record backend := Backend
  { be_put_err : bool;                                  (* the SDK upload fails *)
    be_location : string;                               (* Location of a stored object *)
    be_get : nat -> string -> option (reader * string); (* n-th GetObject: body, content type *)
    be_presign : string -> option string }.             (* PresignGetObject *)

(** Objects put into the bucket: body and content type by key. *)
Abbreviation objects := (gmap string (list byte * string)).

(** [NewS3Uploader]; [load_err] is the failure of the SDK configuration. *)
Definition NewS3Uploader (load_err : bool) (cfg : Config) : option S3Uploader :=
  if String.eqb (S3Bucket cfg) "" then None
  else if load_err then None
  else Some (MkUploader true (S3Bucket cfg) (S3BaseURL cfg)
                        (GoInt.mul (GoInt.mul (MaxUploadMB cfg) 1024) 1024)).

(** [strings.TrimLeft(s, "/")] and [strings.TrimRight(s, "/")]. *)
Fixpoint TrimLeftSlash (s : string) : string :=
  match s with
  | String c s' => if Filepath.is_sep c then TrimLeftSlash s' else s
  | EmptyString => EmptyString
  end.

Definition TrimRightSlash (s : string) : string := Filepath.strip_trailing s.

(** [Upload]: the SDK uploader reads the body to its end and stores what
    it read.  The result is the bucket afterwards and either the error or
    the URL and the object key. *)
Definition Upload (u : option S3Uploader) (be : backend)
    (key : string) (r : reader) (contentType : string) (objs : objects)
  : objects * (error + string * string) :=
  match u with
  | None => (objs, inl ErrNotInitialized)
  | Some u =>
      if negb (client u) then (objs, inl ErrNotInitialized)
      else if String.eqb key "" then (objs, inl ErrKeyRequired)
      else
        let lr := LimitReader r (GoInt.add (maxBytes u) 1) in
        match ReadAll lr with
        | None => (objs, inl ErrRead)
        | Some body =>
            if be_put_err be then (objs, inl ErrStore)
            else
              let objKey := key in
              let url :=
                if negb (String.eqb (baseURL u) "")
                then TrimRightSlash (baseURL u) +:+ "/" +:+ TrimLeftSlash objKey
                else be_location be in
              (<[key := (body, contentType)]> objs, inr (url, objKey))
        end
  end.

(** [MaxBytes]. *)
Definition MaxBytes (u : S3Uploader) : Z := maxBytes u.

(** [PresignGet]. *)
Definition PresignGet (u : option S3Uploader) (be : backend) (key : string)
  : error + string :=
  match u with
  | None => inl ErrNotInitialized
  | Some u =>
      if negb (client u) then inl ErrNotInitialized
      else if String.eqb key "" then inl ErrKeyRequired
      else match be_presign be key with
           | Some url => inr url
           | None => inl ErrStore
           end
  end.

(** [GetObject], the [n]-th of the request. *)
Definition GetObject (u : option S3Uploader) (be : backend) (n : nat) (key : string)
  : error + reader * string :=
  match u with
  | None => inl ErrNotInitialized
  | Some u =>
      if negb (client u) then inl ErrNotInitialized
      else if String.eqb key "" then inl ErrKeyRequired
      else match be_get be n key with
           | Some out => inr out
           | None => inl ErrStore
           end
  end.

End Storage.

(* ===================================================================== *)
(** ** Images *)
(* ===================================================================== *)

Module Image.

Record Rectangle := Rect { MinX : Z; MinY : Z; MaxX : Z; MaxY : Z }.

Definition Dx (r : Rectangle) : Z := GoInt.wrap (MaxX r - MinX r).
Definition Dy (r : Rectangle) : Z := GoInt.wrap (MaxY r - MinY r).

(** A pixel: red, green, blue, alpha. *)
Definition color : Type := Z * Z * Z * Z.

Record Image := MkImage { Bounds : Rectangle; At : Z -> Z -> color }.

End Image.

(* ===================================================================== *)
(** ** More of [strings] and [path/filepath], used by the handlers *)
(* ===================================================================== *)

(** White space in UTF-8, for [strings.TrimSpace]. *)
Module Utf8.

Definition code (c : ascii) : N := N_of_ascii c.

(** The white space of [unicode.IsSpace] in UTF-8: U+0009 to U+000D and
    U+0020 in one byte; U+0085 and U+00A0 in two; U+1680, U+2000 to U+200A,
    U+2028, U+2029, U+202F, U+205F and U+3000 in three. *)
Definition space1 (b : N) : bool := ((9 <=? b) && (b <=? 13) || (b =? 32))%N.

Definition space2 (b1 b2 : N) : bool := ((b1 =? 194) && ((b2 =? 133) || (b2 =? 160)))%N.

Definition space3 (b1 b2 b3 : N) : bool :=
  ((b1 =? 225) && (b2 =? 154) && (b3 =? 128)
   || (b1 =? 226) && (b2 =? 128) &&
      ((128 <=? b3) && (b3 <=? 138) || (b3 =? 168) || (b3 =? 169) || (b3 =? 175))
   || (b1 =? 226) && (b2 =? 129) && (b3 =? 159)
   || (b1 =? 227) && (b2 =? 128) && (b3 =? 128))%N.

(** The number of bytes of the white-space character the bytes begin
    with, 0 when they begin with none. *)
Definition space_width (bs : list N) : nat :=
  match bs with
  | b1 :: b2 :: b3 :: _ =>
      if space1 b1 then 1 else if space2 b1 b2 then 2 else if space3 b1 b2 b3 then 3 else 0
  | [b1; b2] => if space1 b1 then 1 else if space2 b1 b2 then 2 else 0
  | [b1] => if space1 b1 then 1 else 0
  | [] => 0
  end%nat.

(** The same for the end of a string, on its bytes in reverse. *)
Definition space_width_back (rev_bs : list N) : nat :=
  match rev_bs with
  | b1 :: b2 :: b3 :: _ =>
      if space1 b1 then 1 else if space2 b2 b1 then 2 else if space3 b3 b2 b1 then 3 else 0
  | [b1; b2] => if space1 b1 then 1 else if space2 b2 b1 then 2 else 0
  | [b1] => if space1 b1 then 1 else 0
  | [] => 0
  end%nat.

Fixpoint trim (width : list N -> nat) (fuel : nat) (bs : list N) : list N :=
  match fuel with
  | O => bs
  | S fuel' =>
      match width bs with
      | O => bs
      | w => trim width fuel' (skipn w bs)
      end
  end.

Definition bytes (s : string) : list N := map code (list_ascii_of_string s).
Definition of_bytes (bs : list N) : string := string_of_list_ascii (map ascii_of_N bs).

(** [strings.TrimSpace]. *)
Definition TrimSpace (s : string) : string :=
  let left := trim space_width (String.length s) (bytes s) in
  of_bytes (rev (trim space_width_back (length left) (rev left))).

End Utf8.

Module Text.

Definition lower_char (c : ascii) : ascii :=
  let n := N_of_ascii c in
  if ((65 <=? n) && (n <=? 90))%N then ascii_of_N (n + 32) else c.

(** The letters A to Z lowered, every other byte kept: what
    [strings.ToLower] does to a string of ASCII characters. *)
Fixpoint lower_ascii (s : string) : string :=
  match s with
  | EmptyString => EmptyString
  | String c s' => String (lower_char c) (lower_ascii s')
  end.

(** [strings.ReplaceAll(s, old, new)] for a one-byte [old]. *)
Fixpoint ReplaceChar (s : string) (old : ascii) (new : string) : string :=
  match s with
  | EmptyString => EmptyString
  | String c s' =>
      if Ascii.eqb c old then new +:+ ReplaceChar s' old new
      else String c (ReplaceChar s' old new)
  end.

(** [strings.ReplaceAll(s, "..", new)]: matches are taken left to right
    and do not overlap. *)
Fixpoint ReplaceDotDot (fuel : nat) (s : string) (new : string) : string :=
  match fuel with
  | O => s
  | S fuel' =>
      match s with
      | String "." (String "." s') => new +:+ ReplaceDotDot fuel' s' new
      | String c s' => String c (ReplaceDotDot fuel' s' new)
      | EmptyString => EmptyString
      end
  end.

(** [filepath.Ext]: from the last dot of the last path element on. *)
Fixpoint Ext (s : string) : string :=
  match s with
  | EmptyString => EmptyString
  | String c s' =>
      let rest := list_ascii_of_string s' in
      if existsb Filepath.is_sep rest then Ext s'
      else if existsb (Ascii.eqb ".") rest then Ext s'
      else if Ascii.eqb c "." then s
      else EmptyString
  end.

End Text.

(* ===================================================================== *)
(** ** internal/handlers: the photo handlers *)
(* ===================================================================== *)

Module Handlers.

Import Image.

(** What a handler asks of its collaborators, in order. *)
Inductive event : Type :=
  | EvQuery (id : string)                 (* metadata store: select by id *)
  | EvInsert (id : string)                (* metadata store: insert *)
  | EvStat (path : string)                (* localcache.Exists *)
  | EvOpen (path : string)                (* os.Open *)
  | EvGetObject (key : string)            (* object store: GetObject *)
  | EvPresign (key : string)              (* object store: PresignGet *)
  | EvUpload (key : string)               (* object store: Upload *)
  | EvDecode (data : list byte)           (* image.Decode on these bytes *)
  | EvSave (path : string).               (* localcache.Save *)

(** A row of the photos table. *)
Record photo := MkPhoto
  { p_id : string; p_object_key : string; p_original_filename : string;
    p_content_type : string; p_size : Z; p_public_url : string }.

(** The statuses [http.ServeFile] answers with when it does not send the
    whole file: a part of it for a Range request, a redirect away from a
    URL that ends in /index.html, not modified or precondition failed for a
    conditional request, bad request for a URL with a ".." element, and
    forbidden, not found or internal server error when the file cannot be
    opened. *)
Inductive file_status : Type :=
  | PartialContent | MovedPermanently | NotModified | BadRequest | Forbidden
  | NotFound | PreconditionFailed | RangeNotSatisfiable | InternalServerError.

Definition status_code (st : file_status) : Z :=
  match st with
  | PartialContent => 206
  | MovedPermanently => 301
  | NotModified => 304
  | BadRequest => 400
  | Forbidden => 403
  | NotFound => 404
  | PreconditionFailed => 412
  | RangeNotSatisfiable => 416
  | InternalServerError => 500
  end.

(** The answer of [http.ServeFile] for a regular file: the whole file with
    200 and the headers of the handler untouched, or another status with
    the bytes that go with it (the part asked for, an error text, nothing)
    and with what it leaves of the headers of the handler (an error reply
    replaces the content type, and from Go 1.23 on it drops the cache
    directive; a 304 drops the content type). *)
Inductive served : Type :=
  | Whole
  | Instead (st : file_status) (sent : list byte) (kept : gmap string string).

(** The handler [h] and everything around one request. *)
Record Env := MkEnv
  { pool : string -> option photo;                  (* the photos row of an id *)
    insert_err : bool;                              (* the insert fails *)
    s3 : option Storage.S3Uploader;                 (* h.s3, nil when not configured *)
    be : Storage.backend;
    pid : Z;                                        (* os.Getpid() *)
    open_err : string -> bool;                      (* os.Open of a path fails *)
    read_err : string -> bool;                      (* reading the opened file fails *)
    save_faults : faults;
    client_err : bool;                              (* writing the body to the client fails *)
    Decode : list byte -> option (Image * string);  (* image.Decode *)
    png_Encode : Image -> option (list byte);
    jpeg_Encode : Image -> Z -> option (list byte);
    DetectContentType : list byte -> string;        (* http.DetectContentType *)
    NewV7 : option string;                          (* uuid.NewV7 *)
    UnixNano : Z;                                   (* time.Now().UnixNano() *)
    ToLower : string -> string;                     (* strings.ToLower *)
    ServeFile : string -> list byte -> served }.    (* http.ServeFile of a path, for
                                                       the request at hand and the
                                                       bytes the file holds *)

Record world := MkWorld
  { w_disk : disk;                    (* the local cache directory *)
    w_objs : Storage.objects;         (* the bucket *)
    w_rows : list photo;              (* rows inserted *)
    w_hdr : gmap string string;       (* response headers set so far *)
    w_gets : nat;                     (* GetObject calls made so far *)
    w_log : list event }.             (* collaborator calls, latest first *)

(** What a handler hands to the response writer. *)
Inductive body : Type :=
  | BError (msg : string)                              (* gin.H{"error": msg} *)
  | BCreated (id path content_type : string) (size : Z)
  | BFile (path : string) (content : list byte)        (* c.File: the whole file *)
  | BServed (path : string) (sent : list byte)         (* c.File: another answer *)
  | BData (data : list byte)                           (* c.Data, io.Copy to its end *)
  | BBroken (written : list byte)                      (* io.Copy that broke off *)
  | BRedirect (url : string)
  | BNoFile.                                           (* c.File without the file *)

Definition reply : Type := Z * body.

Definition M (A : Type) : Type := world -> A * world.

Definition ret {A : Type} (a : A) : M A := fun w => (a, w).
Definition bind {A B : Type} (m : M A) (k : A -> M B) : M B :=
  fun w => let '(a, w') := m w in k a w'.

Declare Scope handler_scope.
Delimit Scope handler_scope with handler.
Bind Scope handler_scope with M.
Notation "x ← y ; z" := (bind y (fun x => z))
  (at level 20, y at level 100, z at level 200, only parsing) : handler_scope.
Notation "x ;; z" := (bind x (fun _ => z))
  (at level 100, z at level 200, only parsing, right associativity) : handler_scope.
Local Open Scope handler_scope.

Definition gets {A : Type} (f : world -> A) : M A := fun w => (f w, w).
Definition modify (f : world -> world) : M unit := fun w => (tt, f w).

Definition set_disk (d : disk) (w : world) : world :=
  MkWorld d (w_objs w) (w_rows w) (w_hdr w) (w_gets w) (w_log w).
Definition set_objs (o : Storage.objects) (w : world) : world :=
  MkWorld (w_disk w) o (w_rows w) (w_hdr w) (w_gets w) (w_log w).
Definition add_row (p : photo) (w : world) : world :=
  MkWorld (w_disk w) (w_objs w) (p :: w_rows w) (w_hdr w) (w_gets w) (w_log w).
Definition set_hdr (k v : string) (w : world) : world :=
  MkWorld (w_disk w) (w_objs w) (w_rows w) (<[k := v]> (w_hdr w)) (w_gets w) (w_log w).
Definition put_hdr (h : gmap string string) (w : world) : world :=
  MkWorld (w_disk w) (w_objs w) (w_rows w) h (w_gets w) (w_log w).
Definition count_get (w : world) : world :=
  MkWorld (w_disk w) (w_objs w) (w_rows w) (w_hdr w) (S (w_gets w)) (w_log w).
Definition add_event (e : event) (w : world) : world :=
  MkWorld (w_disk w) (w_objs w) (w_rows w) (w_hdr w) (w_gets w) (e :: w_log w).

Definition emit (e : event) : M unit := modify (add_event e).

(** [c.Header(k, v)] for a value that is not empty, as are all the
    handlers pass. *)
Definition Header (k v : string) : M unit := modify (set_hdr k v).

(** [c.JSON(status, gin.H{"error": msg})] and [c.Data(status, contentType,
    data)]: they set the content type when none is set, and the handlers
    set none before them. *)
Definition JSON (status : Z) (msg : string) : M reply :=
  Header "Content-Type" "application/json; charset=utf-8";; ret (status, BError msg).

Definition Data (status : Z) (contentType : string) (data : list byte) : M reply :=
  Header "Content-Type" contentType;; ret (status, BData data).

(** [c.Redirect(status, location)]; the Location header is the URL as
    [http.Redirect] writes it, which for an absolute URL of ASCII
    characters is the URL itself. *)
Definition Redirect (status : Z) (location : string) : M reply :=
  Header "Location" location;; ret (status, BRedirect location).

(** What the client gets when [http.ServeFile] serves the file [path]
    holding [content], and the headers of the handler, [hdr], after it. *)
Definition file_reply (env : Env) (path : string) (content : list byte) : reply :=
  match ServeFile env path content with
  | Whole => (200, BFile path content)
  | Instead st sent _ => (status_code st, BServed path sent)
  end.

Definition file_headers (env : Env) (path : string) (content : list byte)
    (hdr : gmap string string) : gmap string string :=
  match ServeFile env path content with
  | Whole => hdr
  | Instead _ _ kept => kept
  end.

(** [c.File(path)], which is [http.ServeFile(c.Writer, c.Request, path)],
    on the file as it is on the disk now. (A file that is not there is
    answered 404; the handlers call [c.File] on files they have found or
    saved.) *)
Definition File (env : Env) (path : string) : M reply :=
  d ← gets w_disk;
  match d !! path with
  | Some content =>
      hdr ← gets w_hdr;
      modify (put_hdr (file_headers env path content hdr));;
      ret (file_reply env path content)
  | None => ret (404, BNoFile)
  end.

Definition QueryRow (env : Env) (id : string) : M (option photo) :=
  emit (EvQuery id);; ret (pool env id).

Definition Exists (path : string) : M bool :=
  emit (EvStat path);; gets (fun w => Localcache.Exists path (w_disk w)).

(** [os.Open]. *)
Definition Open (env : Env) (path : string) : M (option reader) :=
  emit (EvOpen path);;
  d ← gets w_disk;
  match d !! path with
  | Some content =>
      if open_err env path then ret None
      else ret (Some (Reader content (read_err env path)))
  | None => ret None
  end.

Definition GetObject (env : Env) (key : string) : M (error + reader * string) :=
  emit (EvGetObject key);;
  n ← gets w_gets;
  modify count_get;;
  ret (Storage.GetObject (s3 env) (be env) n key).

Definition PresignGet (env : Env) (key : string) : M (error + string) :=
  emit (EvPresign key);; ret (Storage.PresignGet (s3 env) (be env) key).

Definition image_Decode (env : Env) (data : list byte) : M (option (Image * string)) :=
  emit (EvDecode data);; ret (Decode env data).

Definition Save (env : Env) (path : string) (r : reader) : M (option error) :=
  emit (EvSave path);;
  d ← gets w_disk;
  let '(d', err) := Localcache.Save (pid env) (save_faults env) path r d in
  modify (set_disk d');;
  ret err.

Definition immutable : string := "public, max-age=31536000, immutable".
Definition short_private : string := "private, max-age=60".

(** The presigned redirect both retrieval handlers fall back to:
    [if h.s3 != nil { if presigned, perr := h.s3.PresignGet(...); perr == nil
    { ...; return } }], then [otherwise]. *)
Definition presignRedirect (env : Env) (objectKey : string) (otherwise : M reply) : M reply :=
  match s3 env with
  | Some _ =>
      p ← PresignGet env objectKey;
      match p with
      | inr presigned => Header "Cache-Control" short_private;; Redirect 302 presigned
      | inl _ => otherwise
      end
  | None => otherwise
  end.

(** [if localcache.Exists(srcPath) { if f, err := os.Open(srcPath); err == nil
    { src = f } }]. *)
Definition openCached (env : Env) (srcPath : string) : M (option reader) :=
  cached ← Exists srcPath;
  if cached then Open env srcPath else ret None.

(** [if src == nil && h.s3 != nil { if rc, _, _, err := h.s3.GetObject(...);
    err == nil { src = rc } }]. *)
Definition fetchIfNil (env : Env) (objectKey : string) (src : option reader)
  : M (option reader) :=
  match src, s3 env with
  | None, Some _ =>
      o ← GetObject env objectKey;
      match o with
      | inr (rc, _) => ret (Some rc)
      | inl _ => ret None
      end
  | _, _ => ret src
  end.

(** The source image of a thumbnail: the cached original when it opens,
    else the object from the store. *)
Definition thumbSource (env : Env) (objectKey srcPath : string) : M (option reader) :=
  src ← openCached env srcPath;
  fetchIfNil env objectKey src.

(** [32<<20], the bound on the bytes read for decoding. *)
Definition decode_limit : Z := Z.shiftl 32 20.

(** [height := int(float64(b.Dy()) * (float64(width) / float64(b.Dx())));
    if height <= 0 { height = 1 }]. *)
Definition scaledHeight (b : Rectangle) (width : Z) : Z :=
  let height :=
    Float64.to_int (Float64.mul (Float64.of_int (Dy b))
                      (Float64.div (Float64.of_int width) (Float64.of_int (Dx b)))) in
  if height <=? 0 then 1 else height.

(** The two loops that fill [dst := image.NewRGBA(image.Rect(0,0,width,height))]. *)
Definition nearest (img : Image) (width height : Z) : Image :=
  let b := Bounds img in
  MkImage (Rect 0 0 width height)
    (fun x y =>
       if (0 <=? x) && (x <? width) && (0 <=? y) && (y <? height) then
         let sy := GoInt.div (GoInt.mul y (Dy b)) height in
         let sx := GoInt.div (GoInt.mul x (Dx b)) width in
         At img (GoInt.add (MinX b) sx) (GoInt.add (MinY b) sy)
       else (0, 0, 0, 0)).

(** The encoded thumbnail and its content type: PNG for a PNG source,
    else JPEG at quality 75. *)
Definition encodeThumb (env : Env) (format : string) (dst : Image)
  : option (list byte * string) :=
  if String.eqb format "png" then
    match png_Encode env dst with
    | Some buf => Some (buf, "image/png")
    | None => None
    end
  else
    match jpeg_Encode env dst 75 with
    | Some buf => Some (buf, "image/jpeg")
    | None => None
    end.

Definition is_digit (c : ascii) : bool :=
  let n := N_of_ascii c in ((48 <=? n) && (n <=? 57))%N.

(** [for _, ch := range widthStr { if ch < '0' || ch > '9' { ...; return } }]. *)
Fixpoint all_digits (s : string) : bool :=
  match s with
  | EmptyString => true
  | String c s' => is_digit c && all_digits s'
  end.

(** [for i := 0; i < len(widthStr); i++ { width = width*10 + int(widthStr[i]-'0') }]
    from the value [width] on, in 64-bit arithmetic. *)
Fixpoint atoi_from (width : Z) (s : string) : Z :=
  match s with
  | EmptyString => width
  | String c s' =>
      atoi_from (GoInt.add (GoInt.mul width 10) ((Z.of_N (N_of_ascii c) - 48) mod 256)) s'
  end.

(** The number a string of decimal digits denotes, continuing [acc]. *)
Fixpoint decimal_from (acc : Z) (s : string) : Z :=
  match s with
  | EmptyString => acc
  | String c s' => decimal_from (acc * 10 + (Z.of_N (N_of_ascii c) - 48) mod 256) s'
  end.

(** The checks at the head of [GetPhotoThumbnail]: the width of an
    accepted spec, or the message of the 400 reply. *)
Definition parseSpec (spec : string) : string + Z :=
  if String.eqb spec "" || negb (Strings.HasPrefix spec "w") then inl "invalid thumbnail spec"
  else
    let widthStr := Strings.TrimPrefix spec "w" in
    if String.eqb widthStr "" then inl "missing width"
    else if negb (all_digits widthStr) then inl "invalid width"
    else
      let width := atoi_from 0 widthStr in
      if (width <=? 0) || (4096 <? width) then inl "width out of range"
      else inr width.

(** [GetPhotoThumbnail], for [GET /photos/:id/thumb/:w]. *)
Definition GetPhotoThumbnail (env : Env) (id spec : string) : M reply :=
  match parseSpec spec with
  | inl msg => JSON 400 msg
  | inr width =>
  row ← QueryRow env id;
  match row with
  | None => JSON 404 "not found"
  | Some p =>
  let objectKey := p_object_key p in
  let contentType := p_content_type p in
  let thumbPath := Localcache.ThumbPath objectKey spec in
  hit ← Exists thumbPath;
  if hit then Header "Cache-Control" immutable;; File env thumbPath
  else
  let srcPath := Localcache.PhotoPath objectKey in
  src ← thumbSource env objectKey srcPath;
  match src with
  | None => presignRedirect env objectKey (JSON 503 "source unavailable")
  | Some src =>
  match ReadAll (LimitReader src decode_limit) with
  | None => JSON 500 "read failed"
  | Some data =>
  dec ← image_Decode env data;
  match dec with
  | None => presignRedirect env objectKey (JSON 400 "decode failed")
  | Some (img, format) =>
  let b := Bounds img in
  if Dx b <=? width then
    err ← Save env thumbPath (bytes_reader data);
    match err with
    | None => Header "Cache-Control" immutable;; File env thumbPath
    | Some _ => Data 200 contentType data
    end
  else
  let height := scaledHeight b width in
  let dst := nearest img width height in
  match encodeThumb env format dst with
  | None => JSON 500 "encode failed"
  | Some (buf, ct) =>
  err ← Save env thumbPath (bytes_reader buf);
  match err with
  | None => Header "Cache-Control" immutable;; Data 200 ct buf
  | Some _ => Header "Cache-Control" short_private;; Data 200 ct buf
  end
  end
  end
  end
  end
  end
  end.

(** The width chosen by the [thumbnail] query parameter of [GetPhoto]. *)
Definition targetWidthOf (env : Env) (thumbnail : string) : Z :=
  let thumbSel := Utf8.TrimSpace (ToLower env thumbnail) in
  if String.eqb thumbSel "" || String.eqb thumbSel "medium" then 300
  else if String.eqb thumbSel "small" then 100
  else if String.eqb thumbSel "large" then 1200
  else if String.eqb thumbSel "original" then 0
  else 300.

(** [if contentType != "" { c.Header("Content-Type", contentType) }]. *)
Definition contentTypeHeader (contentType : string) : M unit :=
  if String.eqb contentType "" then ret tt else Header "Content-Type" contentType.

(** [if _, copyErr := io.Copy(c.Writer, rc2); copyErr == nil
    { c.Status(http.StatusOK); return }], and [otherwise] after it. A body
    without bytes is copied without a write. The first bytes written send
    the status 200 and the headers set so far: when the copy breaks after
    that, by the reader or by the client, the calls of [otherwise] are
    still made, but the status and the headers they set do not reach the
    client. *)
Definition copyOrElse (env : Env) (rc2 : reader) (otherwise : M reply) : M reply :=
  match rd_data rc2 with
  | [] => if rd_err rc2 then otherwise else ret (200, BData [])
  | _ :: _ =>
      if rd_err rc2 || client_err env then
        sent ← gets w_hdr;
        otherwise;;
        modify (put_hdr sent);;
        ret (200, BBroken (rd_data rc2))
      else ret (200, BData (rd_data rc2))
  end.

(** The original of [GetPhoto], once the local cache has missed and the
    store client is set. *)
Definition fetchOriginal (env : Env) (objectKey contentType cachePath : string)
    (otherwise : M reply) : M reply :=
  o ← GetObject env objectKey;
  match o with
  | inr (rc, s3CT) =>
      werr ← Save env cachePath rc;
      match werr with
      | None =>
          let contentType := if String.eqb contentType "" then s3CT else contentType in
          contentTypeHeader contentType;;
          Header "Cache-Control" immutable;;
          File env cachePath
      | Some _ =>
          o2 ← GetObject env objectKey;
          match o2 with
          | inr (rc2, s3CT2) =>
              let contentType := if String.eqb contentType "" then s3CT2 else contentType in
              contentTypeHeader contentType;;
              Header "Cache-Control" short_private;;
              copyOrElse env rc2 otherwise
          | inl _ => otherwise
          end
      end
  | inl _ => otherwise
  end.

(** [GetPhoto], for [GET /photos/:id?thumbnail=...]. *)
Definition GetPhoto (env : Env) (id thumbnail : string) : M reply :=
  row ← QueryRow env id;
  match row with
  | None => JSON 404 "not found"
  | Some p =>
  let url := p_public_url p in
  let objectKey := p_object_key p in
  let contentType := p_content_type p in
  let targetWidth := targetWidthOf env thumbnail in
  if 0 <? targetWidth then
    let spec := "w" +:+ GoInt.Itoa targetWidth in
    let thumbPath := Localcache.ThumbPath objectKey spec in
    hit ← Exists thumbPath;
    if hit then Header "Cache-Control" immutable;; File env thumbPath
    else
    let srcPath := Localcache.PhotoPath objectKey in
    src ← thumbSource env objectKey srcPath;
    match src with
    | None => presignRedirect env objectKey (JSON 503 "source unavailable")
    | Some src =>
    match ReadAll (LimitReader src decode_limit) with
    | None => JSON 500 "read failed"
    | Some data =>
    dec ← image_Decode env data;
    match dec with
    | None => presignRedirect env objectKey (JSON 400 "decode failed")
    | Some (img, format) =>
    let b := Bounds img in
    if Dx b <=? targetWidth then
      err ← Save env thumbPath (bytes_reader data);
      match err with
      | None => Header "Cache-Control" immutable;; File env thumbPath
      | Some _ =>
          let ct := if String.eqb contentType "" then DetectContentType env data
                    else contentType in
          Data 200 ct data
      end
    else
    let height := scaledHeight b targetWidth in
    let dst := nearest img targetWidth height in
    match encodeThumb env format dst with
    | None => JSON 500 "encode failed"
    | Some (buf, ct) =>
    err ← Save env thumbPath (bytes_reader buf);
    match err with
    | None => Header "Cache-Control" immutable;; Data 200 ct buf
    | Some _ => Header "Cache-Control" short_private;; Data 200 ct buf
    end
    end
    end
    end
    end
  else
  let cachePath := Localcache.PhotoPath objectKey in
  hit ← Exists cachePath;
  if hit then
    contentTypeHeader contentType;;
    Header "Cache-Control" immutable;;
    File env cachePath
  else
  let publicRedirect := (Header "Cache-Control" immutable;; Redirect 302 url) in
  match s3 env with
  | Some _ =>
      fetchOriginal env objectKey contentType cachePath
        (p ← PresignGet env objectKey;
         match p with
         | inr presigned => Header "Cache-Control" short_private;; Redirect 302 presigned
         | inl _ => publicRedirect
         end)
  | None => publicRedirect
  end
  end.

(** The size specs the handlers pass to [localcache.ThumbPath]: a spec
    that [GetPhotoThumbnail] has accepted, or "w" and the width that
    [GetPhoto] has chosen for a thumbnail. *)
Definition spec_in_use (spec : string) : Prop :=
  (exists width, parseSpec spec = inr width) \/
  (exists env thumbnail,
     0 < targetWidthOf env thumbnail /\
     spec = "w" +:+ GoInt.Itoa (targetWidthOf env thumbnail)).

(** The file part of a multipart form: [multipart.FileHeader] and what
    [Open] gives. *)
Record FileHeader := MkFileHeader
  { Filename : string;
    Size : Z;
    PartContentType : string;          (* fileHeader.Header.Get("Content-Type") *)
    fh_open : string + reader }.       (* Open(): its error text, or the file *)

Record UploadRequest := MkUploadRequest
  { ContentType : string;              (* c.ContentType() *)
    parse_err : option string;         (* error text of ParseMultipartForm *)
    form_file : string + FileHeader }. (* c.FormFile("file") *)

Definition error_text (e : error) : string :=
  match e with
  | ErrNotInitialized => "uploader not initialized"
  | ErrKeyRequired => "key required"
  | ErrRead => "read failed"
  | _ => "operation failed"
  end.

(** [sanitizeFilename]. *)
Definition sanitizeFilename (name : string) : string :=
  let name := Utf8.TrimSpace name in
  let name := Text.ReplaceChar name "\" "-" in
  let name := Text.ReplaceChar name "/" "-" in
  let name := Text.ReplaceDotDot (String.length name) name "-" in
  name.

(** The content type after sniffing: the sniffed one unless it is generic,
    then the part's header, then the extension of the file name. *)
Definition resolveContentType (env : Env) (sniffed header filename : string) : string :=
  if String.eqb sniffed "application/octet-stream"
     || String.eqb sniffed "binary/octet-stream"
     || String.eqb sniffed "text/plain; charset=utf-8"
  then
    if negb (String.eqb header "") then header
    else
      let ext := ToLower env (Text.Ext filename) in
      if String.eqb ext ".jpg" || String.eqb ext ".jpeg" then "image/jpeg"
      else if String.eqb ext ".png" then "image/png"
      else if String.eqb ext ".webp" then "image/webp"
      else if String.eqb ext ".heic" then "image/heic"
      else "application/octet-stream"
  else sniffed.

Definition Upload (env : Env) (key : string) (r : reader) (contentType : string)
  : M (error + string * string) :=
  emit (EvUpload key);;
  objs ← gets w_objs;
  let '(objs', res) := Storage.Upload (s3 env) (be env) key r contentType objs in
  modify (set_objs objs');;
  ret res.

(** [h.pool.Exec(ctx, `insert into photos ...`)]: whether it failed. *)
Definition Insert (env : Env) (p : photo) : M bool :=
  emit (EvInsert (p_id p));;
  if insert_err env then ret true else modify (add_row p);; ret false.

(** [UploadPhoto], for [POST /photos]. *)
Definition UploadPhoto (env : Env) (req : UploadRequest) : M reply :=
  match s3 env with
  | None => JSON 503 "upload unavailable"
  | Some u =>
  if negb (Strings.HasPrefix (ContentType req) "multipart/")
  then JSON 400 "content type must be multipart/form-data"
  else
  match parse_err req with
  | Some e => JSON 400 e
  | None =>
  match form_file req with
  | inl e => JSON 400 e
  | inr fileHeader =>
  if (0 <? Storage.MaxBytes u) && (0 <? Size fileHeader)
     && (Storage.MaxBytes u <? Size fileHeader)
  then JSON 413 "file too large"
  else
  match fh_open fileHeader with
  | inl e => JSON 400 e
  | inr f =>
  let filename := sanitizeFilename (Filename fileHeader) in
  let filename :=
    if String.eqb filename "" then "upload-" +:+ GoInt.Itoa (UnixNano env) else filename in
  let sniffBuf := takeZ (rd_data f) 512 in
  let uploadReader := f in
  let ctype :=
    resolveContentType env (DetectContentType env sniffBuf) (PartContentType fileHeader)
                       filename in
  if negb (Strings.HasPrefix (ToLower env ctype) "image/")
  then JSON 400 "only image uploads are allowed"
  else
  match NewV7 env with
  | None => JSON 500 "failed to generate id"
  | Some newID =>
  let ext := ToLower env (Text.Ext filename) in
  let ext := if String.eqb ext "" then ".bin" else ext in
  let key := "photos/" +:+ newID +:+ ext in
  up ← Upload env key uploadReader ctype;
  match up with
  | inl err => JSON 500 (error_text err)
  | inr (url, objectKey) =>
  let size := Size fileHeader in
  failed ← Insert env (MkPhoto newID objectKey filename ctype size url);
  if failed then JSON 500 "insert failed"
  else
    Header "Content-Type" "application/json; charset=utf-8";;
    ret (201, BCreated newID ("/photos/" +:+ newID) ctype size)
  end
  end
  end
  end
  end
  end.

(** A request served from scratch: no header set, nothing logged. *)
Definition fresh (d : disk) : world := MkWorld d ∅ [] ∅ 0 [].

(** The response: the status, the headers that the calls of the handler
    have set ([c.Header], [c.JSON], [c.Data], [c.Redirect]) as [c.File]
    leaves them, and the body. What the writer adds of its own, as the
    length, the date or a content type it sniffs when none is set, is not
    among the headers. *)
Record response := MkResponse
  { status : Z; headers : gmap string string; resp_body : body }.

(** One request against the disk [d], with no other request at work at
    the same time: the response, and the world after. *)
Definition serve (h : M reply) (d : disk) : response * world :=
  let '((st, b), w) := h (fresh d) in (MkResponse st (w_hdr w) b, w).

Definition cache_control (r : response) : option string := headers r !! "Cache-Control".

(** [src] is what a thumbnail of [key] is made from: the cached original
    when it opens, else the object of the first [GetObject]. *)
Definition source_is (env : Env) (d : disk) (key : string) (src : reader) : Prop :=
  (d !! Localcache.PhotoPath key = Some (rd_data src) /\
   open_err env (Localcache.PhotoPath key) = false /\
   rd_err src = read_err env (Localcache.PhotoPath key)) \/
  ((d !! Localcache.PhotoPath key = None \/ open_err env (Localcache.PhotoPath key) = true) /\
   exists ct, Storage.GetObject (s3 env) (be env) 0 key = inr (src, ct)).

(** No source: the cached original is absent or does not open, and the
    store is not configured or does not deliver the object. *)
Definition no_source (env : Env) (d : disk) (key : string) : Prop :=
  (d !! Localcache.PhotoPath key = None \/ open_err env (Localcache.PhotoPath key) = true) /\
  exists e, Storage.GetObject (s3 env) (be env) 0 key = inl e.

(** No direct link: the store is not configured or presigning fails. *)
Definition no_presign (env : Env) (key : string) : Prop :=
  exists e, Storage.PresignGet (s3 env) (be env) key = inl e.

End Handlers.

(* ===================================================================== *)
(** ** What the retrieval handlers promise, in terms of a response [r] and
       the world [w] the request leaves *)
(* ===================================================================== *)

Module Contracts.

Import Handlers Image.






(** The directive of a response, by what the response is: a file of the
    cache, bytes that were saved to the cache, bytes that were not (and are
    not the bytes that were decoded), a redirect. *)
Definition directive_contract (env : Env) (id : string) (r : response) (w : world) : Prop :=
  (forall path content,
     resp_body r = BFile path content -> cache_control r = Some immutable) /\
  (forall buf path,
     resp_body r = BData buf -> In (EvSave path) (w_log w) ->
     w_disk w !! path = Some buf -> cache_control r = Some immutable) /\
  (forall buf path,
     resp_body r = BData buf -> In (EvSave path) (w_log w) ->
     w_disk w !! path <> Some buf -> ~ In (EvDecode buf) (w_log w) ->
     cache_control r = Some short_private) /\
  (forall u,
     resp_body r = BRedirect u ->
     exists p, pool env id = Some p /\
       (cache_control r = Some short_private /\
        Storage.PresignGet (s3 env) (be env) (p_object_key p) = inr u
        \/
        cache_control r = Some immutable /\ u = p_public_url p /\
        no_presign env (p_object_key p))).

(** What is decoded is never longer than [decode_limit], and it is the
    beginning of the source. *)
Definition decode_input_contract (env : Env) (id : string) (d : disk) (w : world) : Prop :=
  forall data,
    In (EvDecode data) (w_log w) ->
    Z.of_nat (length data) <= decode_limit /\
    forall p src,
      pool env id = Some p -> source_is env d (p_object_key p) src ->
      data = takeZ (rd_data src) decode_limit.


(** A source of [decode_limit] bytes or more is not turned away: its
    first [decode_limit] bytes are decoded. *)
Definition long_source_contract (env : Env) (id : string) (d : disk) (spec : string)
    (w : world) : Prop :=
  forall p src,
    pool env id = Some p ->
    d !! Localcache.ThumbPath (p_object_key p) spec = None ->
    source_is env d (p_object_key p) src ->
    decode_limit <= Z.of_nat (length (rd_data src)) ->
    In (EvDecode (takeZ (rd_data src) decode_limit)) (w_log w).


(** Downscaling: the image handed to the encoder has the requested width
    and the scaled height. *)
Definition resize_contract (env : Env) (width : Z) (r : response) (w : world) : Prop :=
  forall data img fmt,
    In (EvDecode data) (w_log w) -> Decode env data = Some (img, fmt) ->
    width < Dx (Bounds img) ->
    let dst := nearest img width (scaledHeight (Bounds img) width) in
    match encodeThumb env fmt dst with
    | Some (buf, ct) =>
        status r = 200 /\ resp_body r = BData buf /\ headers r !! "Content-Type" = Some ct
    | None => status r = 500 /\ resp_body r = BError "encode failed"
    end.

(** The height the specification asks for: [nativeHeight * requestedWidth /
    nativeWidth] rounded to the nearest integer (halves upwards), and at
    least 1. *)
Definition rounded_height (nativeWidth nativeHeight requestedWidth : Z) : Z :=
  Z.max 1 ((2 * (nativeHeight * requestedWidth) + nativeWidth) / (2 * nativeWidth)).

End Contracts.

(* ===================================================================== *)
(** ** Sample requests, used to run the handlers *)
(* ===================================================================== *)

Module Demo.

Import Handlers Image.

Definition photo1 : photo :=
  MkPhoto "0199a1b2" "photos/0199a1b2.png" "cat.png" "image/png" 6
          "https://cdn.example/photos/0199a1b2.png".

Definition rows (id : string) : option photo :=
  if String.eqb id "0199a1b2" then Some photo1 else None.

(** MAX_UPLOAD_MB=10. *)
Definition uploader : Storage.S3Uploader := Storage.MkUploader true "bucket" "" 10485760.

(** A store that cannot be reached and cannot presign. *)
Definition store_down : Storage.backend :=
  Storage.Backend true "" (fun _ _ => None) (fun _ => None).

(** A store that cannot be reached but presigns. *)
Definition store_presign_only : Storage.backend :=
  Storage.Backend true "" (fun _ _ => None)
    (fun key => Some ("https://s3.example/" +:+ key +:+ "?sig")).

(** A store that serves [body] for every key. *)
Definition store_with (body : reader) : Storage.backend :=
  Storage.Backend false "https://s3.example/stored" (fun _ _ => Some (body, "image/png"))
    (fun key => Some ("https://s3.example/" +:+ key +:+ "?sig")).

(** A decoder that looks at the first byte only: 0x89 opens a PNG of
    1000x500 pixels, 0xff a JPEG of 200x100, 0x42 a bitmap of 1000x999. *)
Definition decoder (data : list byte) : option (Image * string) :=
  match data with
  | x89 :: _ => Some (MkImage (Rect 0 0 1000 500) (fun _ _ => (0, 0, 0, 255)), "png")
  | xff :: _ => Some (MkImage (Rect 0 0 200 100) (fun _ _ => (0, 0, 0, 255)), "jpeg")
  | x42 :: _ => Some (MkImage (Rect 0 0 1000 999) (fun _ _ => (0, 0, 0, 255)), "bmp")
  | _ => None
  end.

(** Encoders that write the size of the image, as in "200x100". *)
Definition dims (img : Image) : list byte :=
  list_byte_of_string
    (GoInt.Itoa (Dx (Bounds img)) +:+ "x" +:+ GoInt.Itoa (Dy (Bounds img))).

(** A plain GET of ASCII text: [strings.ToLower] lowers the letters A to
    Z, and [http.ServeFile] sends the whole file. *)
Definition env (store : option Storage.S3Uploader) (b : Storage.backend) (fl : faults) : Env :=
  MkEnv rows false store b 4242 (fun _ => false) (fun _ => false) fl false
        decoder (fun img => Some (x89 :: dims img)) (fun img _ => Some (xff :: dims img))
        (fun _ => "application/octet-stream") (Some "0199ffff") 1700000000
        Text.lower_ascii (fun _ _ => Whole).

(** The same request when [http.ServeFile] cannot open the files it is
    handed and answers 500, dropping the cache directive. *)
Definition unserved (e : Env) : Env :=
  MkEnv (pool e) (insert_err e) (s3 e) (be e) (pid e) (open_err e) (read_err e)
        (save_faults e) (client_err e) (Decode e) (png_Encode e) (jpeg_Encode e)
        (DetectContentType e) (NewV7 e) (UnixNano e) (ToLower e)
        (fun _ _ => Instead InternalServerError [] ∅).

Definition png_bytes : list byte := [x89; x50; x4e; x47; x0d; x0a].

End Demo.

(* ===================================================================== *)
(** ** [strconv.Atoi] *)
(* ===================================================================== *)

Module Strconv.

Inductive NumError : Type := ErrSyntax | ErrRange.

Definition code (c : ascii) : Z := Z.of_N (N_of_ascii c).

(** The loop of the fast path: [ch -= '0'; if ch > 9 { return 0, syntaxError };
    n = n*10 + int(ch)], with [ch] a byte. *)
Fixpoint fast_digits (n : Z) (s : string) : option Z :=
  match s with
  | EmptyString => Some n
  | String c s' =>
      let ch := (code c - 48) mod 256 in
      if 9 <? ch then None else fast_digits (GoInt.add (GoInt.mul n 10) ch) s'
  end.

(** The smallest number whose tenfold exceeds [maxUint64]. *)
Definition cutoff : Z := (2 ^ 64 - 1) / 10 + 1.
Definition maxVal : Z := 2 ^ 64 - 1.

(** The loop of [ParseUint(s, 10, 64)] from the value [n] on. *)
Fixpoint uint_digits (n : Z) (s : string) : Z * option NumError :=
  match s with
  | EmptyString => (n, None)
  | String c s' =>
      if (48 <=? code c) && (code c <=? 57) then
        let d := code c - 48 in
        if cutoff <=? n then (maxVal, Some ErrRange)
        else
          let n10 := (n * 10) mod 2 ^ 64 in
          let n1 := (n10 + d) mod 2 ^ 64 in
          if (n1 <? n10) || (maxVal <? n1) then (maxVal, Some ErrRange)
          else uint_digits n1 s'
      else (0, Some ErrSyntax)
  end.

Definition ParseUint (s : string) : Z * option NumError :=
  if String.eqb s "" then (0, Some ErrSyntax) else uint_digits 0 s.

(** [ParseInt(s, 10, 0)] on a 64-bit platform. *)
Definition ParseInt (s : string) : Z * option NumError :=
  match s with
  | EmptyString => (0, Some ErrSyntax)
  | String c rest =>
      let neg := Ascii.eqb c "-" in
      let s' := if Ascii.eqb c "+" || neg then rest else s in
      match ParseUint s' with
      | (_, Some ErrSyntax) => (0, Some ErrSyntax)
      | (un, _) =>
          let cutoff := 2 ^ 63 in
          if negb neg && (cutoff <=? un) then (cutoff - 1, Some ErrRange)
          else if neg && (cutoff <? un) then (- cutoff, Some ErrRange)
          else
            let n := GoInt.wrap un in
            (if neg then GoInt.wrap (- n) else n, None)
      end
  end.

(** [strconv.Atoi]: the value and whether an error comes with it. *)
Definition Atoi (s : string) : Z * bool :=
  let sLen := Z.of_nat (String.length s) in
  if (0 <? sLen) && (sLen <? 19) then
    match s with
    | EmptyString => (0, true)
    | String c rest =>
        let signed := Ascii.eqb c "-" || Ascii.eqb c "+" in
        let s' := if signed then rest else s in
        if signed && (Z.of_nat (String.length s') <? 1) then (0, true)
        else
          match fast_digits 0 s' with
          | None => (0, true)
          | Some n => (if Ascii.eqb c "-" then GoInt.wrap (- n) else n, false)
          end
    end
  else
    let '(i64, err) := ParseInt s in
    (i64, match err with Some _ => true | None => false end).

End Strconv.

(* ===================================================================== *)
(** ** internal/config *)
(* ===================================================================== *)

Module Config.

(** The environment of the process. *)
Abbreviation environ := (gmap string string).

(** [os.Getenv]: the empty string for a variable that is not set. *)
Definition Getenv (e : environ) (key : string) : string := default "" (e !! key).

(** [env]. *)
Definition env (e : environ) (key def : string) : string :=
  let v := Getenv e key in
  if negb (String.eqb v "") then v else def.

Record Config := MkConfig
  { DBHost : string; DBPort : string; DBUser : string; DBPass : string;
    DBName : string; DBSSL : string; Port : string;
    SheetID : string; SheetTab : string;
    SheetInterval : Z;                       (* time.Duration, in nanoseconds *)
    S3Bucket : string; S3Region : string; S3Endpoint : string;
    S3AccessKey : string; S3SecretKey : string;
    S3UsePathStyle : bool; S3BaseURL : string;
    MaxUploadMB : Z }.

(** [time.Second]. *)
Definition Second : Z := 1000000000.

(** [strings.EqualFold(s, t)] for a [t] of ASCII letters none of which is
    k or s: such letters fold to their other case only, so a byte of [s]
    matches when it is the letter in either case. *)
Fixpoint EqualFold (s t : string) : bool :=
  match s, t with
  | EmptyString, EmptyString => true
  | String c s', String d t' =>
      Ascii.eqb (Text.lower_char c) (Text.lower_char d) && EqualFold s' t'
  | _, _ => false
  end.

(** [Load]. *)
Definition Load (e : environ) : Config :=
  let intervalSec := fst (Strconv.Atoi (env e "SHEET_REFRESH_SEC" "300")) in
  let maxUploadMB := fst (Strconv.Atoi (env e "MAX_UPLOAD_MB" "10")) in
  MkConfig
    (env e "DB_HOST" "localhost")
    (env e "DB_PORT" "5432")
    (env e "DB_USER" "postgres")
    (env e "DB_PASSWORD" "postgres")
    (env e "DB_NAME" "relief")
    (env e "DB_SSLMODE" "disable")
    (env e "PORT" "8080")
    (env e "SHEET_ID" "")
    (env e "SHEET_TAB" "")
    (GoInt.mul intervalSec Second)
    (env e "S3_BUCKET" "")
    (env e "S3_REGION" "auto")
    (env e "S3_ENDPOINT" "")
    (env e "S3_ACCESS_KEY_ID" "")
    (env e "S3_SECRET_ACCESS_KEY" "")
    (EqualFold (env e "S3_USE_PATH_STYLE" "false") "true")
    (env e "S3_BASE_URL" "")
    maxUploadMB.

(** What [storage.NewS3Uploader] reads of the configuration. *)
Definition for_storage (cfg : Config) : Storage.Config :=
  Storage.MkConfig (S3Bucket cfg) (S3BaseURL cfg) (MaxUploadMB cfg).

End Config.

(* ===================================================================== *)
(** ** internal/middleware: the write rate limit *)
(* ===================================================================== *)

Module Middleware.

(** [strings.Split(s, sep)] for a one-byte separator. *)
Fixpoint Split (s : string) (sep : ascii) : list string :=
  match s with
  | EmptyString => [EmptyString]
  | String c s' =>
      if Ascii.eqb c sep then EmptyString :: Split s' sep
      else match Split s' sep with
           | x :: xs => String c x :: xs
           | [] => [String c EmptyString]
           end
  end.

(** What the limiter reads of a request: the method, [c.FullPath()] and
    [clientIP(c)]. *)
Record Request := MkRequest { Method : string; FullPath : string; ClientIP : string }.

(** [requestPattern]: when the counts were loaded (nanoseconds) and the
    count per pattern. The map is shared by all that hold the value. *)
Record requestPattern := MkPattern { loadedAt : Z; patterns : gmap string Z }.

(** A row of the query over [request_logs] as [rows.Scan(&ip, &path,
    &count)] reads it, [None] when it does not scan. *)
Definition row : Type := option (string * string * Z).

(** The set of paths of [writeRateLimitPathPattern]. *)
Definition paths_of (writeRateLimitPathPattern : string) : gset string :=
  if negb (String.eqb writeRateLimitPathPattern "")
  then list_to_set (map Utf8.TrimSpace (Split writeRateLimitPathPattern ","))
  else ∅.

(** [len(paths) > 0]. *)
Definition some_paths (paths : gset string) : bool := negb (bool_decide (paths = ∅)).

(** The key of a count: the address, with the path when paths are
    configured. *)
Definition pattern_of (paths : gset string) (ip path : string) : string :=
  if some_paths paths then ip +:+ "_" +:+ path else ip.

(** [m[pat] += n]. *)
Definition bump (m : gmap string Z) (pat : string) (n : Z) : gmap string Z :=
  <[pat := GoInt.add (default 0 (m !! pat)) n]> m.

(** [for rows.Next() { if err := rows.Scan(...); err != nil { continue };
    ...; r.patterns[pat] += count }] from the counts [m] on. A row that
    does not scan ends the loop: pgx closes the rows when [Scan] fails, so
    the [rows.Next()] that the [continue] leads to is false. *)
Fixpoint scan_rows (paths : gset string) (rows : list row) (m : gmap string Z)
  : gmap string Z :=
  match rows with
  | Some (ip, path, count) :: rest =>
      scan_rows paths rest (bump m (pattern_of paths ip path) count)
  | None :: _ => m
  | [] => m
  end.

(** [loadRequestPattern]: [query] is the metadata store answering the
    query for the window given in seconds, [None] when the query fails. *)
Definition loadRequestPattern (paths : gset string) (writeRateLimitSeconds : Z)
    (now : Z) (query : Z -> option (list row)) : requestPattern :=
  match query (GoInt.add writeRateLimitSeconds (-60)) with
  | None => MkPattern now ∅
  | Some rows => MkPattern now (scan_rows paths rows ∅)
  end.

(** The limiter that [NewWriteRequestCache] returns, without its cache. *)
Record Limiter := MkLimiter
  { paths : gset string;
    refreshInterval : Z;          (* time.Duration, in nanoseconds *)
    writeRateLimitSeconds : Z;
    writeRateLimitCount : Z }.

(** [time.Since(t)] at the time [now]: the difference, kept within the
    range of a [Duration]. *)
Definition Since (now t : Z) : Z := Z.max GoInt.min_int (Z.min GoInt.max_int (now - t)).

(** [NewWriteRequestCache] up to the closure: the limiter and the first
    value of the cache. *)
Definition NewWriteRequestCache (query : Z -> option (list row)) (now : Z)
    (refreshInterval writeRateLimitSeconds writeRateLimitCount : Z)
    (writeRateLimitPathPattern : string) : Limiter * requestPattern :=
  let paths := paths_of writeRateLimitPathPattern in
  (MkLimiter paths refreshInterval writeRateLimitSeconds writeRateLimitCount,
   loadRequestPattern paths writeRateLimitSeconds now query).

(** The closure on one request, at the time [now] and with [cache] the
    value the cache holds: whether the request is over the limit, the
    value after the request, and whether a reload was started. *)
Definition limited (l : Limiter) (now : Z) (c : Request) (cache : requestPattern)
  : bool * requestPattern * bool :=
  if (writeRateLimitSeconds l =? 0) || (writeRateLimitCount l =? 0)
  then (false, cache, false)
  else if negb (String.eqb (Method c) "POST") && negb (String.eqb (Method c) "PATCH")
  then (false, cache, false)
  else if some_paths (paths l) && negb (bool_decide (FullPath c ∈ paths l))
  then (false, cache, false)
  else
    let reload := negb (Since now (loadedAt cache) <? refreshInterval l) in
    let rp := cache in
    let cip := ClientIP c in
    if String.eqb cip "" then (false, cache, reload)
    else
      let pat := pattern_of (paths l) cip (FullPath c) in
      let n := GoInt.add (default 0 (patterns rp !! pat)) 1 in
      (writeRateLimitCount l <? n, MkPattern (loadedAt rp) (<[pat := n]> (patterns rp)),
       reload).

(** The reload that a request started, when it ends: the cache holds the
    fresh counts. *)
Definition reloaded (l : Limiter) (now : Z) (query : Z -> option (list row))
  : requestPattern :=
  loadRequestPattern (paths l) (writeRateLimitSeconds l) now query.

(** Requests one after the other, each with its time, and no reload
    ending in between: the verdicts, and the value of the cache at the
    end. *)
Fixpoint serve_all (l : Limiter) (cs : list (Z * Request)) (cache : requestPattern)
  : list bool * requestPattern :=
  match cs with
  | [] => ([], cache)
  | (now, c) :: cs' =>
      let '(v, cache', _) := limited l now c cache in
      let '(vs, final) := serve_all l cs' cache' in
      (v :: vs, final)
  end.

(** Whether the requests start a reload, request by request. *)
Fixpoint reloads (l : Limiter) (cs : list (Z * Request)) (cache : requestPattern)
  : list bool :=
  match cs with
  | [] => []
  | (now, c) :: cs' =>
      let '(_, cache', reload) := limited l now c cache in
      reload :: reloads l cs' cache'
  end.

(** The rows that the loop of [loadRequestPattern] reads: those before the
    first row that does not scan. *)
Fixpoint scanned (rows : list row) : list (string * string * Z) :=
  match rows with
  | Some r :: rest => r :: scanned rest
  | _ => []
  end.

(** The counts of the rows that fall under the pattern [key], in order,
    and the counts of all rows. *)
Definition counts_for (paths : gset string) (key : string)
    (rows : list (string * string * Z)) : list Z :=
  omap (fun r : string * string * Z =>
          let '(ip, path, n) := r in
          if String.eqb (pattern_of paths ip path) key then Some n else None) rows.

Definition counts (rows : list (string * string * Z)) : list Z :=
  map (fun r : string * string * Z => r.2) rows.

Definition total (ns : list Z) : Z := foldr Z.add 0 ns.

End Middleware.

(* ===================================================================== *)
(** * The model on known values *)
(* ===================================================================== *)

Section Conformance.

(** The test vectors of FIPS 180-4 for the empty message and for "abc". *)
Example Sum256_empty :
  Sha256.EncodeToString (Sha256.Sum256 "") =
  "e3b0c44298fc1c149afbf4c8996fb92427ae41e4649b934ca495991b7852b855".
Proof. vm_compute. reflexivity. Qed.

Example Sum256_abc :
  Sha256.EncodeToString (Sha256.Sum256 "abc") =
  "ba7816bf8f01cfea414140de5dae2223b00361a396177a9cb410ff61f20015ad".
Proof. vm_compute. reflexivity. Qed.

(** [filepath.Clean], [filepath.Join] and [filepath.Base] on the cases of
    their documentation. *)
Example Clean_examples :
  Filepath.Clean "a//b/./c/.." = "a/b" /\
  Filepath.Clean "../a/../.." = "../.." /\
  Filepath.Clean "/../a" = "/a" /\
  Filepath.Clean "" = ".".
Proof. vm_compute. repeat split; reflexivity. Qed.

Example Join_example :
  Filepath.Join [".cache"; "thumbs"; "w300/"; "ab"; "x.png"] = ".cache/thumbs/w300/ab/x.png".
Proof. vm_compute. reflexivity. Qed.

Example Base_examples :
  Filepath.Base "photos/0199a1b2.png" = "0199a1b2.png" /\
  Filepath.Base "a/b/" = "b" /\
  Filepath.Base "" = ".".
Proof. vm_compute. repeat split; reflexivity. Qed.

Example cache_path_examples :
  Localcache.PhotoPath "photos/0199a1b2.png" = ".cache/photos/dc/0199a1b2.png" /\
  Localcache.ThumbPath "photos/0199a1b2.png" "w300" = ".cache/thumbs/w300/dc/0199a1b2.png".
Proof. vm_compute. split; reflexivity. Qed.

Example parseSpec_examples :
  Handlers.parseSpec "w300" = inr 300 /\
  Handlers.parseSpec "w0" = inl "width out of range" /\
  Handlers.parseSpec "w4097" = inl "width out of range" /\
  Handlers.parseSpec "w" = inl "missing width" /\
  Handlers.parseSpec "w3x" = inl "invalid width" /\
  Handlers.parseSpec "300" = inl "invalid thumbnail spec".
Proof. vm_compute. repeat split; reflexivity. Qed.

(** One tenth in binary64 is [0x1.999999999999ap-4]. *)
Example float64_tenth :
  Float64.div (Float64.of_int 1) (Float64.of_int 10) =
  S754_finite false 7205759403792794 (-56).
Proof. vm_compute. reflexivity. Qed.

Example float64_to_int_truncates :
  Float64.to_int (Float64.div (Float64.of_int 7) (Float64.of_int 2)) = 3.
Proof. vm_compute. reflexivity. Qed.

(** [strings.TrimSpace] cuts the white space of Unicode, U+00A0 and U+3000
    among it, and leaves a byte that is no character of its own. *)
Example TrimSpace_examples :
  let nbsp := String (ascii_of_N 194) (String (ascii_of_N 160) "") in
  let wide := String (ascii_of_N 227) (String (ascii_of_N 128) (String (ascii_of_N 128) "")) in
  let stray := String (ascii_of_N 160) "" in
  Utf8.TrimSpace "  small " = "small" /\
  Utf8.TrimSpace (nbsp +:+ "small" +:+ wide) = "small" /\
  Utf8.TrimSpace ("small" +:+ stray) = "small" +:+ stray.
Proof. vm_compute. repeat split; reflexivity. Qed.

(** The selector of [GetPhoto] on the sample environment. *)
Example targetWidthOf_examples :
  let env := Demo.env None Demo.store_down no_faults in
  Handlers.targetWidthOf env " Small " = 100 /\
  Handlers.targetWidthOf env "LARGE" = 1200 /\
  Handlers.targetWidthOf env "original" = 0 /\
  Handlers.targetWidthOf env "" = 300 /\
  Handlers.targetWidthOf env "huge" = 300.
Proof. vm_compute. repeat split; reflexivity. Qed.

End Conformance.
(* ===================================================================== *)
(** * Properties *)
(* ===================================================================== *)

(** ** Strings *)

Section StringFacts.

Lemma str_app_cons (c : ascii) (s t : string) : String c s +:+ t = String c (s +:+ t).
Proof. reflexivity. Qed.

Lemma str_app_nil_l (t : string) : "" +:+ t = t.
Proof. reflexivity. Qed.

Lemma str_length_app (s t : string) :
  String.length (s +:+ t) = (String.length s + String.length t)%nat.
Proof.
  induction s as [|c s IH]; [reflexivity |].
  rewrite !str_app_cons; simpl; f_equal; exact IH.
Qed.

Lemma str_app_nil_r (s : string) : s +:+ "" = s.
Proof.
  induction s as [|c s IH]; [reflexivity |].
  rewrite !str_app_cons; simpl; f_equal; exact IH.
Qed.

Lemma str_app_assoc (s t u : string) : (s +:+ t) +:+ u = s +:+ (t +:+ u).
Proof.
  induction s as [|c s IH]; [reflexivity |].
  rewrite !str_app_cons; simpl; f_equal; exact IH.
Qed.

Lemma str_app_ne_self (s t : string) : t <> "" -> s +:+ t <> s.
Proof.
  intros Ht H. apply (f_equal String.length) in H.
  rewrite str_length_app in H. destruct t; [congruence | simpl in H; lia].
Qed.

Lemma str_app_cancel_r (s1 s2 t : string) : s1 +:+ t = s2 +:+ t -> s1 = s2.
Proof.
  revert s2. induction s1 as [|c s1 IH]; intros [|c2 s2] H;
    rewrite ?str_app_cons, ?str_app_nil_l in H.
  - reflexivity.
  - exfalso. apply (f_equal String.length) in H. simpl in H.
    rewrite str_length_app in H. lia.
  - exfalso. apply (f_equal String.length) in H. simpl in H.
    rewrite str_length_app in H. lia.
  - injection H as -> H. f_equal. now apply IH.
Qed.

End StringFacts.

(** ** The local cache: [Save] *)

Section SaveFacts.

Import Localcache.

Lemma tmp_name_ne_path (path : string) (pid : Z) : tmp_name path pid <> path.
Proof. unfold tmp_name. apply str_app_ne_self. discriminate. Qed.

(** Distinct processes write distinct temporary files. *)
Lemma tmp_name_inj_pid (path : string) (pid1 pid2 : Z) :
  tmp_name path pid1 = tmp_name path pid2 -> pid1 = pid2.
Proof.
  unfold tmp_name, GoInt.Itoa. intros H.
  apply String.app_inj in H. apply (String.app_inj ".tmp-") in H.
  now apply pretty_Z_inj in H.
Qed.

Ltac save_cases :=
  unfold Save, MkdirAll, Create, Copy, Close, Rename, Remove;
  repeat (case_match; simplify_eq/=); intros; simplify_eq/=.

(** A successful [Save] puts exactly the bytes of the reader at [path] and
    leaves no temporary file. *)
Lemma Save_ok pid fl path r d d' :
  Save pid fl path r d = (d', None) ->
  d' !! path = Some (rd_data r) /\ d' !! tmp_name path pid = None /\ rd_err r = false.
Proof.
  pose proof (tmp_name_ne_path path pid) as Hne.
  save_cases;
    match goal with H : _ !! _ = Some _ |- _ => rewrite lookup_insert_eq in H end;
    simplify_eq/=;
    rewrite lookup_insert_eq, lookup_insert_ne, lookup_delete_eq by done; done.
Qed.

(** Without faults [Save] succeeds for every reader that does. *)
Lemma Save_no_faults pid path data d :
  exists d', Save pid no_faults path (bytes_reader data) d = (d', None).
Proof.
  unfold Save, MkdirAll, Create, Copy, Close, Rename, no_faults; simpl.
  rewrite lookup_insert_eq. eauto.
Qed.

(** Files other than the destination and the temporary file are never
    touched. *)
Lemma Save_frame pid fl path r d d' res other :
  Save pid fl path r d = (d', res) ->
  other <> path -> other <> tmp_name path pid ->
  d' !! other = d !! other.
Proof.
  intros H Hp Ht. revert H.
  save_cases;
    rewrite ?lookup_delete_ne, ?lookup_insert_ne, ?lookup_delete_ne, ?lookup_insert_ne
      by done; done.
Qed.

End SaveFacts.

(** ** Cache paths *)

Section PathFacts.

Import Filepath Localcache.

Lemma nosep_cons c s : nosep (String c s) = negb (is_sep c) && nosep s.
Proof. unfold nosep. simpl. now rewrite negb_orb. Qed.

Lemma split_nosep s : nosep s = true -> split s = [s].
Proof.
  induction s as [|c s IH]; [reflexivity |].
  rewrite nosep_cons. intros [Hc Hs]%andb_prop. simpl.
  apply negb_true_iff in Hc. rewrite Hc, (IH Hs). reflexivity.
Qed.

Lemma split_app_sep s rest :
  nosep s = true -> split (s +:+ String "/" rest) = s :: split rest.
Proof.
  induction s as [|c s IH]; [reflexivity |].
  rewrite nosep_cons. intros [Hc Hs]%andb_prop.
  rewrite str_app_cons. simpl.
  apply negb_true_iff in Hc. rewrite Hc, (IH Hs). reflexivity.
Qed.

Lemma is_segment_spec s :
  is_segment s = true <-> nosep s = true /\ s <> "" /\ s <> "." /\ s <> "..".
Proof.
  unfold is_segment. rewrite !andb_true_iff, !negb_true_iff, !String.eqb_neq. tauto.
Qed.

Lemma clean_step_segment root stack s :
  is_segment s = true -> clean_step root stack s = s :: stack.
Proof.
  rewrite is_segment_spec. intros (_ & H1 & H2 & H3).
  apply String.eqb_neq in H1, H2, H3.
  unfold clean_step. now rewrite H1, H2, H3.
Qed.

Lemma clean_step_dotdot root top below :
  is_segment top = true -> clean_step root (top :: below) ".." = below.
Proof.
  rewrite is_segment_spec. intros (_ & _ & _ & H3).
  apply String.eqb_neq in H3. unfold clean_step. simpl. now rewrite H3.
Qed.

Lemma segment_not_rooted s rest : is_segment s = true -> rooted (s +:+ rest) = false.
Proof.
  rewrite is_segment_spec. intros (Hn & H1 & _).
  destruct s as [|c s]; [congruence |].
  rewrite nosep_cons in Hn. apply andb_prop in Hn as [Hc _].
  now apply negb_true_iff in Hc.
Qed.

(** *** The hexadecimal digest *)

Lemma hexdigit_cases n :
  In (Sha256.hexdigit n) (list_ascii_of_string "0123456789abcdef").
Proof.
  unfold Sha256.hexdigit.
  destruct (nth_in_or_default (Z.to_nat (n mod 16))
              (list_ascii_of_string "0123456789abcdef") "0"%char) as [H | H].
  - exact H.
  - rewrite H. simpl. auto.
Qed.

Lemma hexdigit_not_sep n : is_sep (Sha256.hexdigit n) = false.
Proof.
  pose proof (hexdigit_cases n) as H. simpl in H.
  repeat (destruct H as [<- | H]; [reflexivity |]). destruct H.
Qed.

Lemma hexdigit_not_dot n : Sha256.hexdigit n <> "."%char.
Proof.
  pose proof (hexdigit_cases n) as H. simpl in H.
  repeat (destruct H as [<- | H]; [discriminate |]). destruct H.
Qed.

Lemma EncodeToString_nosep bs : nosep (Sha256.EncodeToString bs) = true.
Proof.
  induction bs as [|b bs IH]; [reflexivity |].
  simpl. rewrite !nosep_cons, !hexdigit_not_sep, IH. reflexivity.
Qed.

Lemma EncodeToString_length bs :
  String.length (Sha256.EncodeToString bs) = (2 * length bs)%nat.
Proof. induction bs as [|b bs IH]; simpl; [reflexivity | rewrite IH; lia]. Qed.

Lemma state_bytes_length st : length (Sha256.state_bytes st) = 32%nat.
Proof. reflexivity. Qed.

Lemma hexsum_length k : String.length (hexsum k) = 64%nat.
Proof. unfold hexsum, Sha256.Sum256. now rewrite EncodeToString_length, state_bytes_length. Qed.

Lemma hexsum_segment k : is_segment (hexsum k) = true.
Proof.
  apply is_segment_spec. split; [apply EncodeToString_nosep |].
  pose proof (hexsum_length k) as H.
  repeat split; intros E; rewrite E in H; discriminate.
Qed.

Lemma shard_shape k :
  exists b, substring 0 2 (hexsum k) =
            String (Sha256.hexdigit (b / 16)) (String (Sha256.hexdigit b) "").
Proof.
  unfold hexsum, Sha256.Sum256.
  pose proof (state_bytes_length (Sha256.digest (Sha256.string_bytes k))) as H.
  destruct (Sha256.state_bytes _) as [|b bs]; [discriminate |].
  exists b. simpl. now destruct (Sha256.EncodeToString bs).
Qed.

Lemma shard_segment k : is_segment (substring 0 2 (hexsum k)) = true.
Proof.
  destruct (shard_shape k) as [b ->].
  apply is_segment_spec. rewrite !nosep_cons, !hexdigit_not_sep.
  repeat split; try discriminate.
  intros E. injection E as E _. now apply hexdigit_not_dot in E.
Qed.

(** *** [filepath.Base] *)

Lemma last_elem_nosep s : nosep (last_elem s) = true.
Proof.
  induction s as [|c s IH]; [reflexivity |].
  simpl. destruct (existsb is_sep (list_ascii_of_string s)) eqn:E; [exact IH |].
  destruct (is_sep c) eqn:Ec.
  - unfold nosep. now rewrite E.
  - rewrite nosep_cons, Ec. unfold nosep. now rewrite E.
Qed.

(** The file name of a cache entry is a plain path element or "..". *)
Lemma filename_cases k : is_segment (filename k) = true \/ filename k = "..".
Proof.
  unfold filename.
  destruct (String.eqb (Base k) "." || String.eqb (Base k) "/" || String.eqb (Base k) "")
    eqn:E.
  - left. apply hexsum_segment.
  - apply orb_false_elim in E as [E E3]. apply orb_false_elim in E as [E1 E2].
    apply String.eqb_neq in E1, E2, E3.
    destruct (String.eqb (Base k) "..") eqn:E4.
    + right. now apply String.eqb_eq.
    + left. apply String.eqb_neq in E4. apply is_segment_spec.
      repeat split; try assumption.
      revert E2. unfold Base. destruct (String.eqb k ""); [reflexivity |].
      destruct (String.eqb (last_elem (strip_trailing k)) ""); [congruence |].
      intros _. apply last_elem_nosep.
Qed.

(** *** The paths in closed form *)

Lemma split_concat l :
  Forall (fun s => nosep s = true) l -> l <> [] -> split (String.concat "/" l) = l.
Proof.
  induction 1 as [|s l Hs Hl IH]; [congruence |]. intros _.
  destruct l as [|t l].
  - simpl. now apply split_nosep.
  - cbn [String.concat]. change (String.app "/") with (String "/").
    rewrite split_app_sep by assumption. f_equal. now apply IH.
Qed.

Lemma fold_clean_segments root l stack :
  Forall (fun s => is_segment s = true) l ->
  fold_left (clean_step root) l stack = (rev l ++ stack)%list.
Proof.
  intros H. revert stack. induction H as [|s l Hs Hl IH]; intros stack; [reflexivity |].
  cbn [fold_left rev]. rewrite clean_step_segment by assumption.
  rewrite IH, <- app_assoc. reflexivity.
Qed.

Lemma segment_nosep s : is_segment s = true -> nosep s = true.
Proof. now intros (H & _)%is_segment_spec. Qed.

Lemma concat_nonempty s l : s <> "" -> String.eqb (String.concat "/" (s :: l)) "" = false.
Proof.
  intros Hs. apply String.eqb_neq. destruct s as [|c s]; [congruence |].
  destruct l; cbn [String.concat]; [discriminate |]. rewrite str_app_cons. discriminate.
Qed.

Lemma concat_rooted s l : is_segment s = true -> rooted (String.concat "/" (s :: l)) = false.
Proof.
  intros Hs. destruct l; cbn [String.concat].
  - rewrite <- (str_app_nil_r s). now apply segment_not_rooted.
  - now apply segment_not_rooted.
Qed.

(** A path of plain elements is clean already. *)
Lemma Clean_segments s l :
  Forall (fun s => is_segment s = true) (s :: l) ->
  Clean (String.concat "/" (s :: l)) = String.concat "/" (s :: l).
Proof.
  intros H. pose proof (Forall_inv H) as Hs. unfold Clean.
  rewrite concat_rooted by assumption.
  rewrite split_concat; [| eapply Forall_impl; [exact H |]; apply segment_nosep | discriminate].
  rewrite fold_clean_segments, app_nil_r, rev_involutive by assumption.
  rewrite concat_nonempty; [reflexivity |].
  apply is_segment_spec in Hs. tauto.
Qed.

(** A final ".." takes the element before it away. *)
Lemma Clean_segments_dotdot s t l :
  Forall (fun s => is_segment s = true) (s :: l ++ [t])%list ->
  Clean (String.concat "/" ((s :: l ++ [t]) ++ [".."])%list) = String.concat "/" (s :: l).
Proof.
  intros H. pose proof (Forall_inv H) as Hs. unfold Clean.
  change ((s :: l ++ [t]) ++ [".."])%list with (s :: (l ++ [t]) ++ [".."])%list.
  rewrite concat_rooted by assumption.
  rewrite split_concat; [| | discriminate].
  2:{ change (s :: (l ++ [t]) ++ [".."])%list with ((s :: l ++ [t]) ++ [".."])%list.
      apply Forall_app. split; [| repeat constructor].
      eapply Forall_impl; [exact H |]. apply segment_nosep. }
  change (s :: (l ++ [t]) ++ [".."])%list with ((s :: l ++ [t]) ++ [".."])%list.
  rewrite fold_left_app, (fold_clean_segments _ (s :: l ++ [t])%list), app_nil_r
    by assumption.
  cbn [fold_left]. change (s :: l ++ [t])%list with ((s :: l) ++ [t])%list.
  rewrite rev_app_distr. cbn [rev app].
  rewrite clean_step_dotdot.
  2:{ change (s :: l ++ [t])%list with ((s :: l) ++ [t])%list in H.
      apply Forall_app in H as [_ Ht]. now apply Forall_inv in Ht. }
  change (rev l ++ [s])%list with (rev (s :: l)). rewrite rev_involutive.
  rewrite concat_nonempty; [reflexivity |].
  apply is_segment_spec in Hs. tauto.
Qed.

Lemma Dir_segment : is_segment Dir = true.
Proof. reflexivity. Qed.

(** The thumbnail path of a plain spec, in closed form. *)
Lemma ThumbPath_closed k spec :
  is_segment spec = true ->
  ThumbPath k spec =
    (if String.eqb (filename k) ".."
     then ".cache/thumbs/" +:+ spec
     else ".cache/thumbs/" +:+ spec +:+ "/" +:+ substring 0 2 (hexsum k)
            +:+ "/" +:+ filename k).
Proof.
  intros Hspec. unfold ThumbPath. cbn [Join String.eqb Dir Ascii.eqb].
  pose proof (shard_segment k) as Hsh.
  destruct (filename_cases k) as [Hf | Hf].
  - assert (String.eqb (filename k) ".." = false) as ->.
    { apply String.eqb_neq. apply is_segment_spec in Hf. tauto. }
    rewrite Clean_segments by (repeat constructor; assumption).
    reflexivity.
  - rewrite Hf. cbn [String.eqb Ascii.eqb Bool.eqb].
    change (Clean (String.concat "/"
              ((Dir :: ["thumbs"; spec] ++ [substring 0 2 (hexsum k)]) ++ [".."])%list)
            = ".cache/thumbs/" +:+ spec).
    rewrite Clean_segments_dotdot by (repeat constructor; assumption).
    reflexivity.
Qed.

(** The path of an original, in closed form. *)
Lemma PhotoPath_closed k :
  PhotoPath k =
    (if String.eqb (filename k) ".."
     then ".cache/photos"
     else ".cache/photos/" +:+ substring 0 2 (hexsum k) +:+ "/" +:+ filename k).
Proof.
  unfold PhotoPath. cbn [Join String.eqb Dir Ascii.eqb].
  pose proof (shard_segment k) as Hsh.
  destruct (filename_cases k) as [Hf | Hf].
  - assert (String.eqb (filename k) ".." = false) as ->.
    { apply String.eqb_neq. apply is_segment_spec in Hf. tauto. }
    rewrite Clean_segments by (repeat constructor; assumption).
    reflexivity.
  - rewrite Hf. cbn [String.eqb Ascii.eqb Bool.eqb].
    change (Clean (String.concat "/"
              ((Dir :: ["photos"] ++ [substring 0 2 (hexsum k)]) ++ [".."])%list)
            = ".cache/photos").
    rewrite Clean_segments_dotdot by (repeat constructor; assumption).
    reflexivity.
Qed.

(** Thumbnail paths of distinct plain specs differ. *)
Lemma ThumbPath_inj_spec k s1 s2 :
  is_segment s1 = true -> is_segment s2 = true ->
  ThumbPath k s1 = ThumbPath k s2 -> s1 = s2.
Proof.
  intros H1 H2. rewrite !ThumbPath_closed by assumption.
  destruct (String.eqb (filename k) "..").
  - intros H. now apply String.app_inj in H.
  - intros H. apply String.app_inj in H. now apply str_app_cancel_r in H.
Qed.

(** A thumbnail path is never the path of an original. *)
Lemma ThumbPath_ne_PhotoPath k k' spec :
  is_segment spec = true -> ThumbPath k spec <> PhotoPath k'.
Proof.
  intros H. rewrite ThumbPath_closed, PhotoPath_closed by assumption.
  destruct (String.eqb (filename k) ".."), (String.eqb (filename k') "..");
    rewrite ?str_app_cons; try discriminate.
  all: intros E; repeat (injection E as _ E); try discriminate.
  all: destruct spec; discriminate.
Qed.

End PathFacts.

(** ** 64-bit arithmetic and the width of a thumbnail spec *)

Section ParseFacts.

Import Handlers.

Lemma wrap_small z : GoInt.min_int <= z <= GoInt.max_int -> GoInt.wrap z = z.
Proof.
  unfold GoInt.wrap, GoInt.min_int, GoInt.max_int. intros H.
  rewrite Z.mod_small by lia. lia.
Qed.

Lemma wrap_range z : GoInt.min_int <= GoInt.wrap z <= GoInt.max_int.
Proof.
  unfold GoInt.wrap, GoInt.min_int, GoInt.max_int.
  pose proof (Z.mod_pos_bound (z + 2 ^ 63) (2 ^ 64) ltac:(lia)). lia.
Qed.

(** [wrap] only depends on the residue modulo 2^64. *)
Lemma wrap_congr a b : a mod 2 ^ 64 = b mod 2 ^ 64 -> GoInt.wrap a = GoInt.wrap b.
Proof.
  unfold GoInt.wrap. intros H.
  rewrite (Z.add_mod a), (Z.add_mod b), H by lia. reflexivity.
Qed.

Lemma wrap_mod z : GoInt.wrap z mod 2 ^ 64 = z mod 2 ^ 64.
Proof.
  unfold GoInt.wrap.
  rewrite <- (Z.add_opp_r _ (2 ^ 63)), Z.add_mod, Z.mod_mod, <- Z.add_mod by lia.
  f_equal. lia.
Qed.

Lemma wrap_add_mul a d : GoInt.add (GoInt.mul (GoInt.wrap a) 10) d = GoInt.wrap (a * 10 + d).
Proof.
  unfold GoInt.add, GoInt.mul. apply wrap_congr.
  rewrite Z.add_mod, wrap_mod, (Z.mul_mod (GoInt.wrap a)), wrap_mod by lia.
  rewrite <- Z.mul_mod, <- Z.add_mod by lia. reflexivity.
Qed.

Lemma atoi_from_wrap acc s :
  atoi_from (GoInt.wrap acc) s = GoInt.wrap (decimal_from acc s).
Proof.
  revert acc. induction s as [|c s IH]; intros acc; [reflexivity |].
  cbn [atoi_from decimal_from]. rewrite wrap_add_mul. apply IH.
Qed.

(** The loop computes the decimal value of the digits, wrapped to 64 bits. *)
Lemma atoi_from_decimal s : atoi_from 0 s = GoInt.wrap (decimal_from 0 s).
Proof. exact (atoi_from_wrap 0 s). Qed.

Lemma substring_all s : substring 0 (String.length s) s = s.
Proof. induction s as [|c s IH]; simpl; [reflexivity | now rewrite IH]. Qed.

Lemma HasPrefix_w spec : Strings.HasPrefix spec "w" = true -> exists ws, spec = String "w" ws.
Proof.
  destruct spec as [|c ws]; [discriminate |]. cbn [Strings.HasPrefix].
  rewrite andb_true_r. intros H%Ascii.eqb_eq. subst. eauto.
Qed.

Lemma TrimPrefix_w ws : Strings.TrimPrefix (String "w" ws) "w" = ws.
Proof.
  unfold Strings.TrimPrefix. simpl.
  rewrite Nat.sub_0_r. destruct ws; [reflexivity |]. apply substring_all.
Qed.

(** What [parseSpec] accepts: "w", then digits whose value, wrapped to 64
    bits, lies in 1..4096. *)
Lemma parseSpec_accepts spec width :
  parseSpec spec = inr width <->
  exists ws, spec = String "w" ws /\ ws <> "" /\ all_digits ws = true /\
             width = GoInt.wrap (decimal_from 0 ws) /\ 1 <= width <= 4096.
Proof.
  unfold parseSpec. split.
  - destruct (String.eqb spec "") eqn:E1; cbn [orb]; [discriminate |].
    destruct (Strings.HasPrefix spec "w") eqn:E2; cbn [negb]; [| discriminate].
    apply HasPrefix_w in E2 as [ws ->]. rewrite TrimPrefix_w.
    destruct (String.eqb ws "") eqn:E3; [discriminate |].
    destruct (all_digits ws) eqn:E4; cbn [negb]; [| discriminate].
    destruct ((atoi_from 0 ws <=? 0) || (4096 <? atoi_from 0 ws)) eqn:E5; [discriminate |].
    intros [= <-]. exists ws. apply String.eqb_neq in E3.
    apply orb_false_elim in E5 as [E5 E6].
    rewrite <- atoi_from_decimal. repeat split; try assumption; lia.
  - intros (ws & -> & Hne & Hd & -> & Hr).
    change (String.eqb (String "w" ws) "") with false.
    change (Strings.HasPrefix (String "w" ws) "w") with true. cbn [orb negb].
    rewrite TrimPrefix_w. apply String.eqb_neq in Hne. rewrite Hne, Hd. cbn [negb].
    rewrite atoi_from_decimal.
    destruct (_ <=? 0) eqn:E5; [lia |]. destruct (4096 <? _) eqn:E6; [lia |]. reflexivity.
Qed.

Lemma is_digit_not_sep c : is_digit c = true -> Filepath.is_sep c = false.
Proof.
  unfold is_digit, Filepath.is_sep. intros H.
  apply Ascii.eqb_neq. intros ->. discriminate.
Qed.

Lemma all_digits_nosep ws : all_digits ws = true -> Filepath.nosep ws = true.
Proof.
  induction ws as [|c ws IH]; [reflexivity |].
  simpl. intros [Hc Hs]%andb_prop.
  rewrite nosep_cons, (is_digit_not_sep c Hc), (IH Hs). reflexivity.
Qed.

(** Every spec the thumbnail handler accepts is a plain path element. *)
Lemma parseSpec_segment spec width :
  parseSpec spec = inr width -> Filepath.is_segment spec = true.
Proof.
  intros (ws & -> & Hne & Hd & _)%parseSpec_accepts.
  apply is_segment_spec. rewrite nosep_cons, (all_digits_nosep ws Hd).
  repeat split; discriminate.
Qed.

(** The widths [GetPhoto] chooses from. *)
Lemma targetWidthOf_cases env thumbnail :
  targetWidthOf env thumbnail = 300 \/ targetWidthOf env thumbnail = 100 \/
  targetWidthOf env thumbnail = 1200 \/ targetWidthOf env thumbnail = 0.
Proof.
  unfold targetWidthOf.
  repeat match goal with |- context [if ?b then _ else _] => destruct b end; auto.
Qed.

(** Every spec the handlers pass to [ThumbPath] is one plain path element. *)
Lemma spec_in_use_segment spec : spec_in_use spec -> Filepath.is_segment spec = true.
Proof.
  intros [[width H] | (env & thumbnail & Hpos & ->)].
  - eapply parseSpec_segment. exact H.
  - destruct (targetWidthOf_cases env thumbnail) as [H | [H | [H | H]]];
      rewrite H in Hpos |- *; try lia; reflexivity.
Qed.

End ParseFacts.

(** ** Claims about the local cache *)

Section LocalcacheClaims.

Import Localcache.




(** C9 on the code: the temporary name depends on the path and the process
    id only, so two writers of one process share it. Writer A creates the
    temporary file and writes its four bytes; writer B, in the same process
    and saving to the same path, creates "its" temporary file, which empties
    A's; A renames. The destination now holds the empty file B has yet to
    write: neither A's bytes nor B's. *)
Theorem Save_same_process_shares_tmp :
  let path := ".cache/thumbs/w300/dc/0199a1b2.png" in
  let tmpA := tmp_name path 4242 in
  let tmpB := tmp_name path 4242 in
  let a := bytes_reader [x41; x41; x41; x41] in
  tmpA = tmpB /\
  run_calls [ Create no_faults tmpA; Copy no_faults tmpA a;
              Create no_faults tmpB;
              Rename no_faults tmpA path ] ∅ !! path = Some [].
Proof. split; [reflexivity | vm_compute; reflexivity]. Qed.

(** C8. The cache path is a function of the object key and the size spec:
    the same key and spec give the same path. For one object key, the
    thumbnail paths of two different specs differ, and the thumbnail path
    of a spec is not the path of an original, of this key or of another.
    The specs are those the handlers pass to [ThumbPath]: a spec that
    [GetPhotoThumbnail] has accepted (line 345, after the checks of lines
    321 to 337), or "w" and the width [GetPhoto] has chosen (line 191). *)
Theorem cache_paths_do_not_collide k k' s1 s2 :
  Handlers.spec_in_use s1 -> Handlers.spec_in_use s2 ->
  (s1 = s2 -> ThumbPath k s1 = ThumbPath k s2) /\
  (s1 <> s2 -> ThumbPath k s1 <> ThumbPath k s2) /\
  ThumbPath k s1 <> PhotoPath k'.
Proof.
  intros H1%spec_in_use_segment H2%spec_in_use_segment. split; [| split].
  - now intros ->.
  - intros Hne E. apply Hne. eapply ThumbPath_inj_spec; eassumption.
  - now apply ThumbPath_ne_PhotoPath.
Qed.

Lemma cache_paths_do_not_collide_witness :
  ThumbPath "photos/0199a1b2.png" "w300" <> ThumbPath "photos/0199a1b2.png" "w1200" /\
  ThumbPath "photos/0199a1b2.png" "w300" <> PhotoPath "photos/0199a1b2.png".
Proof.
  destruct (cache_paths_do_not_collide "photos/0199a1b2.png" "photos/0199a1b2.png"
              "w300" "w1200") as (_ & H2 & H3).
  - left. exists 300. vm_compute. reflexivity.
  - left. exists 1200. vm_compute. reflexivity.
  - split; [apply H2; discriminate | exact H3].
Defined.

(** [ThumbPath] itself joins whatever string it is given, and
    [filepath.Join] cleans the result: for strings that are no size specs,
    and that no handler passes, a trailing separator is cleaned away and
    ".." leads from the thumbnails to the originals. *)
Lemma ThumbPath_collisions :
  ThumbPath "photos/0199a1b2.png" "w300" = ThumbPath "photos/0199a1b2.png" "w300/" /\
  ThumbPath "photos/0199a1b2.png" "../photos" = PhotoPath "photos/0199a1b2.png".
Proof. split; vm_compute; reflexivity. Qed.

End LocalcacheClaims.

(** ** Readers *)

Section TakeFacts.

Context {A : Type}.

Lemma shorter_spec (l : list A) n : shorter l n = true <-> Z.of_nat (length l) < n.
Proof.
  revert n. induction l as [|x l IH]; intros n; cbn [shorter length].
  - rewrite Z.ltb_lt. reflexivity.
  - destruct (n <=? 0) eqn:E.
    + split; [discriminate | lia].
    + rewrite IH. lia.
Qed.

Lemma shorter_false (l : list A) n : shorter l n = false <-> n <= Z.of_nat (length l).
Proof.
  destruct (shorter l n) eqn:E.
  - apply shorter_spec in E. split; [discriminate | lia].
  - split; [intros _ | reflexivity].
    destruct (Z.le_gt_cases n (Z.of_nat (length l))) as [H | H]; [exact H |].
    apply shorter_spec in H. congruence.
Qed.

Lemma takeZ_length (l : list A) n :
  0 <= n -> Z.of_nat (length (takeZ l n)) = Z.min n (Z.of_nat (length l)).
Proof.
  revert n. induction l as [|x l IH]; intros n Hn; cbn [takeZ length].
  - lia.
  - destruct (n <=? 0) eqn:E; cbn [length]; [lia |].
    rewrite Nat2Z.inj_succ, IH by lia. lia.
Qed.

Lemma takeZ_all (l : list A) n : Z.of_nat (length l) <= n -> takeZ l n = l.
Proof.
  revert n. induction l as [|x l IH]; intros n Hn; cbn [takeZ length] in *; [reflexivity |].
  destruct (n <=? 0) eqn:E; [lia |]. f_equal. apply IH. lia.
Qed.

Lemma takeZ_app (l1 l2 : list A) n :
  Z.of_nat (length l1) = n -> takeZ (l1 ++ l2) n = l1.
Proof.
  revert n. induction l1 as [|x l1 IH]; intros n Hn; cbn [length] in Hn.
  - subst n. destruct l2; reflexivity.
  - cbn [app takeZ]. destruct (n <=? 0) eqn:E; [lia |]. f_equal. apply IH. lia.
Qed.

End TakeFacts.

Section ReaderFacts.

(** What [io.ReadAll(io.LimitReader(r, n))] returns is never longer than [n]. *)
Lemma ReadAll_LimitReader_length (r : reader) n data :
  0 <= n -> ReadAll (LimitReader r n) = Some data -> Z.of_nat (length data) <= n.
Proof.
  unfold ReadAll, LimitReader. intros Hn.
  destruct (shorter (rd_data r) n) eqn:E.
  - destruct (rd_err r); [discriminate |]. intros [= <-].
    apply shorter_spec in E. lia.
  - cbn [rd_err rd_data]. intros [= <-]. rewrite takeZ_length by assumption. lia.
Qed.

(** It is the first [n] bytes of the reader. *)
Lemma ReadAll_LimitReader_prefix (r : reader) n data :
  ReadAll (LimitReader r n) = Some data -> data = takeZ (rd_data r) n.
Proof.
  unfold ReadAll, LimitReader.
  destruct (shorter (rd_data r) n) eqn:E.
  - destruct (rd_err r); [discriminate |]. intros [= <-].
    apply shorter_spec in E. symmetry. apply takeZ_all. lia.
  - cbn [rd_err rd_data]. now intros [= <-].
Qed.

(** A reader that holds [n] bytes or more is cut at [n] bytes, without error. *)
Lemma ReadAll_LimitReader_long (r : reader) n :
  n <= Z.of_nat (length (rd_data r)) ->
  ReadAll (LimitReader r n) = Some (takeZ (rd_data r) n).
Proof.
  intros H. apply shorter_false in H. unfold ReadAll, LimitReader. now rewrite H.
Qed.

End ReaderFacts.

(** ** Claims about the storage layer *)

Section StorageClaims.

Import Storage.

(** C4 on the code. The reader handed to the store is limited to the
    ceiling plus one byte, and the limit ends the stream without an error:
    an upload whose body is longer than the ceiling succeeds, and the object
    stored is the first [maxBytes + 1] bytes of the body. *)
Theorem Upload_oversized_is_cut_and_stored u be key r contentType objs :
  client u = true -> key <> "" -> be_put_err be = false ->
  0 <= maxBytes u < GoInt.max_int ->
  maxBytes u < Z.of_nat (length (rd_data r)) ->
  exists url,
    Upload (Some u) be key r contentType objs =
      (<[key := (takeZ (rd_data r) (maxBytes u + 1), contentType)]> objs, inr (url, key)) /\
    Z.of_nat (length (takeZ (rd_data r) (maxBytes u + 1))) = maxBytes u + 1.
Proof.
  intros Hc Hk Hput Hmax Hlen. unfold Upload.
  rewrite Hc. cbn [negb]. apply String.eqb_neq in Hk. rewrite Hk.
  unfold GoInt.add. rewrite wrap_small by (unfold GoInt.min_int, GoInt.max_int in *; lia).
  rewrite ReadAll_LimitReader_long by lia. rewrite Hput.
  eexists. split; [reflexivity |]. rewrite takeZ_length by lia. lia.
Qed.

Lemma Upload_oversized_is_cut_and_stored_witness :
  let u := MkUploader true "bucket" "https://cdn.example/" 4 in
  let body := [x89; x50; x4e; x47; x0d; x0a; x1a] in
  exists url,
    Upload (Some u) (Demo.store_with (bytes_reader [])) "photos/0199ffff.png"
           (bytes_reader body) "image/png" ∅ =
      (<["photos/0199ffff.png" := (takeZ body 5, "image/png")]> ∅,
       inr (url, "photos/0199ffff.png")) /\
    Z.of_nat (length (takeZ body 5)) = 5.
Proof.
  intros u body.
  apply (Upload_oversized_is_cut_and_stored u (Demo.store_with (bytes_reader []))
           "photos/0199ffff.png" (bytes_reader body) "image/png" ∅).
  - reflexivity.
  - discriminate.
  - reflexivity.
  - vm_compute. split; [discriminate | reflexivity].
  - vm_compute. reflexivity.
Defined.

End StorageClaims.

(** ** Binary64 arithmetic *)

Section FloatFacts.

Import Float64 Rounding Image Handlers.

(** *** Digits *)

Lemma digits2_pos_bounds (m : positive) :
  2 ^ (Z.pos (digits2_pos m) - 1) <= Z.pos m < 2 ^ Z.pos (digits2_pos m).
Proof.
  induction m as [m IH | m IH |]; cbn [digits2_pos].
  - rewrite Pos2Z.inj_succ, (Pos2Z.inj_xI m).
    replace (Z.succ (Z.pos (digits2_pos m)) - 1) with (Z.succ (Z.pos (digits2_pos m) - 1))
      by lia.
    rewrite !Z.pow_succ_r by lia.
    revert IH. generalize (2 ^ (Z.pos (digits2_pos m) - 1)) (2 ^ Z.pos (digits2_pos m)).
    intros; lia.
  - rewrite Pos2Z.inj_succ, (Pos2Z.inj_xO m).
    replace (Z.succ (Z.pos (digits2_pos m)) - 1) with (Z.succ (Z.pos (digits2_pos m) - 1))
      by lia.
    rewrite !Z.pow_succ_r by lia.
    revert IH. generalize (2 ^ (Z.pos (digits2_pos m) - 1)) (2 ^ Z.pos (digits2_pos m)).
    intros; lia.
  - simpl. lia.
Qed.

(** The number of binary digits is determined by the power of two below. *)
Lemma digits2_pos_unique (m : positive) (d : Z) :
  2 ^ (d - 1) <= Z.pos m < 2 ^ d -> Z.pos (digits2_pos m) = d.
Proof.
  intros [Hlo Hhi]. pose proof (digits2_pos_bounds m) as [Hlo' Hhi'].
  assert (0 < d).
  { destruct (Z.le_gt_cases d 0) as [Hd | Hd]; [| exact Hd].
    exfalso. assert (2 ^ d <= 2 ^ 0) by (apply Z.pow_le_mono_r; lia).
    simpl in *. lia. }
  destruct (Z.lt_trichotomy (Z.pos (digits2_pos m)) d) as [Hlt | [Heq | Hgt]];
    [exfalso | exact Heq | exfalso].
  - assert (2 ^ Z.pos (digits2_pos m) <= 2 ^ (d - 1)) by (apply Z.pow_le_mono_r; lia). lia.
  - assert (2 ^ d <= 2 ^ (Z.pos (digits2_pos m) - 1)) by (apply Z.pow_le_mono_r; lia). lia.
Qed.

(** *** Shifting right with a sticky bit *)

Lemma loc_of_record_of_loc m l : loc_of_shr_record (shr_record_of_loc m l) = l.
Proof. destruct l as [| []]; reflexivity. Qed.

Lemma shr_m_record_of_loc m l : shr_m (shr_record_of_loc m l) = m.
Proof. destruct l as [| []]; reflexivity. Qed.

Lemma shr_1_ok mrs a b :
  0 <= shr_m mrs -> 0 <= a < b -> loc_ok (loc_of_shr_record mrs) a b ->
  shr_m (shr_1 mrs) = shr_m mrs / 2 /\
  loc_ok (loc_of_shr_record (shr_1 mrs)) ((shr_m mrs mod 2) * b + a) (2 * b).
Proof.
  destruct mrs as [m r s]. cbn [shr_m]. intros Hm Hab Hloc.
  assert (Hcases : (m = 0 \/ m = 1) \/
                   exists p, (m = Z.pos p~1 \/ m = Z.pos p~0)).
  { destruct m as [| [p | p |] | p]; eauto; lia. }
  destruct Hcases as [[-> | ->] | [p [-> | ->]]].
  - change (0 / 2) with 0. change (0 mod 2) with 0.
    destruct r, s; cbn [shr_1 shr_m loc_of_shr_record loc_ok orb] in *;
      (split; [reflexivity | lia]).
  - change (1 / 2) with 0. change (1 mod 2) with 1.
    destruct r, s; cbn [shr_1 shr_m loc_of_shr_record loc_ok orb] in *;
      (split; [reflexivity | lia]).
  - replace (Z.pos p~1 / 2) with (Z.pos p)
      by (apply Z.div_unique with 1; lia).
    replace (Z.pos p~1 mod 2) with 1 by (apply Z.mod_unique with (Z.pos p); lia).
    destruct r, s; cbn [shr_1 shr_m loc_of_shr_record loc_ok orb] in *;
      (split; [reflexivity | lia]).
  - replace (Z.pos p~0 / 2) with (Z.pos p)
      by (apply Z.div_unique with 0; lia).
    replace (Z.pos p~0 mod 2) with 0 by (apply Z.mod_unique with (Z.pos p); lia).
    destruct r, s; cbn [shr_1 shr_m loc_of_shr_record loc_ok orb] in *;
      (split; [reflexivity | lia]).
Qed.

Lemma iter_pos_nat {A : Type} (f : A -> A) p x :
  SpecFloat.iter_pos f p x = Nat.iter (Pos.to_nat p) f x.
Proof.
  revert x. induction p as [p IH | p IH |]; intros x; cbn [SpecFloat.iter_pos].
  - rewrite !IH, Pos2Nat.inj_xI. 
    replace (S (2 * Pos.to_nat p)) with (Pos.to_nat p + (Pos.to_nat p + 1))%nat by lia.
    rewrite !Nat.iter_add. simpl. reflexivity.
  - rewrite !IH, Pos2Nat.inj_xO.
    replace (2 * Pos.to_nat p)%nat with (Pos.to_nat p + Pos.to_nat p)%nat by lia.
    rewrite Nat.iter_add. reflexivity.
  - reflexivity.
Qed.

Lemma shr_iter_ok (n : nat) mrs a b :
  0 <= shr_m mrs -> 0 <= a < b -> loc_ok (loc_of_shr_record mrs) a b ->
  shr_m (Nat.iter n shr_1 mrs) = shr_m mrs / 2 ^ Z.of_nat n /\
  loc_ok (loc_of_shr_record (Nat.iter n shr_1 mrs))
         ((shr_m mrs mod 2 ^ Z.of_nat n) * b + a) (2 ^ Z.of_nat n * b).
Proof.
  intros Hm Hab Hloc. induction n as [| n [IHm IHl]].
  - cbn [Nat.iter]. change (2 ^ Z.of_nat 0) with 1.
    rewrite Z.div_1_r, Z.mod_1_r. split; [reflexivity |].
    replace (0 * b + a) with a by lia. replace (1 * b) with b by lia. exact Hloc.
  - rewrite Nat.iter_succ, Nat2Z.inj_succ, Z.pow_succ_r by lia.
    set (q := 2 ^ Z.of_nat n) in *.
    assert (Hq : 0 < q) by (apply Z.pow_pos_nonneg; lia).
    assert (Hmod : 0 <= shr_m mrs mod q < q) by (apply Z.mod_pos_bound; lia).
    destruct (shr_1_ok (Nat.iter n shr_1 mrs) (shr_m mrs mod q * b + a) (q * b))
      as [Hm' Hl'].
    + rewrite IHm. apply Z.div_pos; lia.
    + nia.
    + exact IHl.
    + split.
      * rewrite Hm', IHm, Z.div_div by lia. f_equal. lia.
      * rewrite IHm in Hl'.
        replace (shr_m mrs mod (2 * q) * b + a)
          with (shr_m mrs / q mod 2 * (q * b) + (shr_m mrs mod q * b + a)).
        { replace (2 * q * b) with (2 * (q * b)) by lia. exact Hl'. }
        rewrite (Z.mul_comm 2 q), Z.rem_mul_r by lia. lia.
Qed.

(** *** Rounding to nearest, ties to even *)

Lemma round_nearest_even_ok m l a b :
  0 <= a < b -> loc_ok l a b ->
  let m1 := round_nearest_even m l in
  (m1 = m \/ m1 = m + 1) /\ Z.abs (2 * (m1 * b - (m * b + a))) <= b.
Proof.
  intros Hab Hloc. destruct l as [| []]; cbn [round_nearest_even loc_ok] in *.
  - split; [left; reflexivity | lia].
  - destruct (Z.even m); split; auto; lia.
  - split; [left; reflexivity | lia].
  - split; [right; reflexivity | lia].
Qed.


(** *** One rounding *)

Lemma shr_nat mrs e n :
  0 <= n -> shr mrs e n = (Nat.iter (Z.to_nat n) shr_1 mrs, e + n).
Proof.
  intros Hn. unfold shr. destruct n as [| p | p]; [| | lia].
  - cbn [Z.to_nat Nat.iter]. now rewrite Z.add_0_r.
  - now rewrite iter_pos_nat.
Qed.

Lemma fexp_normal e : -1074 <= e - 53 -> fexp prec emax e = e - 53.
Proof. unfold fexp, SpecFloat.emin, prec, emax. lia. Qed.

Lemma pow2_split a b : 0 <= a -> 0 <= b -> 2 ^ (a + b) = 2 ^ a * 2 ^ b.
Proof. intros. now apply Z.pow_add_r. Qed.

(** [binary_round_aux] on a mantissa of 53 digits or more, in the normal
    range: the result is a normal number, at half a unit in the last place
    from the exact value [(mx + a / b) * 2 ^ ex]. The integer [m1] is the
    mantissa of the result at the exponent [ex + (d - 53)]. *)
Lemma binary_round_aux_ok (mx : positive) ex l a b :
  let d := Z.pos (digits2_pos mx) in
  53 <= d -> -1074 <= ex + (d - 53) -> ex + (d - 53) + 1 <= 971 ->
  0 <= a < b -> loc_ok l a b ->
  exists m e m1,
    binary_round_aux prec emax false (Z.pos mx) ex l = S754_finite false m e /\
    2 ^ 52 <= Z.pos m < 2 ^ 53 /\
    (e = ex + (d - 53) /\ m1 = Z.pos m \/ e = ex + (d - 53) + 1 /\ m1 = 2 * Z.pos m) /\
    Z.abs (2 * (m1 * (2 ^ (d - 53) * b) - (Z.pos mx * b + a))) <= 2 ^ (d - 53) * b.
Proof.
  intros d Hd Hlo Hhi Hab Hloc.
  pose proof (digits2_pos_bounds mx) as Hmx. fold d in Hmx.
  set (n := d - 53) in *.
  assert (Hn : 0 <= n) by lia.
  assert (Hpn : 0 < 2 ^ n) by (apply Z.pow_pos_nonneg; lia).
  assert (Hd1 : 2 ^ (d - 1) = 2 ^ 52 * 2 ^ n).
  { replace (d - 1) with (52 + n) by lia. apply pow2_split; lia. }
  assert (Hd2 : 2 ^ d = 2 ^ 53 * 2 ^ n).
  { replace d with (53 + n) at 1 by lia. apply pow2_split; lia. }
  unfold binary_round_aux, shr_fexp.
  change (Zdigits2 (Z.pos mx)) with d.
  rewrite fexp_normal by lia.
  replace (d + ex - 53 - ex) with n by lia.
  rewrite shr_nat by lia.
  destruct (shr_iter_ok (Z.to_nat n) (shr_record_of_loc (Z.pos mx) l) a b) as [Hm' Hl'].
  { rewrite shr_m_record_of_loc. lia. }
  { exact Hab. }
  { rewrite loc_of_record_of_loc. exact Hloc. }
  rewrite shr_m_record_of_loc, Z2Nat.id in Hm', Hl' by lia.
  set (mrs' := Nat.iter (Z.to_nat n) shr_1 (shr_record_of_loc (Z.pos mx) l)) in *.
  assert (Hmb : 2 ^ 52 <= shr_m mrs' < 2 ^ 53).
  { rewrite Hm'. split.
    - apply Z.div_le_lower_bound; lia.
    - apply Z.div_lt_upper_bound; lia. }
  assert (Hmodb : 0 <= Z.pos mx mod 2 ^ n < 2 ^ n) by (apply Z.mod_pos_bound; lia).
  destruct (round_nearest_even_ok (shr_m mrs') (loc_of_shr_record mrs')
              (Z.pos mx mod 2 ^ n * b + a) (2 ^ n * b)) as [Hm1 Herr];
    [nia | exact Hl' |].
  set (m1 := round_nearest_even (shr_m mrs') (loc_of_shr_record mrs')) in *.
  assert (Hexact : shr_m mrs' * (2 ^ n * b) + (Z.pos mx mod 2 ^ n * b + a) =
                   Z.pos mx * b + a).
  { rewrite Hm'. pose proof (Z.div_mod (Z.pos mx) (2 ^ n)). nia. }
  rewrite Hexact in Herr.
  cbv zeta.
  assert (Hm1b : 2 ^ 52 <= m1 <= 2 ^ 53) by lia.
  destruct m1 as [| p1 | p1] eqn:Ep1; [lia | | lia].
  destruct (Z.eq_dec (Z.pos p1) (2 ^ 53)) as [Htop | Hntop].
  - (* the rounding carried into a new digit *)
    rewrite Htop in Herr |- *. clear Hm1 Ep1 Htop.
    exists (Z.to_pos (2 ^ 52)), (ex + n + 1), (2 ^ 53).
    split; [| split; [| split]].
    + change (Zdigits2 (2 ^ 53)) with 54.
      rewrite fexp_normal by lia.
      replace (54 + (ex + n) - 53 - (ex + n)) with 1 by lia.
      change (shr (shr_record_of_loc (2 ^ 53) loc_Exact) (ex + n) 1)
        with (shr_record_of_loc (2 ^ 52) loc_Exact, ex + n + 1).
      cbn [shr_record_of_loc shr_m fst snd].
      change (2 ^ 52) with (Z.pos (Z.to_pos (2 ^ 52))) at 1.
      cbv beta iota.
      destruct (ex + n + 1 <=? emax - prec) eqn:E.
      * reflexivity.
      * apply Z.leb_gt in E. unfold prec, emax in E. lia.
    + vm_compute. split; [discriminate | reflexivity].
    + right. split; [lia | reflexivity].
    + exact Herr.
  - exists p1, (ex + n), (Z.pos p1).
    assert (Hdig : Zdigits2 (Z.pos p1) = 53).
    { cbn [Zdigits2]. apply digits2_pos_unique. change (53 - 1) with 52. lia. }
    split; [| split; [| split]].
    + rewrite Hdig, fexp_normal by lia.
      replace (53 + (ex + n) - 53 - (ex + n)) with 0 by lia.
      cbn [shr shr_record_of_loc shr_m].
      destruct (ex + n <=? emax - prec) eqn:E.
      * reflexivity.
      * apply Z.leb_gt in E. unfold prec, emax in E. lia.
    + lia.
    + left. split; [lia | reflexivity].
    + exact Herr.
Qed.


Lemma new_location_ok nb k :
  0 < nb -> 0 <= k < nb -> loc_ok (new_location nb k) k nb.
Proof.
  intros Hnb Hk. unfold new_location, new_location_even, new_location_odd.
  destruct (Z.even nb) eqn:Ev.
  - destruct (Z.eqb_spec k 0) as [-> | Hk0]; [reflexivity |].
    destruct (Z.compare_spec (2 * k) nb); cbn [loc_ok]; lia.
  - destruct (Z.eqb_spec k 0) as [-> | Hk0]; [reflexivity |].
    assert (Hodd : Z.odd nb = true) by (rewrite <- Z.negb_even, Ev; reflexivity).
    apply Z.odd_spec in Hodd as [c Hc].
    destruct (Z.compare_spec (2 * k + 1) nb); cbn [loc_ok]; lia.
Qed.

(** *** Values *)

Lemma sval_shifted m e m1 e0 :
  e = e0 /\ m1 = Z.pos m \/ e = e0 + 1 /\ m1 = 2 * Z.pos m ->
  0 <= e0 + scale -> sval m e = m1 * 2 ^ (e0 + scale).
Proof.
  intros [[-> ->] | [-> ->]] H; unfold sval; [reflexivity |].
  replace (e0 + 1 + scale) with (Z.succ (e0 + scale)) by lia.
  rewrite Z.pow_succ_r by lia. lia.
Qed.

Lemma close_scaled D X P T :
  0 < T -> Z.abs (2 * D) <= X -> 2 ^ 52 * X <= P ->
  2 ^ 53 * Z.abs (D * T) <= P * T.
Proof.
  intros HT HD HX.
  rewrite Z.abs_mul, (Z.abs_eq T) by lia.
  assert (2 ^ 53 * Z.abs D <= P) by lia.
  rewrite Z.mul_assoc. apply Z.mul_le_mono_nonneg_r; lia.
Qed.

(** A mantissa of 53 digits is not rounded. *)
Lemma round_exact mz ez :
  normal mz -> -1074 <= ez <= 970 ->
  exists m e,
    binary_round_aux prec emax false (Z.pos mz) ez loc_Exact = S754_finite false m e /\
    normal m /\ ez <= e <= ez + 1 /\
    sval m e = Z.pos mz * 2 ^ (ez + scale).
Proof.
  intros Hmz Hez.
  assert (Hd : Z.pos (digits2_pos mz) = 53) by (apply digits2_pos_unique; exact Hmz).
  destruct (binary_round_aux_ok mz ez loc_Exact 0 1) as (m & e & m1 & Heq & Hm & Hcase & Herr);
    rewrite ?Hd; try lia; [reflexivity |].
  rewrite Hd in Hcase, Herr. change (2 ^ (53 - 53)) with 1 in Herr.
  exists m, e. split; [exact Heq |]. split; [exact Hm |]. split; [lia |].
  rewrite (sval_shifted m e m1 ez) by (unfold scale; lia).
  f_equal. lia.
Qed.

(** [float64(z)] is exact for a positive integer below [2 ^ 53]. *)
Lemma of_int_ok z :
  0 < z < 2 ^ 53 ->
  exists m e,
    of_int z = S754_finite false m e /\ normal m /\ -52 <= e <= 1 /\
    sval m e = z * 2 ^ scale.
Proof.
  intros Hz. destruct z as [| p | p]; [lia | | lia].
  unfold of_int, binary_normalize, binary_round.
  rewrite Z.add_0_r.
  pose proof (digits2_pos_bounds p) as Hp. set (d := Z.pos (digits2_pos p)) in *.
  assert (Hd : 1 <= d <= 53).
  { split; [subst d; lia |]. destruct (Z.le_gt_cases d 53) as [| Hgt]; [assumption |].
    assert (2 ^ 53 <= 2 ^ (d - 1)) by (apply Z.pow_le_mono_r; lia). lia. }
  rewrite fexp_normal by lia.
  unfold shl_align. rewrite Z.sub_0_r.
  destruct (d - 53) as [| q | q] eqn:Eq; [| lia |].
  - assert (d = 53) by lia.
    destruct (round_exact p 0) as (m & e & Heq & Hm & He & Hv).
    { unfold normal. rewrite H in Hp. exact Hp. }
    { lia. }
    exists m, e. split; [exact Heq |]. split; [exact Hm |]. split; [lia |].
    rewrite Hv. reflexivity.
  - fold (shift_pos q p).
    assert (Hs : Z.pos (shift_pos q p) = 2 ^ (53 - d) * Z.pos p).
    { rewrite shift_pos_correct, Z.pow_pos_fold. f_equal. f_equal. lia. }
    assert (Hsplit1 : 2 ^ 52 = 2 ^ (53 - d) * 2 ^ (d - 1)).
    { rewrite <- pow2_split by lia. f_equal. lia. }
    assert (Hsplit2 : 2 ^ 53 = 2 ^ (53 - d) * 2 ^ d).
    { rewrite <- pow2_split by lia. f_equal. lia. }
    assert (Hpos : 0 < 2 ^ (53 - d)) by (apply Z.pow_pos_nonneg; lia).
    destruct (round_exact (shift_pos q p) (Z.neg q)) as (m & e & Heq & Hm & He & Hv).
    { unfold normal. rewrite Hs, Hsplit1, Hsplit2. split.
      - apply Z.mul_le_mono_nonneg_l; lia.
      - apply Z.mul_lt_mono_pos_l; lia. }
    { lia. }
    exists m, e. split; [exact Heq |]. split; [exact Hm |]. split; [lia |].
    rewrite Hv, Hs.
    replace (2 ^ scale) with (2 ^ (53 - d) * 2 ^ (Z.neg q + scale)).
    + ring.
    + rewrite <- pow2_split by (unfold scale; lia). f_equal. lia.
Qed.

(** *** Multiplication and division *)

Lemma mul_close m1 e1 m2 e2 :
  normal m1 -> normal m2 -> -500 <= e1 <= 400 -> -500 <= e2 <= 400 ->
  exists m e,
    mul (S754_finite false m1 e1) (S754_finite false m2 e2) = S754_finite false m e /\
    normal m /\ e1 + e2 + 52 <= e <= e1 + e2 + 54 /\
    close (sval m e * 2 ^ scale) (sval m1 e1 * sval m2 e2).
Proof.
  intros H1 H2 He1 He2. unfold normal in H1, H2.
  unfold mul, SFmul. cbn [xorb].
  pose proof (digits2_pos_bounds (m1 * m2)) as Hp.
  set (d := Z.pos (digits2_pos (m1 * m2))) in *.
  rewrite Pos2Z.inj_mul in Hp.
  assert (Hprod : 2 ^ 104 <= Z.pos m1 * Z.pos m2 < 2 ^ 106).
  { change (2 ^ 104) with (2 ^ 52 * 2 ^ 52). change (2 ^ 106) with (2 ^ 53 * 2 ^ 53).
    split; [apply Z.mul_le_mono_nonneg | apply Z.mul_lt_mono_nonneg]; lia. }
  assert (Hd : 105 <= d <= 106).
  { split.
    - destruct (Z.le_gt_cases 105 d) as [| Hlt]; [assumption |].
      assert (2 ^ d <= 2 ^ 104) by (apply Z.pow_le_mono_r; lia). lia.
    - destruct (Z.le_gt_cases d 106) as [| Hgt]; [assumption |].
      assert (2 ^ 106 <= 2 ^ (d - 1)) by (apply Z.pow_le_mono_r; lia). lia. }
  destruct (binary_round_aux_ok (m1 * m2) (e1 + e2) loc_Exact 0 1)
    as (m & e & M & Heq & Hm & Hcase & Herr); fold d; try lia; [reflexivity |].
  fold d in Hcase, Herr. rewrite Pos2Z.inj_mul in Herr.
  set (n := d - 53) in *.
  exists m, e. split; [exact Heq |]. split; [exact Hm |]. split; [lia |].
  unfold close.
  rewrite (sval_shifted m e M (e1 + e2 + n)) by (unfold scale; lia).
  unfold sval.
  set (T := 2 ^ (e1 + scale) * 2 ^ (e2 + scale)).
  assert (HT : 0 < T).
  { apply Z.mul_pos_pos; apply Z.pow_pos_nonneg; unfold scale; lia. }
  assert (Hpow : 2 ^ (e1 + e2 + n + scale) * 2 ^ scale = 2 ^ n * T).
  { unfold T. rewrite <- !pow2_split by (unfold scale; lia). f_equal. lia. }
  replace (M * 2 ^ (e1 + e2 + n + scale) * 2 ^ scale -
           Z.pos m1 * 2 ^ (e1 + scale) * (Z.pos m2 * 2 ^ (e2 + scale)))
    with ((M * 2 ^ n - Z.pos m1 * Z.pos m2) * T).
  2:{ rewrite <- Z.mul_assoc, Hpow. unfold T. ring. }
  replace (Z.pos m1 * 2 ^ (e1 + scale) * (Z.pos m2 * 2 ^ (e2 + scale)))
    with (Z.pos m1 * Z.pos m2 * T) by (unfold T; ring).
  apply close_scaled with (X := 2 ^ n); [exact HT | |].
  - replace (2 * (M * 2 ^ n - Z.pos m1 * Z.pos m2))
      with (2 * (M * (2 ^ n * 1) - (Z.pos m1 * Z.pos m2 * 1 + 0))) by ring.
    replace (2 ^ n) with (2 ^ n * 1) at 2 by ring. exact Herr.
  - rewrite <- pow2_split by lia. replace (52 + n) with (d - 1) by lia. lia.
Qed.

Lemma div_close m1 e1 m2 e2 :
  normal m1 -> normal m2 -> -500 <= e1 <= 400 -> -500 <= e2 <= 400 ->
  exists m e,
    div (S754_finite false m1 e1) (S754_finite false m2 e2) = S754_finite false m e /\
    normal m /\ e1 - e2 - 53 <= e <= e1 - e2 - 51 /\
    close (sval m e * sval m2 e2) (sval m1 e1 * 2 ^ scale).
Proof.
  intros H1 H2 He1 He2.
  assert (Hd1 : Z.pos (digits2_pos m1) = 53) by (apply digits2_pos_unique; exact H1).
  assert (Hd2 : Z.pos (digits2_pos m2) = 53) by (apply digits2_pos_unique; exact H2).
  unfold normal in H1, H2.
  unfold div, SFdiv, SFdiv_core_binary. cbn [xorb Zdigits2].
  rewrite Hd1, Hd2.
  rewrite fexp_normal by lia.
  replace (53 + e1 - (53 + e2) - 53) with (e1 - e2 - 53) by lia.
  change IntDef.Z.min with Z.min. rewrite Z.min_l by lia.
  replace (e1 - e2 - (e1 - e2 - 53)) with 53 by lia.
  cbv beta iota zeta.
  change IntDef.Z.shiftl with Z.shiftl. change IntDef.Z.div_eucl with Z.div_eucl.
  rewrite Z.shiftl_mul_pow2 by lia.
  pose proof (Z_div_mod (Z.pos m1 * 2 ^ 53) (Z.pos m2) eq_refl) as Hdm.
  destruct (Z.div_eucl (Z.pos m1 * 2 ^ 53) (Z.pos m2)) as [q r].
  destruct Hdm as [Hdm Hr].
  assert (Hq : 2 ^ 52 <= q < 2 ^ 54).
  { split.
    - destruct (Z.le_gt_cases (2 ^ 52) q) as [| Hlt]; [assumption |].
      assert (Z.pos m2 * (q + 1) <= Z.pos m2 * 2 ^ 52)
        by (apply Z.mul_le_mono_nonneg_l; lia).
      assert (Z.pos m2 * 2 ^ 52 < 2 ^ 53 * 2 ^ 52)
        by (apply Z.mul_lt_mono_pos_r; lia).
      assert (2 ^ 52 * 2 ^ 53 <= Z.pos m1 * 2 ^ 53)
        by (apply Z.mul_le_mono_nonneg_r; lia).
      lia.
    - destruct (Z.le_gt_cases (2 ^ 54) q) as [Hge |]; [| assumption].
      assert (2 ^ 52 * 2 ^ 54 <= Z.pos m2 * q)
        by (apply Z.mul_le_mono_nonneg; lia).
      assert (Z.pos m1 * 2 ^ 53 < 2 ^ 53 * 2 ^ 53)
        by (apply Z.mul_lt_mono_pos_r; lia).
      lia. }
  destruct q as [| q | q]; [lia | | lia].
  pose proof (digits2_pos_bounds q) as Hp.
  set (d := Z.pos (digits2_pos q)) in *.
  assert (Hd : 53 <= d <= 54).
  { split.
    - destruct (Z.le_gt_cases 53 d) as [| Hlt]; [assumption |].
      assert (2 ^ d <= 2 ^ 52) by (apply Z.pow_le_mono_r; lia). lia.
    - destruct (Z.le_gt_cases d 54) as [| Hgt]; [assumption |].
      assert (2 ^ 54 <= 2 ^ (d - 1)) by (apply Z.pow_le_mono_r; lia). lia. }
  destruct (binary_round_aux_ok q (e1 - e2 - 53) (new_location (Z.pos m2) r) r (Z.pos m2))
    as (m & e & M & Heq & Hm & Hcase & Herr); fold d; try lia.
  { apply new_location_ok; lia. }
  fold d in Hcase, Herr.
  set (n := d - 53) in *.
  exists m, e. split; [exact Heq |]. split; [exact Hm |]. split; [lia |].
  unfold close.
  rewrite (sval_shifted m e M (e1 - e2 - 53 + n)) by (unfold scale; lia).
  unfold sval.
  set (T := 2 ^ (e1 - 53 + scale + scale)).
  assert (HT : 0 < T) by (apply Z.pow_pos_nonneg; unfold scale; lia).
  assert (Hpow1 : 2 ^ (e1 - e2 - 53 + n + scale) * 2 ^ (e2 + scale) = 2 ^ n * T).
  { unfold T. rewrite <- !pow2_split by (unfold scale; lia). f_equal. lia. }
  assert (Hpow2 : 2 ^ (e1 + scale) * 2 ^ scale = 2 ^ 53 * T).
  { unfold T. rewrite <- !pow2_split by (unfold scale; lia). f_equal. lia. }
  replace (M * 2 ^ (e1 - e2 - 53 + n + scale) * (Z.pos m2 * 2 ^ (e2 + scale)) -
           Z.pos m1 * 2 ^ (e1 + scale) * 2 ^ scale)
    with ((M * (2 ^ n * Z.pos m2) - (Z.pos q * Z.pos m2 + r)) * T).
  2:{ replace (M * 2 ^ (e1 - e2 - 53 + n + scale) * (Z.pos m2 * 2 ^ (e2 + scale)))
        with (M * Z.pos m2 * (2 ^ (e1 - e2 - 53 + n + scale) * 2 ^ (e2 + scale))) by ring.
      rewrite <- (Z.mul_assoc (Z.pos m1)), Hpow1, Hpow2.
      replace (Z.pos q * Z.pos m2 + r) with (Z.pos m1 * 2 ^ 53) by lia. ring. }
  replace (Z.pos m1 * 2 ^ (e1 + scale) * 2 ^ scale) with (Z.pos m1 * 2 ^ 53 * T)
    by (rewrite <- (Z.mul_assoc (Z.pos m1) (2 ^ (e1 + scale))), Hpow2; ring).
  apply close_scaled with (X := 2 ^ n * Z.pos m2); [exact HT | exact Herr |].
  assert (Hn : n = 0 \/ n = 1) by lia.
  destruct Hn as [Hn | Hn]; rewrite Hn.
  - change (2 ^ 0) with 1. lia.
  - change (2 ^ 1) with 2.
    assert (Z.pos m2 <= Z.pos m1); [| lia].
    assert (Hq53 : 2 ^ 53 <= Z.pos q).
    { replace 53 with (d - 1) by lia. lia. }
    destruct (Z.le_gt_cases (Z.pos m2) (Z.pos m1)) as [| Hlt]; [assumption |].
    assert (Z.pos m2 * 2 ^ 53 <= Z.pos m2 * Z.pos q)
      by (apply Z.mul_le_mono_nonneg_l; lia).
    lia.
Qed.

(** *** Conversion to an integer *)

Lemma to_int_sval m e :
  - scale <= e -> sval m e / 2 ^ scale <= GoInt.max_int ->
  to_int (S754_finite false m e) = sval m e / 2 ^ scale.
Proof.
  intros He Hmax.
  assert (Hs : scale = 1200) by reflexivity.
  assert (Hv : (if 0 <=? e then Z.pos m * 2 ^ e else Z.pos m / 2 ^ (- e)) =
               sval m e / 2 ^ scale).
  { unfold sval. destruct (Z.leb_spec 0 e) as [H0 | H0].
    - rewrite pow2_split by (lia).
      rewrite Z.mul_assoc, Z.div_mul; [reflexivity |].
      apply Z.pow_nonzero; lia.
    - replace (2 ^ scale) with (2 ^ (- e) * 2 ^ (e + scale)).
      + rewrite Z.div_mul_cancel_r; [reflexivity | |];
          apply Z.pow_nonzero; lia.
      + rewrite <- pow2_split by (lia). f_equal. lia. }
  unfold to_int. cbv zeta. rewrite Hv.
  assert (0 <= sval m e / 2 ^ scale).
  { apply Z.div_pos; [| apply Z.pow_pos_nonneg; lia].
    unfold sval. apply Z.mul_nonneg_nonneg; [lia |].
    apply Z.pow_nonneg; lia. }
  destruct (Z.leb_spec GoInt.min_int (sval m e / 2 ^ scale)) as [| Hlt].
  - destruct (Z.leb_spec (sval m e / 2 ^ scale) GoInt.max_int); [reflexivity | lia].
  - unfold GoInt.min_int in Hlt. lia.
Qed.


(** *** The quotient after two roundings *)

Lemma close_cancel x y S : 0 < S -> close (x * S) (y * S) -> close x y.
Proof.
  unfold close. intros HS H.
  rewrite <- Z.mul_sub_distr_r, Z.abs_mul, (Z.abs_eq S), Z.mul_assoc in H by lia.
  apply Z.mul_le_mono_pos_r in H; assumption.
Qed.

Lemma close_bounds x y :
  close x y -> (2 ^ 53 - 1) * y <= 2 ^ 53 * x <= (2 ^ 53 + 1) * y.
Proof. unfold close. lia. Qed.

(** [sp] is the product [H * (w / W)] after the rounding of the quotient
    and of the product, in units of [1 / S]: its integer part is below
    every [k] with [H * w < k * W] and at least every [k] with
    [k * W < H * w]. *)
Lemma truncation_bounds S W w H sq sp :
  0 < S -> 0 < W -> 0 < w -> 0 < H -> H * w < 2 ^ 51 ->
  close (sq * (W * S)) (w * S * S) ->
  close (sp * S) (H * S * sq) ->
  forall k,
    (k * W <= H * w - 1 -> k <= sp / S) /\
    (H * w + 1 <= k * W -> sp / S < k).
Proof.
  intros HS HW Hw HH HA Hq Hp k.
  replace (sq * (W * S)) with (sq * W * S) in Hq by ring.
  apply close_cancel, close_bounds in Hq; [| exact HS].
  replace (H * S * sq) with (H * sq * S) in Hp by ring.
  apply close_cancel, close_bounds in Hp; [| exact HS].
  assert (Hsq : 0 <= sq).
  { destruct (Z.le_gt_cases 0 sq) as [| Hneg]; [assumption |].
    assert (sq * W <= -1 * W) by (apply Z.mul_le_mono_nonneg_r; lia).
    assert (0 < w * S) by (apply Z.mul_pos_pos; lia). lia. }
  assert (HAS : H * w * S <= (2 ^ 51 - 1) * S)
    by (apply Z.mul_le_mono_nonneg_r; lia).
  assert (Hup : 2 ^ 53 * 2 ^ 53 * (sp * W) <=
                (2 ^ 53 + 1) * (2 ^ 53 + 1) * (H * w * S)).
  { assert (2 ^ 53 * sp * W <= (2 ^ 53 + 1) * (H * sq) * W)
      by (apply Z.mul_le_mono_nonneg_r; lia).
    assert (H * (2 ^ 53 * (sq * W)) <= H * ((2 ^ 53 + 1) * (w * S)))
      by (apply Z.mul_le_mono_nonneg_l; lia).
    lia. }
  assert (Hdn : (2 ^ 53 - 1) * (2 ^ 53 - 1) * (H * w * S) <=
                2 ^ 53 * 2 ^ 53 * (sp * W)).
  { assert ((2 ^ 53 - 1) * (H * sq) * W <= 2 ^ 53 * sp * W)
      by (apply Z.mul_le_mono_nonneg_r; lia).
    assert (H * ((2 ^ 53 - 1) * (w * S)) <= H * (2 ^ 53 * (sq * W)))
      by (apply Z.mul_le_mono_nonneg_l; lia).
    lia. }
  split; intros Hk.
  - apply Z.div_le_lower_bound; [exact HS |].
    destruct (Z.le_gt_cases (S * k) sp) as [| Hlt]; [assumption | exfalso].
    assert (sp * W <= (S * k - 1) * W) by (apply Z.mul_le_mono_nonneg_r; lia).
    assert (S * (k * W) <= S * (H * w - 1)) by (apply Z.mul_le_mono_nonneg_l; lia).
    lia.
  - apply Z.div_lt_upper_bound; [exact HS |].
    destruct (Z.le_gt_cases (S * k) sp) as [Hge | ]; [exfalso | assumption].
    assert (S * k * W <= sp * W) by (apply Z.mul_le_mono_nonneg_r; lia).
    assert (S * (H * w + 1) <= S * (k * W)) by (apply Z.mul_le_mono_nonneg_l; lia).
    lia.
Qed.


(** *** The height of a thumbnail *)

(** [int(float64(H) * (float64(w) / float64(W)))] is the integer part of
    [H * w / W], except that it can be one less when [W] divides [H * w]:
    the quotient [w / W] is rounded before it is multiplied. *)
Lemma scaledHeight_value b width :
  0 < width < 2 ^ 53 -> 0 < Dx b < 2 ^ 53 -> 0 <= Dy b ->
  Dy b * width < 2 ^ 51 ->
  ((Dy b * width) mod Dx b <> 0 ->
   scaledHeight b width = Z.max 1 (Dy b * width / Dx b)) /\
  ((Dy b * width) mod Dx b = 0 ->
   scaledHeight b width = Z.max 1 (Dy b * width / Dx b) \/
   scaledHeight b width = Z.max 1 (Dy b * width / Dx b - 1)).
Proof.
  intros Hw HW HH HA. unfold scaledHeight.
  destruct (of_int_ok width Hw) as (mw & ew & -> & Hnw & Hew & Hvw).
  destruct (of_int_ok (Dx b) HW) as (mW & eW & -> & HnW & HeW & HvW).
  destruct (div_close mw ew mW eW) as (mq & eq & -> & Hnq & Heq & Hq);
    try assumption; try lia.
  destruct (Z.eq_dec (Dy b) 0) as [H0 | H0].
  - rewrite H0. change (of_int 0) with (S754_zero false).
    cbn. rewrite Z.mod_0_l, Z.div_0_l by lia. cbn. split; intros _; [reflexivity |].
    left; reflexivity.
  - assert (HH' : 0 < Dy b < 2 ^ 53) by nia.
    destruct (of_int_ok (Dy b) HH') as (mH & eH & -> & HnH & HeH & HvH).
    destruct (mul_close mH eH mq eq) as (mp & ep & -> & Hnp & Hep & Hp);
      try assumption; try lia.
    rewrite HvW, Hvw in Hq. rewrite HvH in Hp.
    assert (HS : 0 < 2 ^ scale) by (apply Z.pow_pos_nonneg; [lia | discriminate]).
    pose proof (truncation_bounds (2 ^ scale) (Dx b) width (Dy b)
                  (sval mq eq) (sval mp ep) HS ltac:(lia) ltac:(lia) ltac:(lia) HA Hq Hp)
      as Hb.
    set (t := sval mp ep / 2 ^ scale) in *.
    set (E := Dy b * width) in *.
    pose proof (Z.div_mod E (Dx b) ltac:(lia)) as Hdiv.
    pose proof (Z.mod_pos_bound E (Dx b) ltac:(lia)) as Hmod.
    assert (Hscale : scale = 1200) by reflexivity.
    destruct (Hb (E / Dx b + 1)) as [_ Hup].
    destruct (Hb (E + 1)) as [_ Hmax].
    assert (HEW : E + 1 <= (E + 1) * Dx b) by nia.
    rewrite to_int_sval; fold t; [| lia | unfold GoInt.max_int; lia].
    split; intros Hrho.
    + destruct (Hb (E / Dx b)) as [Hlo _].
      assert (t = E / Dx b) by lia.
      destruct (Z.leb_spec t 0); lia.
    + destruct (Hb (E / Dx b - 1)) as [Hlo _].
      assert (t = E / Dx b \/ t = E / Dx b - 1) as [Ht | Ht] by lia.
      * left. destruct (Z.leb_spec t 0); lia.
      * right. destruct (Z.leb_spec t 0); lia.
Qed.

End FloatFacts.

(** ** Running the handlers *)

Section HandlerFacts.

Import Handlers Image.

Lemma Exists_true path (d : disk) :
  Localcache.Exists path d = true -> exists c, d !! path = Some c.
Proof. unfold Localcache.Exists. intros H%bool_decide_eq_true. exact H. Qed.

Lemma Exists_false path (d : disk) : Localcache.Exists path d = false -> d !! path = None.
Proof.
  unfold Localcache.Exists. intros H%bool_decide_eq_false.
  destruct (d !! path) eqn:E; [| reflexivity]. exfalso. apply H. eauto.
Qed.

Lemma Save_error_inv pid fl path r d d' e :
  Localcache.Save pid fl path r d = (d', Some e) -> d' !! path = d !! path.
Proof.
  pose proof (tmp_name_ne_path path pid) as Hne.
  unfold Localcache.Save, Localcache.MkdirAll, Localcache.Create, Localcache.Copy,
    Localcache.Close, Localcache.Rename, Localcache.Remove.
  repeat (case_match; simplify_eq); cbn [fst snd]; intros; simplify_eq;
    rewrite ?lookup_delete_ne, ?lookup_insert_ne by done; done.
Qed.

Lemma GetObject_nil be n key : Storage.GetObject None be n key = inl ErrNotInitialized.
Proof. reflexivity. Qed.


End HandlerFacts.

(** Unfolds a handler and the calls it is made of; the collaborators stay
    folded. *)
Ltac exec :=
  cbv [Handlers.serve Handlers.fresh Handlers.GetPhotoThumbnail Handlers.GetPhoto
       Handlers.fetchOriginal Handlers.presignRedirect Handlers.thumbSource
       Handlers.openCached Handlers.fetchIfNil Handlers.contentTypeHeader
       Handlers.copyOrElse Handlers.file_reply Handlers.file_headers Handlers.put_hdr
       Handlers.JSON Handlers.Data Handlers.Redirect Handlers.File Handlers.QueryRow
       Handlers.Exists Handlers.Open Handlers.GetObject Handlers.PresignGet
       Handlers.image_Decode Handlers.Save Handlers.Header Handlers.emit Handlers.gets
       Handlers.modify Handlers.bind Handlers.ret
       Handlers.set_disk Handlers.set_objs Handlers.add_row Handlers.set_hdr
       Handlers.count_get Handlers.add_event
       Handlers.w_disk Handlers.w_objs Handlers.w_rows Handlers.w_hdr Handlers.w_gets
       Handlers.w_log].

Ltac head_of t :=
  lazymatch t with
  | match ?x with _ => _ end => head_of x
  | (match ?x with _ => _ end) _ => head_of x
  | _ => t
  end.

Ltac waiting_for t :=
  lazymatch t with
  | match ?x with _ => _ end => head_of x
  | (match ?x with _ => _ end) _ => head_of x
  end.

(** Facts about the case just opened; contradictory cases close. *)
Ltac tidy :=
  repeat match goal with
  | H : Localcache.Exists _ _ = true |- _ => apply Exists_true in H as [? H]
  | H : Localcache.Exists _ _ = false |- _ => apply Exists_false in H
  | H : @None _ = Some _ |- _ => discriminate H
  | H : Some _ = @None _ |- _ => discriminate H
  | H : Some _ = Some _ |- _ => injection H as H; try subst
  | H1 : ?d !! ?p = Some _, H2 : ?d !! ?p = None |- _ => congruence
  | H1 : ?d !! ?p = Some ?a, H2 : ?d !! ?p = Some ?b |- _ =>
      assert (a = b) by congruence; subst b; clear H2
  | H : (_ <? _) = true |- _ => apply Z.ltb_lt in H
  | H : (_ <? _) = false |- _ => apply Z.ltb_ge in H
  | H : (_ <=? _) = true |- _ => apply Z.leb_le in H
  | H : (_ <=? _) = false |- _ => apply Z.leb_gt in H
  | H : Localcache.Save _ _ _ _ _ = (_, None) |- _ =>
      let H1 := fresh "Hsaved" in let H2 := fresh in let H3 := fresh in
      pose proof (Save_ok _ _ _ _ _ _ H) as (H1 & H2 & H3); clear H H2 H3;
      unfold bytes_reader in H1; cbn [rd_data] in H1
  | H : Localcache.Save _ _ _ _ _ = (_, Some _) |- _ =>
      let H1 := fresh "Hkept" in
      pose proof (Save_error_inv _ _ _ _ _ _ _ H) as H1; clear H
  end.

(** One case split, on the call the handler is waiting for. *)
Ltac step :=
  lazymatch goal with
  | |- ?t = _ -> _ => let h := waiting_for t in destruct h eqn:?
  end; cbv beta iota zeta; tidy.

(** All runs of the handler; each leaves the response and the final world. *)
Ltac runs :=
  exec; repeat step;
  let H := fresh in intros H; injection H as <- <-;
  cbv [Handlers.status Handlers.headers Handlers.resp_body Handlers.cache_control
       Handlers.w_disk Handlers.w_log].

(** Membership in a log that is known. *)
Ltac in_log :=
  cbn [In] in *;
  repeat match goal with
  | H : _ \/ _ |- _ => destruct H
  | H : False |- _ => destruct H
  | H : Handlers.EvDecode _ = Handlers.EvDecode _ |- _ => injection H as H; try subst
  | H : Handlers.EvSave _ = Handlers.EvSave _ |- _ => injection H as H; try subst
  | H : _ = _ :> Handlers.event |- _ => discriminate H
  end.

(** Two results of one call are the same result. *)
Ltac same_call :=
  repeat match goal with
  | H1 : ?x = inr _, H2 : ?x = inr _ |- _ => rewrite H1 in H2; injection H2 as H2; simplify_eq
  | H1 : ?x = Some _, H2 : ?x = Some _ |- _ => rewrite H1 in H2; injection H2 as H2; simplify_eq
  end.

(** An event that is in a log that is known. *)
Ltac log_has := cbn [In]; solve [repeat first [left; reflexivity | right]].

(** Lookup of a header that is known. *)
Ltac hdr :=
  repeat first
    [ rewrite lookup_insert_eq
    | rewrite lookup_insert_ne by discriminate
    | rewrite lookup_empty ].

(** The store of the handler, in a case where it is known. *)
Ltac use_s3 :=
  unfold Handlers.no_source, Handlers.no_presign, Handlers.source_is in *;
  repeat match goal with
  | H : Handlers.s3 ?env = _ |- context [Handlers.s3 ?env] => rewrite H
  | H : Handlers.s3 ?env = _, H' : context [Handlers.s3 ?env] |- _ =>
      lazymatch H' with H => fail | _ => rewrite H in H' end
  end.

Section RetrievalClaims.

Import Handlers Image Contracts.

(** A spec that is turned down is answered with 400 before anything is
    asked of a collaborator. *)
Lemma thumb_rejected env id spec d msg :
  parseSpec spec = inl msg ->
  serve (GetPhotoThumbnail env id spec) d =
    (MkResponse 400 {[ "Content-Type" := "application/json; charset=utf-8" ]} (BError msg),
     MkWorld d ∅ [] {[ "Content-Type" := "application/json; charset=utf-8" ]} 0 []).
Proof. intros H. exec. rewrite H. reflexivity. Qed.

(** A spec that is accepted reaches the metadata store. *)
Lemma thumb_accepted_queries env id spec d width r w :
  parseSpec spec = inr width ->
  serve (GetPhotoThumbnail env id spec) d = (r, w) ->
  In (EvQuery id) (w_log w).
Proof.
  intros Hp. revert r w. exec. rewrite Hp. intros r w. revert r w. 
  intros r w. runs. all: cbn [In]; tauto.
Qed.


(** *** Statuses *)






(** With nothing cached, no source and no direct link, the thumbnail
    handler answers 503. *)
Lemma thumb_503 env id spec d width p :
  parseSpec spec = inr width -> pool env id = Some p ->
  d !! Localcache.ThumbPath (p_object_key p) spec = None ->
  no_source env d (p_object_key p) -> no_presign env (p_object_key p) ->
  fst (serve (GetPhotoThumbnail env id spec) d) =
    MkResponse 503 {[ "Content-Type" := "application/json; charset=utf-8" ]}
               (BError "source unavailable").
Proof.
  intros Hp Hrow Hthumb [Hsrc [e Hget]] [e' Hpre].
  destruct (serve (GetPhotoThumbnail env id spec) d) as [r w] eqn:E. revert E.
  runs; cbn [fst]; use_s3; simplify_eq; try reflexivity; try congruence.
  all: destruct Hsrc; congruence.
Qed.

(** *** The source is decoded, and what cannot be made is redirected *)








(** *** Cache directives *)

Ltac directive_leaf :=
  intros; simplify_eq; in_log; simplify_eq; hdr;
  first
    [ reflexivity
    | congruence
    | exfalso; match goal with H : ~ _ |- _ => apply H; log_has end
    | eexists; split; [reflexivity |];
      first [ left; split; [hdr; reflexivity | assumption]
            | right; split; [hdr; reflexivity |]; split; [reflexivity |];
              use_s3; eauto ] ].

Lemma thumb_directives env id spec d r w :
  serve (GetPhotoThumbnail env id spec) d = (r, w) -> directive_contract env id r w.
Proof.
  unfold directive_contract. runs.
  all: (split; [| split; [| split]]).
  all: try (intros; discriminate).
  all: try directive_leaf.
Qed.

Lemma photo_directives env id thumbnail d r w :
  serve (GetPhoto env id thumbnail) d = (r, w) -> directive_contract env id r w.
Proof.
  unfold directive_contract. runs.
  all: (split; [| split; [| split]]).
  all: try (intros; discriminate).
  all: try directive_leaf.
Qed.

(** *** The bytes that are decoded *)

Lemma decode_limit_pos : 0 <= decode_limit.
Proof. vm_compute. discriminate. Qed.

Ltac decode_leaf :=
  intros; in_log; simplify_eq;
  split;
  [ eapply ReadAll_LimitReader_length; [apply decode_limit_pos | eassumption]
  | intros; simplify_eq; use_s3;
    repeat match goal with
    | H : _ \/ _ |- _ => destruct H
    | H : _ /\ _ |- _ => destruct H
    | H : exists _, _ |- _ => destruct H
    end;
    simplify_eq; try congruence;
    match goal with
    | H : ReadAll (LimitReader _ _) = Some _ |- _ =>
        apply ReadAll_LimitReader_prefix in H; cbn [rd_data] in H
    end;
    congruence ].

Lemma thumb_decode_input env id spec d r w :
  serve (GetPhotoThumbnail env id spec) d = (r, w) -> decode_input_contract env id d w.
Proof.
  unfold decode_input_contract. runs.
  all: try (intros; in_log; fail).
  all: try decode_leaf.
Qed.

Lemma photo_decode_input env id thumbnail d r w :
  serve (GetPhoto env id thumbnail) d = (r, w) -> decode_input_contract env id d w.
Proof.
  unfold decode_input_contract. runs.
  all: try (intros; in_log; fail).
  all: try decode_leaf.
Qed.

Ltac long_leaf :=
  intros; simplify_eq; use_s3;
  repeat match goal with
  | H : _ \/ _ |- _ => destruct H
  | H : _ /\ _ |- _ => destruct H
  | H : exists _, _ |- _ => destruct H
  end;
  simplify_eq; try congruence; same_call;
  match goal with
  | H : ReadAll (LimitReader ?rd _) = _, L : decode_limit <= _ |- _ =>
      rewrite (ReadAll_LimitReader_long rd decode_limit) in H
        by (cbn [rd_data]; congruence || assumption);
      cbn [rd_data] in H
  end;
  simplify_eq; first [ log_has | congruence ].

Lemma thumb_long_source env id spec d r w width :
  serve (GetPhotoThumbnail env id spec) d = (r, w) ->
  parseSpec spec = inr width -> long_source_contract env id d spec w.
Proof.
  unfold long_source_contract. runs.
  all: try (intros; simplify_eq; congruence).
  all: try long_leaf.
Qed.

Lemma photo_long_source env id thumbnail d r w :
  serve (GetPhoto env id thumbnail) d = (r, w) ->
  0 < targetWidthOf env thumbnail ->
  long_source_contract env id d ("w" +:+ GoInt.Itoa (targetWidthOf env thumbnail)) w.
Proof.
  unfold long_source_contract. runs.
  all: try (intros; simplify_eq; first [congruence | lia]).
  all: try long_leaf.
Qed.

(** *** What is served for a decoded source *)

Ltac served_leaf :=
  intros; in_log; simplify_eq; same_call; try lia;
  cbv zeta;
  repeat match goal with
  | H : encodeThumb _ _ _ = _ |- _ => rewrite H
  end;
  hdr;
  first
    [ split; [reflexivity |]; left; split; [reflexivity | assumption]
    | split; [reflexivity |]; right; split; [reflexivity | congruence]
    | repeat split; reflexivity
    | congruence ].



Lemma thumb_resize env id spec d r w width :
  serve (GetPhotoThumbnail env id spec) d = (r, w) ->
  parseSpec spec = inr width -> resize_contract env width r w.
Proof.
  unfold resize_contract. runs.
  all: try (intros; in_log; simplify_eq; fail).
  all: try served_leaf.
Qed.


Lemma photo_resize env id thumbnail d r w :
  serve (GetPhoto env id thumbnail) d = (r, w) ->
  resize_contract env (targetWidthOf env thumbnail) r w.
Proof.
  unfold resize_contract. runs.
  all: try (intros; in_log; simplify_eq; fail).
  all: try served_leaf.
Qed.


Lemma serve_eta (h : M reply) d : serve h d = (fst (serve h d), snd (serve h d)).
Proof. now destruct (serve h d). Qed.

(** *** C7 *)

(** C7 on the code: the width is accumulated in a 64-bit [int], which
    wraps. The spec "w18446744073709551617" denotes 2^64 + 1, far above
    4096; the loop computes 1, the range check passes, the metadata store
    is queried whatever the environment, and with the thumbnail cached the
    request is answered 200. *)
Theorem thumb_spec_overflow_is_accepted :
  let spec := "w18446744073709551617" in
  let key := "photos/0199a1b2.png" in
  decimal_from 0 "18446744073709551617" = 2 ^ 64 + 1 /\
  parseSpec spec = inr 1 /\
  (forall env id d,
     In (EvQuery id) (w_log (snd (serve (GetPhotoThumbnail env id spec) d)))) /\
  status (fst (serve (GetPhotoThumbnail (Demo.env None Demo.store_down no_faults)
                        "0199a1b2" spec)
                     {[ Localcache.ThumbPath key spec := Demo.png_bytes ]})) = 200.
Proof.
  intros spec key. split; [vm_compute; reflexivity |].
  split; [vm_compute; reflexivity |]. split.
  - intros env id d. eapply (thumb_accepted_queries env id spec d 1);
      [vm_compute; reflexivity | apply serve_eta].
  - vm_compute. reflexivity.
Qed.

(** *** C1 *)




(** The 500 of [http.ServeFile]: a cached original that it cannot open
    is answered 500, and the directive that the handler has set is
    dropped. *)
Lemma unserved_original_is_500 :
  let env := Demo.unserved (Demo.env (Some Demo.uploader) Demo.store_presign_only no_faults) in
  let orig := Localcache.PhotoPath "photos/0199a1b2.png" in
  let r := fst (serve (GetPhoto env "0199a1b2" "original") {[ orig := Demo.png_bytes ]}) in
  status r = 500 /\ resp_body r = BServed orig [] /\ cache_control r = None.
Proof. vm_compute. repeat split; reflexivity. Qed.

(** *** C3 *)

(** C3, as the code has it. A file served from the local cache, and bytes
    that were saved to the cache, carry the long-lived immutable directive.
    Bytes that could not be saved (a resized thumbnail, or the original
    fetched again and streamed) and a redirect to a presigned direct link
    carry the short private directive. The redirect to the stored public
    URL, which [GetPhoto] falls back to when no direct link can be
    presigned, carries the long-lived immutable directive. *)
Theorem cache_directives env id d :
  (forall spec r w,
     serve (GetPhotoThumbnail env id spec) d = (r, w) -> directive_contract env id r w) /\
  (forall thumbnail r w,
     serve (GetPhoto env id thumbnail) d = (r, w) -> directive_contract env id r w).
Proof.
  split.
  - intros spec r w. apply thumb_directives.
  - intros thumbnail r w. apply photo_directives.
Qed.

Lemma cache_directives_witness :
  let env := Demo.env (Some Demo.uploader) Demo.store_presign_only no_faults in
  let r := fst (serve (GetPhoto env "0199a1b2" "original") ∅) in
  resp_body r = BRedirect "https://s3.example/photos/0199a1b2.png?sig" /\
  cache_control r = Some short_private.
Proof.
  intros env r. split; [vm_compute; reflexivity |].
  destruct (cache_directives env "0199a1b2" ∅) as [_ Hp].
  destruct (Hp "original" r (snd (serve (GetPhoto env "0199a1b2" "original") ∅))
              (serve_eta _ _)) as (_ & _ & _ & Hred).
  destruct (Hred "https://s3.example/photos/0199a1b2.png?sig") as (p & Hrow & Hcase);
    [vm_compute; reflexivity |].
  destruct Hcase as [[Hcc _] | [_ [_ [e He]]]]; [exact Hcc |].
  vm_compute in Hrow. injection Hrow as <-. vm_compute in He. discriminate He.
Defined.

(** C3 as stated fails: without a store client and with nothing cached,
    [GetPhoto] redirects to the stored public URL, and this redirect carries
    the long-lived immutable directive. *)
Lemma public_redirect_is_immutable :
  let env := Demo.env None Demo.store_down no_faults in
  let r := fst (serve (GetPhoto env "0199a1b2" "original") ∅) in
  status r = 302 /\
  resp_body r = BRedirect "https://cdn.example/photos/0199a1b2.png" /\
  cache_control r = Some "public, max-age=31536000, immutable".
Proof. vm_compute. repeat split; reflexivity. Qed.

(** An original that cannot be saved is fetched again and streamed. When
    that body breaks after its first bytes, the status 200 and the short
    private directive have gone out with them: the direct link is still
    presigned, but the redirect does not reach the client. *)
Lemma broken_copy_stays_200 :
  let body := Reader Demo.png_bytes true in
  let env := Demo.env (Some Demo.uploader) (Demo.store_with body) no_faults in
  let r := fst (serve (GetPhoto env "0199a1b2" "original") ∅) in
  let w := snd (serve (GetPhoto env "0199a1b2" "original") ∅) in
  status r = 200 /\ resp_body r = BBroken Demo.png_bytes /\
  cache_control r = Some short_private /\ headers r !! "Location" = None /\
  In (EvPresign "photos/0199a1b2.png") (w_log w).
Proof. vm_compute. repeat split; try reflexivity. tauto. Qed.

(** *** C5 *)

(** C5, as the code has it. The bytes handed to the decoder are bounded by
    32 MiB: they are the first [decode_limit] bytes of the source. A source
    of that size or larger is not turned away before decoding: it is cut at
    [decode_limit] bytes, and those are decoded. *)
Theorem decode_input_is_cut_not_rejected env id d :
  (forall spec r w,
     serve (GetPhotoThumbnail env id spec) d = (r, w) ->
     decode_input_contract env id d w /\
     (forall width, parseSpec spec = inr width -> long_source_contract env id d spec w)) /\
  (forall thumbnail r w,
     serve (GetPhoto env id thumbnail) d = (r, w) ->
     decode_input_contract env id d w /\
     (0 < targetWidthOf env thumbnail ->
      long_source_contract env id d ("w" +:+ GoInt.Itoa (targetWidthOf env thumbnail)) w)).
Proof.
  split.
  - intros spec r w E. split; [eapply thumb_decode_input; exact E |].
    intros width Hp. eapply thumb_long_source; eassumption.
  - intros thumbnail r w E. split; [eapply photo_decode_input; exact E |].
    intros Hp. eapply photo_long_source; eassumption.
Qed.

Lemma decode_input_is_cut_not_rejected_witness :
  let env := Demo.env (Some Demo.uploader) (Demo.store_with (bytes_reader Demo.png_bytes))
                      no_faults in
  Z.of_nat (length Demo.png_bytes) <= decode_limit.
Proof.
  intros env.
  destruct (decode_input_is_cut_not_rejected env "0199a1b2" ∅) as [Ht _].
  destruct (Ht "w200" _ _ (serve_eta _ _)) as [Hd _].
  destruct (Hd Demo.png_bytes) as [Hlen _]; [vm_compute; tauto |].
  exact Hlen.
Defined.

Lemma takeZ_cons {A : Type} (x : A) l n : 0 < n -> takeZ (x :: l) n = x :: takeZ l (n - 1).
Proof. intros H. cbn [takeZ]. destruct (n <=? 0) eqn:E; [lia | reflexivity]. Qed.

Lemma decode_limit_value : decode_limit = 33554432.
Proof. reflexivity. Qed.

(** A PNG followed by padding, [decode_limit] + 1 bytes in all, delivered
    by the store: it is cut, decoded and answered with a thumbnail. *)
Lemma padded_png_is_decoded (padding : list byte) :
  Z.of_nat (length padding) = decode_limit ->
  let src := x89 :: padding in
  let env := Demo.env (Some Demo.uploader) (Demo.store_with (bytes_reader src)) no_faults in
  let r := fst (serve (GetPhotoThumbnail env "0199a1b2" "w200") ∅) in
  let w := snd (serve (GetPhotoThumbnail env "0199a1b2" "w200") ∅) in
  Z.of_nat (length src) = decode_limit + 1 /\
  In (EvDecode (takeZ src decode_limit)) (w_log w) /\
  status r = 200.
Proof.
  intros Hpad src env r w.
  assert (Hlen : Z.of_nat (length src) = decode_limit + 1).
  { unfold src. cbn [length]. lia. }
  assert (Hp : parseSpec "w200" = inr 200) by (vm_compute; reflexivity).
  assert (Hrow : pool env "0199a1b2" = Some Demo.photo1) by reflexivity.
  assert (Hsrc : source_is env ∅ (p_object_key Demo.photo1) (bytes_reader src)).
  { right. split; [left; apply lookup_empty |]. exists "image/png". reflexivity. }
  assert (Hin : In (EvDecode (takeZ src decode_limit)) (w_log w)).
  { apply (thumb_long_source env "0199a1b2" "w200" ∅ r w 200 (serve_eta _ _) Hp
             Demo.photo1 (bytes_reader src) Hrow (lookup_empty _) Hsrc).
    cbn [rd_data bytes_reader]. lia. }
  split; [exact Hlen |]. split; [exact Hin |].
  pose proof (thumb_resize env "0199a1b2" "w200" ∅ r w 200 (serve_eta _ _) Hp
                (takeZ src decode_limit)
                (MkImage (Rect 0 0 1000 500) (fun _ _ => (0, 0, 0, 255))) "png" Hin) as H.
  assert (Hdec : Decode env (takeZ src decode_limit) =
                 Some (MkImage (Rect 0 0 1000 500) (fun _ _ => (0, 0, 0, 255)), "png")).
  { unfold src. rewrite takeZ_cons by (rewrite decode_limit_value; lia). reflexivity. }
  specialize (H Hdec ltac:(vm_compute; reflexivity)).
  cbv zeta in H.
  change (encodeThumb env "png"
            (nearest (MkImage (Rect 0 0 1000 500) (fun _ _ => (0, 0, 0, 255))) 200
               (scaledHeight (Rect 0 0 1000 500) 200)))
    with (Some (x89 :: Demo.dims
                  (nearest (MkImage (Rect 0 0 1000 500) (fun _ _ => (0, 0, 0, 255))) 200
                     (scaledHeight (Rect 0 0 1000 500) 200)), "image/png")) in H.
  exact (proj1 H).
Qed.

(** C5 as stated fails: a source one byte longer than 32 MiB, a PNG
    followed by padding, is cut at 32 MiB, decoded and answered with a
    thumbnail. *)
Lemma oversized_source_is_decoded :
  let src := x89 :: repeat x00 (Z.to_nat decode_limit) in
  let env := Demo.env (Some Demo.uploader) (Demo.store_with (bytes_reader src)) no_faults in
  let r := fst (serve (GetPhotoThumbnail env "0199a1b2" "w200") ∅) in
  let w := snd (serve (GetPhotoThumbnail env "0199a1b2" "w200") ∅) in
  Z.of_nat (length src) = decode_limit + 1 /\
  In (EvDecode (takeZ src decode_limit)) (w_log w) /\
  status r = 200.
Proof.
  apply (padded_png_is_decoded (repeat x00 (Z.to_nat decode_limit))).
  rewrite repeat_length. apply Z2Nat.id, decode_limit_pos.
Qed.

(** *** C6 *)





(** *** C2 *)

Lemma scaledHeight_pos b width : 1 <= scaledHeight b width.
Proof. unfold scaledHeight. destruct (_ <=? 0) eqn:E; [lia |]. apply Z.leb_gt in E. lia. Qed.

(** C2 as stated fails: a source of 1000x999 pixels asked for at width 100
    gets the height 99, the product 99.9 cut off, where rounding gives 100. *)
Lemma height_is_not_rounded :
  scaledHeight (Rect 0 0 1000 999) 100 = 99 /\
  rounded_height 1000 999 100 = 100 /\
  let env := Demo.env (Some Demo.uploader)
                      (Demo.store_with (bytes_reader [x42; x4d])) no_faults in
  resp_body (fst (serve (GetPhotoThumbnail env "0199a1b2" "w100") ∅)) =
    BData (xff :: list_byte_of_string "100x99").
Proof. vm_compute. repeat split; reflexivity. Qed.

(** When the exact quotient is an integer the two roundings can lose it: a
    source of 10x90 pixels asked for at width 7 gets the height 62, where
    90 * 7 / 10 = 63. *)
Lemma exact_quotient_can_lose_one :
  scaledHeight (Rect 0 0 10 90) 7 = 62 /\ (90 * 7) mod 10 = 0 /\ 90 * 7 / 10 = 63.
Proof. vm_compute. repeat split; reflexivity. Qed.

(** C2, as the code has it. When the source is wider than the requested
    width, the image that is encoded has the requested width and the height
    [scaledHeight]. For widths below [2 ^ 53] and [nativeHeight *
    requestedWidth] below [2 ^ 51] that height is the quotient
    [nativeHeight * requestedWidth / nativeWidth] with its fraction cut off
    (not rounded), and at least 1; when the quotient is an integer the
    height is that integer or one less, the ratio of the widths being
    rounded before it is multiplied. A source of 1000x500 pixels asked for
    at width 200 gets the height 100. *)
Theorem thumbnail_height_is_truncated env id d :
  (forall spec width r w,
     serve (GetPhotoThumbnail env id spec) d = (r, w) -> parseSpec spec = inr width ->
     resize_contract env width r w) /\
  (forall thumbnail r w,
     serve (GetPhoto env id thumbnail) d = (r, w) ->
     resize_contract env (targetWidthOf env thumbnail) r w) /\
  (forall b width,
     0 < width < Dx b -> Dx b < 2 ^ 53 -> 0 <= Dy b -> Dy b * width < 2 ^ 51 ->
     1 <= scaledHeight b width /\
     ((Dy b * width) mod Dx b <> 0 ->
      scaledHeight b width = Z.max 1 (Dy b * width / Dx b)) /\
     ((Dy b * width) mod Dx b = 0 ->
      scaledHeight b width = Z.max 1 (Dy b * width / Dx b) \/
      scaledHeight b width = Z.max 1 (Dy b * width / Dx b - 1))) /\
  scaledHeight (Rect 0 0 1000 500) 200 = 100.
Proof.
  split; [| split; [| split]].
  - intros spec width r w E Hp. eapply thumb_resize; eassumption.
  - intros thumbnail r w E. eapply photo_resize; eassumption.
  - intros b width Hw HW HH HA. split; [apply scaledHeight_pos |].
    apply scaledHeight_value; lia.
  - vm_compute. reflexivity.
Qed.

Lemma thumbnail_height_is_truncated_witness :
  let env := Demo.env (Some Demo.uploader) (Demo.store_with (bytes_reader Demo.png_bytes))
                      no_faults in
  let r := fst (serve (GetPhotoThumbnail env "0199a1b2" "w200") ∅) in
  resp_body r = BData (x89 :: list_byte_of_string "200x100") /\
  scaledHeight (Rect 0 0 1000 999) 100 = 99.
Proof.
  intros env r.
  destruct (thumbnail_height_is_truncated env "0199a1b2" ∅) as (Ht & _ & Hh & _).
  split.
  - pose proof (Ht "w200" 200 r _ (serve_eta _ _) ltac:(vm_compute; reflexivity)
                  Demo.png_bytes
                  (MkImage (Rect 0 0 1000 500) (fun _ _ => (0, 0, 0, 255))) "png"
                  ltac:(vm_compute; tauto) ltac:(reflexivity)
                  ltac:(vm_compute; reflexivity)) as H.
    vm_compute in H. destruct H as (_ & H & _). exact H.
  - destruct (Hh (Rect 0 0 1000 999) 100) as (_ & Hcut & _).
    + split; reflexivity.
    + reflexivity.
    + discriminate.
    + reflexivity.
    + apply Hcut. discriminate.
Defined.

End RetrievalClaims.

(* ===================================================================== *)
(** * Further properties of the code *)
(* ===================================================================== *)

(** ** internal/localcache *)

Section LocalcacheFacts.

Import Localcache.

Lemma Save_no_faults_disk pid path data d :
  Save pid no_faults path (bytes_reader data) d =
    (<[path := data]> (delete (tmp_name path pid) d), None).
Proof.
  unfold Save, MkdirAll, Create, Copy, Close, Rename, no_faults, bytes_reader.
  cbn [f_mkdir f_create f_write f_close f_rename rd_data rd_err].
  rewrite lookup_insert_eq, !delete_insert_eq. reflexivity.
Qed.

(** X1. A [Save] that runs alone: no call of another writer reaches the
    disk between its calls (two writers of one process share the temporary
    name, and interleaved they spoil each other's file). Without a fault in
    the file system such a [Save] of bytes held in memory succeeds: the
    destination holds exactly these bytes, whatever it held before; the
    temporary file is gone, and so is any file that had its name; no other
    file changes. *)
Theorem Save_writes_destination pid path data d :
  Save pid no_faults path (bytes_reader data) d =
    (<[path := data]> (delete (tmp_name path pid) d), None) /\
  Exists path (<[path := data]> (delete (tmp_name path pid) d)) = true /\
  Exists (tmp_name path pid) (<[path := data]> (delete (tmp_name path pid) d)) = false.
Proof.
  pose proof (tmp_name_ne_path path pid) as Hne.
  split; [apply Save_no_faults_disk | split].
  - unfold Exists. apply bool_decide_eq_true. rewrite lookup_insert_eq. eauto.
  - unfold Exists. apply bool_decide_eq_false.
    rewrite lookup_insert_ne, lookup_delete_eq by congruence. intros [? ?]. discriminate.
Qed.

(** X2. A [Save] that runs alone, no call of another writer reaching the
    disk between its calls, reports success only for a complete copy: when
    it returns nil, whatever faults the file system has, the reader was
    read to its end without an error, the destination holds all of its
    bytes and the temporary file is gone. *)
Theorem Save_success_is_complete pid fl path r d d' :
  Save pid fl path r d = (d', None) ->
  rd_err r = false /\ d' !! path = Some (rd_data r) /\ d' !! tmp_name path pid = None /\
  Exists path d' = true.
Proof.
  intros H. apply Save_ok in H as (H1 & H2 & H3).
  repeat split; try assumption.
  unfold Exists. apply bool_decide_eq_true. rewrite H1. eauto.
Qed.

Lemma Save_success_is_complete_witness :
  let fl := Faults false false (Some 10) false false false in
  let d' := fst (Save 4242 fl "a.jpg" (bytes_reader [x0a; x0b]) {[ "a.jpg" := [x01] ]}) in
  d' !! "a.jpg" = Some [x0a; x0b] /\ Exists "a.jpg" d' = true.
Proof.
  intros fl d'.
  destruct (Save_success_is_complete 4242 fl "a.jpg" (bytes_reader [x0a; x0b])
              {[ "a.jpg" := [x01] ]} d') as (_ & H1 & _ & H2); [vm_compute; reflexivity |].
  split; assumption.
Defined.

(** X3. [Save] touches two names only, the destination and its temporary
    sibling: every other file is as before, whether [Save] succeeds or
    fails, and whatever fails. *)
Theorem Save_touches_two_names pid fl path r d other :
  other <> path -> other <> tmp_name path pid ->
  fst (Save pid fl path r d) !! other = d !! other.
Proof.
  intros Hp Ht. destruct (Save pid fl path r d) as [d' res] eqn:E.
  cbn [fst]. eapply Save_frame; eassumption.
Qed.

Lemma Save_touches_two_names_witness :
  let fl := Faults false false (Some 1) false false true in
  fst (Save 4242 fl "a.jpg" (bytes_reader [x0a; x0b]) {[ "b.jpg" := [x01] ]}) !! "b.jpg" =
    Some [x01].
Proof.
  intros fl.
  rewrite (Save_touches_two_names 4242 fl "a.jpg" (bytes_reader [x0a; x0b])
             {[ "b.jpg" := [x01] ]} "b.jpg"); [reflexivity | discriminate | discriminate].
Defined.

(** X4. The path of a cached original never leaves the cache directory,
    whatever the object key is: it is [.cache/photos/<shard>/<name>] with a
    shard of two characters and a name that is one plain path element, or,
    for a key whose last element is "..", the directory [.cache/photos]
    itself. *)
Theorem PhotoPath_stays_in_cache k :
  PhotoPath k = ".cache/photos" /\ Filepath.Base k = ".." \/
  exists shard name,
    PhotoPath k = ".cache/photos/" +:+ shard +:+ "/" +:+ name /\
    String.length shard = 2%nat /\
    Filepath.is_segment shard = true /\ Filepath.is_segment name = true.
Proof.
  rewrite PhotoPath_closed.
  destruct (filename_cases k) as [Hseg | Hdd].
  - right. exists (substring 0 2 (hexsum k)), (filename k).
    destruct (String.eqb (filename k) "..") eqn:E.
    + apply String.eqb_eq in E. rewrite E in Hseg. discriminate.
    + split; [reflexivity |]. split; [| split; [apply shard_segment | exact Hseg]].
      destruct (shard_shape k) as [b ->]. reflexivity.
  - left. rewrite Hdd. split; [reflexivity |].
    unfold filename in Hdd.
    destruct (String.eqb (Filepath.Base k) "." || String.eqb (Filepath.Base k) "/"
              || String.eqb (Filepath.Base k) "") eqn:E; [| exact Hdd].
    pose proof (hexsum_segment k) as Hs. rewrite Hdd in Hs. discriminate.
Qed.

End LocalcacheFacts.

(** ** internal/storage *)

Section StorageFacts.

Import Storage.

Lemma TrimLeftSlash_no_prefix s : Strings.HasPrefix (TrimLeftSlash s) "/" = false.
Proof.
  induction s as [|c s IH]; [reflexivity |].
  cbn [TrimLeftSlash]. unfold Filepath.is_sep.
  destruct (Ascii.eqb c "/") eqn:E; [exact IH |].
  cbn [Strings.HasPrefix]. rewrite Ascii.eqb_sym, E. reflexivity.
Qed.

Lemma strip_trailing_no_suffix s b : Filepath.strip_trailing s <> b +:+ "/".
Proof.
  revert b. induction s as [|c s IH]; intros b; cbn [Filepath.strip_trailing].
  - destruct b; discriminate.
  - destruct (Filepath.strip_trailing s) as [|c' t] eqn:E.
    + destruct (Filepath.is_sep c) eqn:Ec.
      * destruct b; discriminate.
      * destruct b as [|c0 b]; cbn.
        -- intros [= ->]. discriminate.
        -- destruct b; discriminate.
    + destruct b as [|c0 b]; [discriminate |].
      rewrite str_app_cons. intros [= -> H]. now apply (IH b).
Qed.

(** X5. What [Upload] does to the bucket. When it fails the bucket is as it
    was. When it succeeds the key returned is the key given, the uploader
    is set up and the key is not empty; only the object at that key changes,
    and its body is the beginning of the stream, cut after [maxBytes + 1]
    bytes. *)
Theorem Upload_changes_one_object u be key r contentType objs :
  match Upload u be key r contentType objs with
  | (objs', inl _) => objs' = objs
  | (objs', inr (_, objKey)) =>
      objKey = key /\ key <> "" /\
      exists u', u = Some u' /\ client u' = true /\
        objs' = <[key := (takeZ (rd_data r) (GoInt.add (maxBytes u') 1), contentType)]> objs
  end.
Proof.
  unfold Upload. destruct u as [u' |]; [| reflexivity].
  destruct (client u') eqn:Hc; cbn [negb]; [| reflexivity].
  destruct (String.eqb key "") eqn:Hk; [reflexivity |].
  destruct (ReadAll (LimitReader r (GoInt.add (maxBytes u') 1))) as [body |] eqn:Hb;
    [| reflexivity].
  destruct (be_put_err be); [reflexivity |].
  apply ReadAll_LimitReader_prefix in Hb. subst body.
  apply String.eqb_neq in Hk. eauto 10.
Qed.

(** X6. A body of at most [maxBytes + 1] bytes, one more than the configured
    ceiling, is stored whole. *)
Theorem Upload_within_limit_stores_all u be key r contentType objs :
  client u = true -> key <> "" -> be_put_err be = false -> rd_err r = false ->
  0 <= maxBytes u < GoInt.max_int ->
  Z.of_nat (length (rd_data r)) <= maxBytes u + 1 ->
  exists url,
    Upload (Some u) be key r contentType objs =
      (<[key := (rd_data r, contentType)]> objs, inr (url, key)).
Proof.
  intros Hc Hk Hput Herr Hmax Hlen. unfold Upload.
  rewrite Hc. cbn [negb]. apply String.eqb_neq in Hk. rewrite Hk.
  unfold GoInt.add. rewrite wrap_small by (unfold GoInt.min_int, GoInt.max_int in *; lia).
  unfold ReadAll, LimitReader.
  destruct (shorter (rd_data r) (maxBytes u + 1)) eqn:E.
  - rewrite Herr, Hput. eauto.
  - cbn [rd_err rd_data]. rewrite Hput, takeZ_all by assumption. eauto.
Qed.

Lemma Upload_within_limit_stores_all_witness :
  let u := MkUploader true "bucket" "https://cdn.example/" 4 in
  let body := [x89; x50; x4e; x47; x0d] in
  exists url,
    Upload (Some u) (Demo.store_with (bytes_reader [])) "photos/0199ffff.png"
           (bytes_reader body) "image/png" ∅ =
      (<["photos/0199ffff.png" := (body, "image/png")]> ∅, inr (url, "photos/0199ffff.png")).
Proof.
  intros u body.
  apply (Upload_within_limit_stores_all u (Demo.store_with (bytes_reader []))
           "photos/0199ffff.png" (bytes_reader body) "image/png" ∅).
  - reflexivity.
  - discriminate.
  - reflexivity.
  - reflexivity.
  - vm_compute. split; [discriminate | reflexivity].
  - vm_compute. discriminate.
Defined.

Lemma TrimLeftSlash_split s :
  exists head,
    s = head +:+ TrimLeftSlash s /\
    forallb Filepath.is_sep (list_ascii_of_string head) = true.
Proof.
  induction s as [|c s (head & IH & Hh)]; [exists ""; split; reflexivity |].
  cbn [TrimLeftSlash]. destruct (Filepath.is_sep c) eqn:E.
  - exists (String c head). rewrite str_app_cons. split; [now f_equal |].
    cbn. now rewrite E.
  - exists "". split; reflexivity.
Qed.

Lemma strip_trailing_split s :
  exists tail,
    s = Filepath.strip_trailing s +:+ tail /\
    forallb Filepath.is_sep (list_ascii_of_string tail) = true.
Proof.
  induction s as [|c s (tail & IH & Ht)]; [exists ""; split; reflexivity |].
  cbn [Filepath.strip_trailing].
  destruct (Filepath.strip_trailing s) as [|c' t] eqn:E.
  - rewrite str_app_nil_l in IH. subst s.
    destruct (Filepath.is_sep c) eqn:Ec.
    + exists (String c tail). rewrite str_app_nil_l. split; [reflexivity |].
      cbn. now rewrite Ec.
    + exists tail. split; [reflexivity | exact Ht].
  - exists tail. rewrite str_app_cons. split; [now f_equal | exact Ht].
Qed.

(** X7. The URL of a stored object. With a base URL it is the base without
    the slashes at its end, one slash, and the key without the slashes at
    its head: the joint never doubles. Without a base URL it is the
    location the store reports. *)
Theorem Upload_url_joint u be key r contentType objs objs' url objKey :
  Upload u be key r contentType objs = (objs', inr (url, objKey)) ->
  exists u', u = Some u' /\
    if String.eqb (baseURL u') "" then url = be_location be
    else exists base tail head rest,
      url = base +:+ "/" +:+ rest /\
      baseURL u' = base +:+ tail /\
      forallb Filepath.is_sep (list_ascii_of_string tail) = true /\
      (forall b, base <> b +:+ "/") /\
      key = head +:+ rest /\
      forallb Filepath.is_sep (list_ascii_of_string head) = true /\
      Strings.HasPrefix rest "/" = false.
Proof.
  unfold Upload. destruct u as [u' |]; [| discriminate].
  destruct (client u'); cbn [negb]; [| discriminate].
  destruct (String.eqb key ""); [discriminate |].
  destruct (ReadAll _); [| discriminate].
  destruct (be_put_err be); [discriminate |].
  intros [= _ <- _]. exists u'. split; [reflexivity |].
  destruct (String.eqb (baseURL u') ""); cbn [negb]; [reflexivity |].
  destruct (strip_trailing_split (baseURL u')) as (tail & Hb & Ht).
  destruct (TrimLeftSlash_split key) as (head & Hk & Hh).
  exists (TrimRightSlash (baseURL u')), tail, head, (TrimLeftSlash key).
  split; [reflexivity |]. split; [exact Hb |]. split; [exact Ht |].
  split; [apply strip_trailing_no_suffix |]. split; [exact Hk |].
  split; [exact Hh | apply TrimLeftSlash_no_prefix].
Qed.

Lemma Upload_url_joint_witness :
  let u := MkUploader true "bucket" "https://cdn.example//" 10485760 in
  exists base tail head rest,
    "https://cdn.example/photos/0199ffff.png" = base +:+ "/" +:+ rest /\
    "https://cdn.example//" = base +:+ tail /\
    (forall b, base <> b +:+ "/") /\
    "/photos/0199ffff.png" = head +:+ rest /\
    Strings.HasPrefix rest "/" = false.
Proof.
  intros u.
  destruct (Upload_url_joint (Some u) (Demo.store_with (bytes_reader []))
              "/photos/0199ffff.png" (bytes_reader [x89]) "image/png" ∅
              {[ "/photos/0199ffff.png" := ([x89], "image/png") ]}
              "https://cdn.example/photos/0199ffff.png" "/photos/0199ffff.png")
    as (u' & Hu & H); [vm_compute; reflexivity |].
  injection Hu as <-. cbn in H.
  destruct H as (base & tail & head & rest & H1 & H2 & _ & H4 & H5 & _ & H7).
  exists base, tail, head, rest. auto.
Defined.

End StorageFacts.

(** ** internal/handlers: retrieval *)

Section RetrievalFacts.

Import Handlers Image Contracts.

Lemma Exists_hit path (d : disk) content :
  d !! path = Some content -> Localcache.Exists path d = true.
Proof. intros H. unfold Localcache.Exists. apply bool_decide_eq_true. rewrite H. eauto. Qed.

(** A cached thumbnail is all the thumbnail handler needs: it hands the
    file to [http.ServeFile]. *)
Lemma thumb_cache_hit env id spec width d p content :
  parseSpec spec = inr width -> pool env id = Some p ->
  let thumb := Localcache.ThumbPath (p_object_key p) spec in
  d !! thumb = Some content ->
  serve (GetPhotoThumbnail env id spec) d =
    (MkResponse (fst (file_reply env thumb content))
       (file_headers env thumb content {[ "Cache-Control" := immutable ]})
       (snd (file_reply env thumb content)),
     MkWorld d ∅ [] (file_headers env thumb content {[ "Cache-Control" := immutable ]}) 0
       [EvStat thumb; EvQuery id]).
Proof.
  intros Hs Hp thumb Hd. subst thumb. exec. rewrite Hs, Hp. cbv beta iota zeta.
  rewrite (Exists_hit _ _ _ Hd), Hd.
  destruct (ServeFile env _ content); reflexivity.
Qed.

Lemma photo_cache_hit env id thumbnail d p content :
  0 < targetWidthOf env thumbnail -> pool env id = Some p ->
  let thumb := Localcache.ThumbPath (p_object_key p)
                 ("w" +:+ GoInt.Itoa (targetWidthOf env thumbnail)) in
  d !! thumb = Some content ->
  serve (GetPhoto env id thumbnail) d =
    (MkResponse (fst (file_reply env thumb content))
       (file_headers env thumb content {[ "Cache-Control" := immutable ]})
       (snd (file_reply env thumb content)),
     MkWorld d ∅ [] (file_headers env thumb content {[ "Cache-Control" := immutable ]}) 0
       [EvStat thumb; EvQuery id]).
Proof.
  intros Hw Hp thumb Hd. subst thumb. exec. rewrite Hp. cbv beta iota zeta.
  apply Z.ltb_lt in Hw. rewrite Hw.
  rewrite (Exists_hit _ _ _ Hd), Hd.
  destruct (ServeFile env _ content); reflexivity.
Qed.

(** X8. An id the metadata store does not know is answered 404 by both
    handlers, after that one query: the cache is not looked at, the object
    store is not called and the disk is as before. *)
Theorem unknown_id_is_404 env id d :
  pool env id = None ->
  let not_found :=
    (MkResponse 404 {[ "Content-Type" := "application/json; charset=utf-8" ]}
       (BError "not found"),
     MkWorld d ∅ [] {[ "Content-Type" := "application/json; charset=utf-8" ]} 0
       [EvQuery id]) in
  (forall spec width, parseSpec spec = inr width ->
     serve (GetPhotoThumbnail env id spec) d = not_found) /\
  (forall thumbnail, serve (GetPhoto env id thumbnail) d = not_found).
Proof.
  intros Hp not_found. split.
  - intros spec width Hs. exec. rewrite Hs, Hp. reflexivity.
  - intros thumbnail. exec. rewrite Hp. reflexivity.
Qed.

Lemma unknown_id_is_404_witness :
  status (fst (serve (GetPhoto (Demo.env None Demo.store_down no_faults) "nobody" "small")
                 ∅)) = 404.
Proof.
  destruct (unknown_id_is_404 (Demo.env None Demo.store_down no_faults) "nobody" ∅)
    as [_ H]; [reflexivity |].
  rewrite (H "small"). reflexivity.
Defined.

(** X9. A thumbnail that is in the cache is served from there by both
    handlers: the long-lived directive is set and the file is handed to
    [http.ServeFile], and the reply is the one [http.ServeFile] gives for
    it: 200 with the bytes of the file and the directive when it sends the
    whole file, as for a plain GET of a file that opens. Nothing but the
    metadata query and the look at the cache happens: the object store is
    not called, nothing is decoded or saved. *)
Theorem cached_thumbnail_needs_no_store env id d p content :
  pool env id = Some p ->
  (forall spec width,
     parseSpec spec = inr width ->
     let thumb := Localcache.ThumbPath (p_object_key p) spec in
     d !! thumb = Some content ->
     serve (GetPhotoThumbnail env id spec) d =
       (MkResponse (fst (file_reply env thumb content))
          (file_headers env thumb content {[ "Cache-Control" := immutable ]})
          (snd (file_reply env thumb content)),
        MkWorld d ∅ [] (file_headers env thumb content {[ "Cache-Control" := immutable ]}) 0
          [EvStat thumb; EvQuery id])) /\
  (forall thumbnail,
     0 < targetWidthOf env thumbnail ->
     let thumb := Localcache.ThumbPath (p_object_key p)
                    ("w" +:+ GoInt.Itoa (targetWidthOf env thumbnail)) in
     d !! thumb = Some content ->
     serve (GetPhoto env id thumbnail) d =
       (MkResponse (fst (file_reply env thumb content))
          (file_headers env thumb content {[ "Cache-Control" := immutable ]})
          (snd (file_reply env thumb content)),
        MkWorld d ∅ [] (file_headers env thumb content {[ "Cache-Control" := immutable ]}) 0
          [EvStat thumb; EvQuery id])).
Proof.
  intros Hp. split.
  - intros spec width Hs thumb Hd. eapply thumb_cache_hit; eassumption.
  - intros thumbnail Hw thumb Hd. now apply photo_cache_hit.
Qed.

Lemma cached_thumbnail_needs_no_store_witness :
  let env := Demo.env None Demo.store_down no_faults in
  let thumb := Localcache.ThumbPath "photos/0199a1b2.png" "w300" in
  let r := fst (serve (GetPhotoThumbnail env "0199a1b2" "w300")
                  {[ thumb := Demo.png_bytes ]}) in
  status r = 200 /\ resp_body r = BFile thumb Demo.png_bytes /\
  cache_control r = Some immutable.
Proof.
  intros env thumb r.
  destruct (cached_thumbnail_needs_no_store env "0199a1b2" {[ thumb := Demo.png_bytes ]}
              Demo.photo1 Demo.png_bytes) as [H _]; [reflexivity |].
  unfold r. rewrite (H "w300" 300); [repeat split; reflexivity | reflexivity |].
  vm_compute. reflexivity.
Defined.

Lemma immutable_thumbnail_is_cached env id spec d r w :
  serve (GetPhotoThumbnail env id spec) d = (r, w) ->
  status r = 200 -> cache_control r = Some immutable ->
  exists p content width,
    pool env id = Some p /\ parseSpec spec = inr width /\
    (resp_body r = BData content \/
     resp_body r = BFile (Localcache.ThumbPath (p_object_key p) spec) content) /\
    w_disk w !! Localcache.ThumbPath (p_object_key p) spec = Some content.
Proof.
  runs.
  all: intros Hst Hcc; try discriminate Hst;
    try (revert Hcc; hdr; discriminate);
    try match goal with st : file_status |- _ => destruct st; discriminate Hst end.
  all: eexists _, _, _; split; [reflexivity |]; split; [reflexivity |];
    (split; [first [left; reflexivity | right; reflexivity] |]); assumption.
Qed.

(** X10. With one request at work on a cache entry at a time (two that write
    the same entry at once share the temporary file): the bytes of a 200
    reply that carries the long-lived directive are in the cache when the
    request ends, under the thumbnail's path, and the same request made
    again finds them there: it hands that file to [http.ServeFile] with
    the long-lived directive and asks nothing of the object store,
    whatever has become of it. *)
Theorem immutable_thumbnail_is_repeatable env id spec d r w :
  serve (GetPhotoThumbnail env id spec) d = (r, w) ->
  status r = 200 -> cache_control r = Some immutable ->
  exists p content,
    pool env id = Some p /\
    let thumb := Localcache.ThumbPath (p_object_key p) spec in
    (resp_body r = BData content \/ resp_body r = BFile thumb content) /\
    w_disk w !! thumb = Some content /\
    forall env',
      pool env' id = Some p ->
      serve (GetPhotoThumbnail env' id spec) (w_disk w) =
        (MkResponse (fst (file_reply env' thumb content))
           (file_headers env' thumb content {[ "Cache-Control" := immutable ]})
           (snd (file_reply env' thumb content)),
         MkWorld (w_disk w) ∅ []
           (file_headers env' thumb content {[ "Cache-Control" := immutable ]}) 0
           [EvStat thumb; EvQuery id]).
Proof.
  intros E Hst Hcc.
  destruct (immutable_thumbnail_is_cached env id spec d r w E Hst Hcc)
    as (p & content & width & Hp & Hs & Hbody & Hdisk).
  exists p, content. split; [exact Hp |]. cbv zeta.
  split; [exact Hbody |]. split; [exact Hdisk |].
  intros env' Hp'. eapply thumb_cache_hit; eassumption.
Qed.

Lemma immutable_thumbnail_is_repeatable_witness :
  let env := Demo.env (Some Demo.uploader) (Demo.store_with (bytes_reader Demo.png_bytes))
                      no_faults in
  let env' := Demo.env None Demo.store_down no_faults in
  let w := snd (serve (GetPhotoThumbnail env "0199a1b2" "w200") ∅) in
  resp_body (fst (serve (GetPhotoThumbnail env' "0199a1b2" "w200") (w_disk w))) =
    BFile (Localcache.ThumbPath "photos/0199a1b2.png" "w200")
          (x89 :: list_byte_of_string "200x100").
Proof.
  intros env env' w.
  destruct (immutable_thumbnail_is_repeatable env "0199a1b2" "w200" ∅ _ w (serve_eta _ _))
    as (p & content & Hp & Hbody & Hdisk & Hnext);
    [vm_compute; reflexivity | vm_compute; reflexivity |].
  vm_compute in Hp. injection Hp as <-.
  rewrite (Hnext env' eq_refl). cbn [fst resp_body]. unfold file_reply.
  cbn [ServeFile env' Demo.env snd]. f_equal.
  vm_compute in Hdisk. injection Hdisk as <-. reflexivity.
Defined.


(** Frame facts of every [Save] met so far are kept. *)
Ltac keep_frames :=
  repeat match goal with
  | H : Localcache.Save ?pid ?fl ?path ?r ?d = (?d', ?res) |- _ =>
      lazymatch goal with
      | F : forall other, other <> path -> other <> _ -> d' !! other = d !! other |- _ =>
          fail
      | _ => pose proof (fun other => Save_frame pid fl path r d d' res other H)
      end
  end.

Ltac step_frame :=
  lazymatch goal with
  | |- ?t = _ -> _ => let h := waiting_for t in destruct h eqn:?
  end; cbv beta iota zeta; keep_frames; tidy.

Ltac runs_frame :=
  exec; repeat step_frame;
  let H := fresh in intros H; injection H as <- <-;
  cbv [Handlers.status Handlers.headers Handlers.resp_body Handlers.cache_control
       Handlers.w_disk Handlers.w_log].

Lemma thumb_frame env id spec d r w other :
  serve (GetPhotoThumbnail env id spec) d = (r, w) ->
  (forall p, pool env id = Some p ->
     other <> Localcache.ThumbPath (p_object_key p) spec /\
     other <> Localcache.tmp_name (Localcache.ThumbPath (p_object_key p) spec) (pid env)) ->
  w_disk w !! other = d !! other.
Proof.
  runs_frame.
  all: intros Hother; try reflexivity.
  all: destruct (Hother _ eq_refl) as [H1 H2]; auto.
Qed.

Lemma photo_frame env id thumbnail d r w other :
  serve (GetPhoto env id thumbnail) d = (r, w) ->
  (forall p, pool env id = Some p ->
     let thumb := Localcache.ThumbPath (p_object_key p)
                    ("w" +:+ GoInt.Itoa (targetWidthOf env thumbnail)) in
     let orig := Localcache.PhotoPath (p_object_key p) in
     other <> thumb /\ other <> Localcache.tmp_name thumb (pid env) /\
     other <> orig /\ other <> Localcache.tmp_name orig (pid env)) ->
  w_disk w !! other = d !! other.
Proof.
  runs_frame.
  all: intros Hother; try reflexivity.
  all: destruct (Hother _ eq_refl) as (H1 & H2 & H3 & H4); auto.
Qed.

(** A temporary file of the thumbnails is no cached original. *)
Lemma thumb_tmp_ne_PhotoPath k k' spec pid :
  Filepath.is_segment spec = true ->
  Localcache.tmp_name (Localcache.ThumbPath k spec) pid <> Localcache.PhotoPath k'.
Proof.
  intros H. unfold Localcache.tmp_name.
  rewrite ThumbPath_closed, PhotoPath_closed by assumption.
  destruct (String.eqb (Localcache.filename k) ".."),
           (String.eqb (Localcache.filename k') "..");
    rewrite ?str_app_assoc, ?str_app_cons; try discriminate.
  all: intros E; repeat (injection E as _ E); try discriminate.
Qed.

(** X11. The retrieval handlers write to the cache entries of the photo asked
    for and to nothing else. A thumbnail request changes no file but the
    thumbnail of that photo and spec and the temporary file beside it; in
    particular it changes no cached original. A request to [GetPhoto]
    changes no file but the thumbnail or the original of that photo and
    their temporary files. *)
Theorem retrieval_writes_its_cache_entry_only env id d :
  (forall spec r w other,
     serve (GetPhotoThumbnail env id spec) d = (r, w) ->
     (forall p, pool env id = Some p ->
        other <> Localcache.ThumbPath (p_object_key p) spec /\
        other <> Localcache.tmp_name (Localcache.ThumbPath (p_object_key p) spec)
                   (pid env)) ->
     w_disk w !! other = d !! other) /\
  (forall spec r w k,
     serve (GetPhotoThumbnail env id spec) d = (r, w) ->
     w_disk w !! Localcache.PhotoPath k = d !! Localcache.PhotoPath k) /\
  (forall thumbnail r w other,
     serve (GetPhoto env id thumbnail) d = (r, w) ->
     (forall p, pool env id = Some p ->
        let thumb := Localcache.ThumbPath (p_object_key p)
                       ("w" +:+ GoInt.Itoa (targetWidthOf env thumbnail)) in
        let orig := Localcache.PhotoPath (p_object_key p) in
        other <> thumb /\ other <> Localcache.tmp_name thumb (pid env) /\
        other <> orig /\ other <> Localcache.tmp_name orig (pid env)) ->
     w_disk w !! other = d !! other).
Proof.
  split; [| split].
  - intros spec r w other. apply thumb_frame.
  - intros spec r w k E.
    destruct (parseSpec spec) as [msg | width] eqn:Hs.
    + rewrite (thumb_rejected env id spec d msg Hs) in E. injection E as _ <-. reflexivity.
    + apply parseSpec_segment in Hs.
      eapply thumb_frame; [exact E |]. intros p _. split.
      * intros Heq. symmetry in Heq. revert Heq. now apply ThumbPath_ne_PhotoPath.
      * intros Heq. symmetry in Heq. revert Heq. now apply thumb_tmp_ne_PhotoPath.
  - intros thumbnail r w other. apply photo_frame.
Qed.

Lemma retrieval_writes_its_cache_entry_only_witness :
  let env := Demo.env (Some Demo.uploader) (Demo.store_with (bytes_reader Demo.png_bytes))
                      no_faults in
  let orig := Localcache.PhotoPath "photos/0199a1b2.png" in
  let d : disk := {[ orig := Demo.png_bytes ]} in
  w_disk (snd (serve (GetPhotoThumbnail env "0199a1b2" "w200") d)) !! orig =
    Some Demo.png_bytes.
Proof.
  intros env orig d.
  destruct (retrieval_writes_its_cache_entry_only env "0199a1b2" d) as (_ & H & _).
  unfold orig at 1.
  rewrite (H "w200" _ _ "photos/0199a1b2.png" (serve_eta _ _)).
  vm_compute. reflexivity.
Defined.

End RetrievalFacts.

Section RetrievalFacts2.

Import Handlers Image Contracts.

(** A cached original is all [GetPhoto] needs when the original is asked
    for: it hands the file to [http.ServeFile]. *)
Lemma original_cache_hit env id thumbnail d p content :
  pool env id = Some p -> targetWidthOf env thumbnail = 0 ->
  d !! Localcache.PhotoPath (p_object_key p) = Some content ->
  let orig := Localcache.PhotoPath (p_object_key p) in
  let r := fst (serve (GetPhoto env id thumbnail) d) in
  let w := snd (serve (GetPhoto env id thumbnail) d) in
  (status r, resp_body r) = file_reply env orig content /\
  (ServeFile env orig content = Whole -> cache_control r = Some immutable) /\
  w_disk w = d /\
  w_log w = [EvStat orig; EvQuery id].
Proof.
  intros Hp Hw Hd. exec. rewrite Hp, Hw. cbv beta iota zeta.
  change (0 <? 0) with false. cbv beta iota zeta.
  rewrite (Exists_hit _ _ _ Hd).
  destruct (String.eqb (p_content_type p) ""); cbv beta iota zeta;
    rewrite Hd; destruct (ServeFile env _ content);
    cbn [fst snd]; unfold cache_control; cbn [headers status resp_body w_disk w_log];
    repeat split; try reflexivity; try discriminate; intros _; hdr; reflexivity.
Qed.

(** X12. With one request at work on a cache entry at a time (two first
    requests at once share the temporary file): the first request for an
    original that is not in the cache, with the store delivering the
    object and the file system working. The whole object, whatever its
    size, is saved under the photo's cache path; the content type of the
    metadata row, or the store's when the row has none, and the long-lived
    directive are set, and that file is handed to [http.ServeFile]. The
    reply is the one [http.ServeFile] gives: 200 with the bytes of the
    object and these headers when it sends the whole file. The next request
    for the original finds it in the cache and hands the same file to
    [http.ServeFile] without a call to the store, also in a handler that
    has no store. *)
Theorem original_is_cached_on_first_fetch env id thumbnail d p u rc s3CT :
  pool env id = Some p -> targetWidthOf env thumbnail = 0 ->
  d !! Localcache.PhotoPath (p_object_key p) = None ->
  s3 env = Some u ->
  Storage.GetObject (Some u) (be env) 0 (p_object_key p) = inr (rc, s3CT) ->
  rd_err rc = false -> save_faults env = no_faults ->
  let orig := Localcache.PhotoPath (p_object_key p) in
  let r := fst (serve (GetPhoto env id thumbnail) d) in
  let w := snd (serve (GetPhoto env id thumbnail) d) in
  let ct := if String.eqb (p_content_type p) "" then s3CT else p_content_type p in
  (status r, resp_body r) = file_reply env orig (rd_data rc) /\
  headers r =
    file_headers env orig (rd_data rc)
      (<["Cache-Control" := immutable]>
         (if String.eqb ct "" then ∅ else {[ "Content-Type" := ct ]})) /\
  w_disk w = <[orig := rd_data rc]> (delete (Localcache.tmp_name orig (pid env)) d) /\
  w_log w = [EvSave orig; EvGetObject (p_object_key p); EvStat orig; EvQuery id] /\
  forall env' thumbnail',
    pool env' id = Some p -> targetWidthOf env' thumbnail' = 0 ->
    let r' := fst (serve (GetPhoto env' id thumbnail') (w_disk w)) in
    let w' := snd (serve (GetPhoto env' id thumbnail') (w_disk w)) in
    (status r', resp_body r') = file_reply env' orig (rd_data rc) /\
    w_log w' = [EvStat orig; EvQuery id].
Proof.
  intros Hp Hw Hd Hs3 Hget Herr Hfl orig r w ct.
  assert (E : serve (GetPhoto env id thumbnail) d =
              (MkResponse (fst (file_reply env orig (rd_data rc)))
                 (file_headers env orig (rd_data rc)
                    (<["Cache-Control" := immutable]>
                       (if String.eqb ct "" then ∅ else {[ "Content-Type" := ct ]})))
                 (snd (file_reply env orig (rd_data rc))),
               MkWorld (<[orig := rd_data rc]> (delete (Localcache.tmp_name orig (pid env)) d))
                 ∅ []
                 (file_headers env orig (rd_data rc)
                    (<["Cache-Control" := immutable]>
                       (if String.eqb ct "" then ∅ else {[ "Content-Type" := ct ]})))
                 1 [EvSave orig; EvGetObject (p_object_key p); EvStat orig; EvQuery id])).
  { subst orig r w ct. exec. rewrite Hp, Hw. cbv beta iota zeta.
    change (0 <? 0) with false. cbv beta iota zeta.
    unfold Localcache.Exists. rewrite Hd.
    rewrite bool_decide_eq_false_2 by (intros [? ?]; discriminate).
    rewrite Hs3. cbv beta iota zeta. rewrite Hget. cbv beta iota zeta.
    rewrite Hfl. destruct rc as [data err]. cbn [rd_err rd_data] in *. subst err.
    pose proof (Save_no_faults_disk (pid env)
                  (Localcache.PhotoPath (p_object_key p)) data d) as HS.
    unfold bytes_reader in HS. rewrite HS. cbv beta iota zeta.
    destruct (String.eqb (p_content_type p) ""); cbv beta iota zeta.
    - destruct (String.eqb s3CT ""); cbv beta iota zeta;
        rewrite lookup_insert_eq; destruct (ServeFile env _ data); reflexivity.
    - destruct (String.eqb (p_content_type p) "") eqn:E2; cbv beta iota zeta;
        rewrite lookup_insert_eq; destruct (ServeFile env _ data); reflexivity. }
  subst r w. rewrite E. cbn [fst snd status resp_body headers w_disk w_log].
  split; [now destruct (file_reply env orig (rd_data rc)) |].
  split; [reflexivity |]. split; [reflexivity |]. split; [reflexivity |].
  intros env' thumbnail' Hp' Hw'.
  destruct (original_cache_hit env' id thumbnail'
              (<[orig := rd_data rc]> (delete (Localcache.tmp_name orig (pid env)) d))
              p (rd_data rc) Hp' Hw' (lookup_insert_eq _ _ _)) as (H1 & _ & _ & H4).
  split; assumption.
Qed.

Lemma original_is_cached_on_first_fetch_witness :
  let env := Demo.env (Some Demo.uploader) (Demo.store_with (bytes_reader Demo.png_bytes))
                      no_faults in
  let env' := Demo.env None Demo.store_down no_faults in
  let w := snd (serve (GetPhoto env "0199a1b2" "original") ∅) in
  let r' := fst (serve (GetPhoto env' "0199a1b2" "original") (w_disk w)) in
  (status r', resp_body r') =
    (200, BFile (Localcache.PhotoPath "photos/0199a1b2.png") Demo.png_bytes).
Proof.
  intros env env' w.
  pose proof (original_is_cached_on_first_fetch env "0199a1b2" "original" ∅ Demo.photo1
                Demo.uploader (bytes_reader Demo.png_bytes) "image/png"
                eq_refl eq_refl eq_refl eq_refl eq_refl eq_refl eq_refl)
    as (_ & _ & _ & _ & H).
  exact (proj1 (H env' "original" eq_refl eq_refl)).
Defined.


Lemma photo_thumbnail_run env id d width :
  (forall p, pool env id = Some p -> p_content_type p <> "") ->
  parseSpec ("w" +:+ GoInt.Itoa width) = inr width -> 0 < width ->
  forall thumbnail, targetWidthOf env thumbnail = width ->
  serve (GetPhoto env id thumbnail) d =
    serve (GetPhotoThumbnail env id ("w" +:+ GoInt.Itoa width)) d.
Proof.
  intros Hct Hs Hpos thumbnail Hw. exec. rewrite Hs, Hw. cbv beta iota zeta.
  apply Z.ltb_lt in Hpos. rewrite Hpos.
  destruct (pool env id) as [p |] eqn:Hp; [| reflexivity].
  specialize (Hct p eq_refl). apply String.eqb_neq in Hct. rewrite Hct.
  reflexivity.
Qed.

(** X13. [GET /photos/:id?thumbnail=small|medium|large] and
    [GET /photos/:id/thumb/w100|w300|w1200] are one and the same: for a
    photo whose metadata row both handlers read and which names a content
    type, the reply, the headers, the calls made and the cache afterwards
    are equal, run for run, so the two routes share their cache entries.
    (Without a content type they differ in one reply: when the source is
    served as it is because it could not be saved, [GetPhoto] sniffs the
    type.) *)
Theorem thumbnail_selector_is_the_thumb_route env id thumbnail d :
  (forall p, pool env id = Some p -> p_content_type p <> "") ->
  0 < targetWidthOf env thumbnail ->
  serve (GetPhoto env id thumbnail) d =
    serve (GetPhotoThumbnail env id ("w" +:+ GoInt.Itoa (targetWidthOf env thumbnail))) d.
Proof.
  intros Hct Hpos.
  destruct (targetWidthOf_cases env thumbnail) as [H | [H | [H | H]]];
    rewrite H in Hpos |- *; try lia;
    (apply photo_thumbnail_run;
       [exact Hct | vm_compute; reflexivity | lia | exact H]).
Qed.

Lemma thumbnail_selector_is_the_thumb_route_witness :
  let env := Demo.env (Some Demo.uploader) (Demo.store_with (bytes_reader Demo.png_bytes))
                      no_faults in
  serve (GetPhoto env "0199a1b2" " Small ") ∅ =
    serve (GetPhotoThumbnail env "0199a1b2" "w100") ∅.
Proof.
  intros env.
  apply (thumbnail_selector_is_the_thumb_route env "0199a1b2" " Small " ∅).
  - intros p Hp. vm_compute in Hp. injection Hp as <-. discriminate.
  - vm_compute. reflexivity.
Defined.


(** *** Size specs *)

Lemma canonical_specs_checked :
  forallb (fun n => match parseSpec ("w" +:+ GoInt.Itoa n) with
                    | inr m => m =? n
                    | inl _ => false
                    end) (seqZ 1 4096) = true.
Proof. vm_compute. reflexivity. Qed.

(** X14. Every width from 1 to 4096, written in decimal after "w", is accepted
    as that width; and whatever spec is accepted, the width it yields lies
    between 1 and 4096. *)
Theorem parseSpec_canonical_round_trip :
  (forall n, 1 <= n <= 4096 -> parseSpec ("w" +:+ GoInt.Itoa n) = inr n) /\
  (forall spec width, parseSpec spec = inr width -> 1 <= width <= 4096).
Proof.
  split.
  - intros n Hn.
    pose proof canonical_specs_checked as H. rewrite forallb_forall in H.
    specialize (H n). 
    assert (Hin : In n (seqZ 1 4096)).
    { apply list_elem_of_In, elem_of_seqZ. lia. }
    specialize (H Hin). destruct (parseSpec ("w" +:+ GoInt.Itoa n)) as [msg | m];
      [discriminate |]. apply Z.eqb_eq in H. now subst.
  - intros spec width (ws & _ & _ & _ & _ & H)%parseSpec_accepts. exact H.
Qed.

Lemma parseSpec_canonical_round_trip_witness : parseSpec ("w" +:+ GoInt.Itoa 480) = inr 480.
Proof.
  destruct parseSpec_canonical_round_trip as [H _]. apply H. lia.
Defined.

Lemma decimal_from_leading_zero ws : decimal_from 0 (String "0" ws) = decimal_from 0 ws.
Proof. reflexivity. Qed.

(** X15. A zero put before the digits of an accepted spec gives another
    accepted spec of the same width, and its thumbnail is cached under
    another path: one width has as many cache entries as it has spellings. *)
Theorem leading_zero_is_another_cache_entry ws width :
  parseSpec (String "w" ws) = inr width ->
  parseSpec (String "w" (String "0" ws)) = inr width /\
  forall k, Localcache.ThumbPath k (String "w" (String "0" ws)) <>
            Localcache.ThumbPath k (String "w" ws).
Proof.
  intros H.
  assert (H' : parseSpec (String "w" (String "0" ws)) = inr width).
  { apply parseSpec_accepts in H as (ws' & [= <-] & Hne & Hd & Hw & Hr).
    apply parseSpec_accepts. exists (String "0" ws).
    split; [reflexivity |]. split; [discriminate |].
    split; [cbn [all_digits]; rewrite Hd; reflexivity |].
    split; [rewrite decimal_from_leading_zero; exact Hw | exact Hr]. }
  split; [exact H' |]. intros k E.
  apply ThumbPath_inj_spec in E; [| eapply parseSpec_segment; eassumption ..].
  injection E as E. apply (f_equal String.length) in E. cbn in E. lia.
Qed.

Lemma leading_zero_is_another_cache_entry_witness :
  parseSpec "w0300" = inr 300 /\
  Localcache.ThumbPath "photos/0199a1b2.png" "w0300" <>
    Localcache.ThumbPath "photos/0199a1b2.png" "w300".
Proof.
  destruct (leading_zero_is_another_cache_entry "300" 300) as [H1 H2];
    [vm_compute; reflexivity |].
  split; [exact H1 | apply H2].
Defined.

(** X16. The path of a cached thumbnail never leaves the cache directory,
    whatever the object key is and for every spec the handler accepts: it
    is [.cache/thumbs/<spec>/<shard>/<name>] with a shard of two characters
    and a name that is one plain path element, or, for a key whose last
    element is "..", the directory [.cache/thumbs/<spec>] itself. *)
Theorem ThumbPath_stays_in_cache k spec width :
  parseSpec spec = inr width ->
  Localcache.ThumbPath k spec = ".cache/thumbs/" +:+ spec /\ Filepath.Base k = ".." \/
  exists shard name,
    Localcache.ThumbPath k spec =
      ".cache/thumbs/" +:+ spec +:+ "/" +:+ shard +:+ "/" +:+ name /\
    String.length shard = 2%nat /\
    Filepath.is_segment shard = true /\ Filepath.is_segment name = true.
Proof.
  intros Hs%parseSpec_segment. rewrite ThumbPath_closed by assumption.
  destruct (filename_cases k) as [Hseg | Hdd].
  - right. exists (substring 0 2 (Localcache.hexsum k)), (Localcache.filename k).
    destruct (String.eqb (Localcache.filename k) "..") eqn:E.
    + apply String.eqb_eq in E. rewrite E in Hseg. discriminate.
    + split; [reflexivity |]. split; [| split; [apply shard_segment | exact Hseg]].
      destruct (shard_shape k) as [b ->]. reflexivity.
  - left. rewrite Hdd. split; [reflexivity |].
    unfold Localcache.filename in Hdd.
    destruct (String.eqb (Filepath.Base k) "." || String.eqb (Filepath.Base k) "/"
              || String.eqb (Filepath.Base k) "") eqn:E; [| exact Hdd].
    pose proof (hexsum_segment k) as Hseg. rewrite Hdd in Hseg. discriminate.
Qed.

Lemma ThumbPath_stays_in_cache_witness :
  exists shard name,
    Localcache.ThumbPath "../../etc/passwd" "w300" =
      ".cache/thumbs/w300/" +:+ shard +:+ "/" +:+ name /\
    Filepath.is_segment name = true.
Proof.
  destruct (ThumbPath_stays_in_cache "../../etc/passwd" "w300" 300)
    as [[_ H] | (shard & name & H1 & _ & _ & H2)]; [vm_compute; reflexivity | |].
  - vm_compute in H. discriminate.
  - exists shard, name. split; [exact H1 | exact H2].
Defined.

End RetrievalFacts2.

(** *** Scaling *)

Section ScalingFacts.

Import Handlers Image.

(** X17. Nearest-neighbour sampling never reads outside the source. The scaled
    image has the bounds (0,0)-(width,height), and its pixel at (x, y) is
    the source pixel at [Min + (x * Dx / width, y * Dy / height)], a point
    inside the bounds of the source. (Sizes up to 2^30, far beyond what
    the decoders produce, keep the products within 64 bits.) *)
Theorem nearest_samples_inside img width height x y :
  let b := Bounds img in
  - 2 ^ 30 <= MinX b < MaxX b -> MaxX b <= 2 ^ 30 ->
  - 2 ^ 30 <= MinY b < MaxY b -> MaxY b <= 2 ^ 30 ->
  0 < width <= 2 ^ 30 -> 0 < height <= 2 ^ 30 ->
  0 <= x < width -> 0 <= y < height ->
  Bounds (nearest img width height) = Rect 0 0 width height /\
  exists sx sy,
    At (nearest img width height) x y = At img sx sy /\
    sx = MinX b + x * (MaxX b - MinX b) / width /\
    sy = MinY b + y * (MaxY b - MinY b) / height /\
    MinX b <= sx < MaxX b /\ MinY b <= sy < MaxY b.
Proof.
  intros b HX1 HX2 HY1 HY2 Hw Hh Hx Hy.
  split; [reflexivity |].
  assert (Hdx : Dx b = MaxX b - MinX b).
  { unfold Dx. apply wrap_small. unfold GoInt.min_int, GoInt.max_int. lia. }
  assert (Hdy : Dy b = MaxY b - MinY b).
  { unfold Dy. apply wrap_small. unfold GoInt.min_int, GoInt.max_int. lia. }
  set (dx := MaxX b - MinX b) in *. set (dy := MaxY b - MinY b) in *.
  assert (Hqx : 0 <= x * dx / width < dx).
  { split; [apply Z.div_pos; nia |]. apply Z.div_lt_upper_bound; nia. }
  assert (Hqy : 0 <= y * dy / height < dy).
  { split; [apply Z.div_pos; nia |]. apply Z.div_lt_upper_bound; nia. }
  assert (Hmx : GoInt.div (GoInt.mul x (Dx b)) width = x * dx / width).
  { unfold GoInt.div, GoInt.mul. rewrite Hdx.
    rewrite (wrap_small (x * dx)) by (unfold GoInt.min_int, GoInt.max_int; nia).
    rewrite Z.quot_div_nonneg by nia.
    apply wrap_small. unfold GoInt.min_int, GoInt.max_int. lia. }
  assert (Hmy : GoInt.div (GoInt.mul y (Dy b)) height = y * dy / height).
  { unfold GoInt.div, GoInt.mul. rewrite Hdy.
    rewrite (wrap_small (y * dy)) by (unfold GoInt.min_int, GoInt.max_int; nia).
    rewrite Z.quot_div_nonneg by nia.
    apply wrap_small. unfold GoInt.min_int, GoInt.max_int. lia. }
  exists (MinX b + x * dx / width), (MinY b + y * dy / height).
  split; [| repeat split; lia].
  unfold nearest. cbn [At]. fold b.
  replace ((0 <=? x) && (x <? width) && (0 <=? y) && (y <? height)) with true.
  - rewrite Hmx, Hmy. unfold GoInt.add.
    rewrite !wrap_small by (unfold GoInt.min_int, GoInt.max_int; lia). reflexivity.
  - symmetry. rewrite !andb_true_iff, !Z.leb_le, !Z.ltb_lt. lia.
Qed.

Lemma nearest_samples_inside_witness :
  let img := MkImage (Rect 10 20 1010 520) (fun x y => (x, y, 0, 255)) in
  At (nearest img 200 100) 199 99 = (1005, 515, 0, 255).
Proof.
  intros img.
  destruct (nearest_samples_inside img 200 100 199 99
              ltac:(cbn; lia) ltac:(cbn; lia) ltac:(cbn; lia) ltac:(cbn; lia)
              ltac:(lia) ltac:(lia) ltac:(lia) ltac:(lia))
    as (_ & sx & sy & Hat & Hsx & Hsy & _).
  rewrite Hat, Hsx, Hsy. reflexivity.
Defined.

End ScalingFacts.

(** ** internal/handlers: upload *)

Section SanitizeFacts.

Import Handlers Text.

Lemma ReplaceChar_absent s old :
  old <> "-"%char ->
  existsb (Ascii.eqb old) (list_ascii_of_string (ReplaceChar s old "-")) = false.
Proof.
  intros Hne. induction s as [|c s IH]; [reflexivity |].
  cbn [ReplaceChar]. destruct (Ascii.eqb c old) eqn:E.
  - rewrite str_app_cons, str_app_nil_l. cbn.
    destruct (Ascii.eqb_spec old "-"); [contradiction |]. exact IH.
  - cbn. rewrite Ascii.eqb_sym, E. exact IH.
Qed.

Lemma ReplaceChar_keeps_absent s old c :
  c <> "-"%char ->
  existsb (Ascii.eqb c) (list_ascii_of_string s) = false ->
  existsb (Ascii.eqb c) (list_ascii_of_string (ReplaceChar s old "-")) = false.
Proof.
  intros Hne. induction s as [|c' s IH]; intros Hs; [reflexivity |].
  cbn in Hs. apply orb_false_iff in Hs as [H1 H2].
  cbn [ReplaceChar]. destruct (Ascii.eqb c' old).
  - rewrite str_app_cons, str_app_nil_l. cbn.
    destruct (Ascii.eqb_spec c "-"); [contradiction |]. now apply IH.
  - cbn. rewrite H1. now apply IH.
Qed.

(** The equations of [ReplaceDotDot]. *)
Lemma ReplaceDotDot_dots fuel s new :
  ReplaceDotDot (S fuel) (String "." (String "." s)) new = new +:+ ReplaceDotDot fuel s new.
Proof. reflexivity. Qed.

Lemma ReplaceDotDot_other fuel c s new :
  (c <> "."%char \/ forall s', s <> String "." s') ->
  ReplaceDotDot (S fuel) (String c s) new = String c (ReplaceDotDot fuel s new).
Proof.
  intros H. cbn [ReplaceDotDot].
  destruct c as [[] [] [] [] [] [] [] []]; try reflexivity.
  destruct s as [|c2 s']; [reflexivity |].
  destruct c2 as [[] [] [] [] [] [] [] []]; try reflexivity.
  destruct H as [H | H]; [contradiction | exfalso; now apply (H s')].
Qed.

Lemma ReplaceDotDot_cases fuel c s :
  (exists s', c = "."%char /\ s = String "." s' /\
     ReplaceDotDot (S fuel) (String c s) "-" = String "-" (ReplaceDotDot fuel s' "-")) \/
  ((c <> "."%char \/ forall s', s <> String "." s') /\
   ReplaceDotDot (S fuel) (String c s) "-" = String c (ReplaceDotDot fuel s "-")).
Proof.
  destruct (Ascii.eqb_spec c ".") as [-> | Hc].
  - destruct s as [|c2 s'].
    + right. split; [right; discriminate | reflexivity].
    + destruct (Ascii.eqb_spec c2 ".") as [-> | Hc2].
      * left. exists s'. repeat split.
      * right. assert (H : "."%char <> "."%char \/ forall s'0, String c2 s' <> String "." s'0)
          by (right; congruence).
        split; [exact H | now apply ReplaceDotDot_other].
  - right. split; [now left | apply ReplaceDotDot_other; now left].
Qed.

Lemma ReplaceDotDot_head fuel s rest :
  ReplaceDotDot fuel s "-" = String "." rest -> exists s', s = String "." s'.
Proof.
  destruct fuel as [|fuel]; [cbn; eauto |].
  destruct s as [|c s]; [discriminate |].
  destruct (ReplaceDotDot_cases fuel c s) as [(s' & -> & -> & ->) | [_ ->]].
  - discriminate.
  - intros [= -> _]. eauto.
Qed.

Lemma ReplaceDotDot_no_dotdot fuel s a b :
  (String.length s <= fuel)%nat -> ReplaceDotDot fuel s "-" <> a +:+ ".." +:+ b.
Proof.
  revert s a. induction fuel as [|fuel IH]; intros s a Hlen.
  - destruct s; [| cbn in Hlen; lia]. destruct a; discriminate.
  - destruct s as [|c s]; [destruct a; discriminate |].
    cbn [String.length] in Hlen.
    destruct (ReplaceDotDot_cases fuel c s) as [(s' & -> & -> & ->) | [Hc ->]].
    + destruct a as [|c0 a]; [discriminate |].
      rewrite str_app_cons. intros [= _ E]. revert E. apply IH.
      cbn [String.length] in Hlen. lia.
    + destruct a as [|c0 a].
      * rewrite str_app_nil_l. cbn. intros [= -> E].
        apply ReplaceDotDot_head in E as [s' ->].
        destruct Hc as [Hc | Hc]; [congruence | now apply (Hc s')].
      * rewrite str_app_cons. intros [= _ E]. revert E. apply IH. lia.
Qed.

Lemma ReplaceDotDot_keeps_absent fuel s c :
  c <> "-"%char ->
  existsb (Ascii.eqb c) (list_ascii_of_string s) = false ->
  existsb (Ascii.eqb c) (list_ascii_of_string (ReplaceDotDot fuel s "-")) = false.
Proof.
  intros Hne. revert s. induction fuel as [|fuel IH]; intros s Hs; [exact Hs |].
  destruct s as [|c1 s]; [reflexivity |].
  destruct (ReplaceDotDot_cases fuel c1 s) as [(s' & -> & -> & ->) | [_ ->]].
  - cbn in Hs. apply orb_false_iff in Hs as [_ Hs]. apply orb_false_iff in Hs as [_ Hs].
    cbn. destruct (Ascii.eqb_spec c "-"); [contradiction |]. now apply IH.
  - cbn in Hs. apply orb_false_iff in Hs as [H1 Hs]. cbn. rewrite H1. now apply IH.
Qed.

(** X18. What [sanitizeFilename] returns holds no slash, no backslash and no
    "..": it cannot name a parent directory or a file in another one. *)
Theorem sanitizeFilename_is_flat name :
  let clean := sanitizeFilename name in
  existsb (Ascii.eqb "/") (list_ascii_of_string clean) = false /\
  existsb (Ascii.eqb "\") (list_ascii_of_string clean) = false /\
  forall a b, clean <> a +:+ ".." +:+ b.
Proof.
  unfold sanitizeFilename. cbv zeta. split; [| split].
  - apply ReplaceDotDot_keeps_absent; [discriminate |].
    apply ReplaceChar_absent. discriminate.
  - apply ReplaceDotDot_keeps_absent; [discriminate |].
    apply ReplaceChar_keeps_absent; [discriminate |].
    apply ReplaceChar_absent. discriminate.
  - intros a b. apply ReplaceDotDot_no_dotdot. lia.
Qed.

End SanitizeFacts.

Section UploadFacts.

Import Handlers.

Lemma Upload_inv u be key r contentType objs objs' res :
  Storage.Upload u be key r contentType objs = (objs', res) ->
  match res with
  | inl _ => objs' = objs
  | inr (_, objKey) =>
      objKey = key /\
      exists u', u = Some u' /\
        objs' = <[key := (takeZ (rd_data r) (GoInt.add (Storage.maxBytes u') 1),
                          contentType)]> objs
  end.
Proof.
  unfold Storage.Upload. destruct u as [u' |]; [| now intros [= <- <-]].
  destruct (Storage.client u'); cbn [negb]; [| now intros [= <- <-]].
  destruct (String.eqb key ""); [now intros [= <- <-] |].
  destruct (ReadAll (LimitReader r (GoInt.add (Storage.maxBytes u') 1))) as [body |] eqn:Hb;
    [| now intros [= <- <-]].
  destruct (Storage.be_put_err be); [now intros [= <- <-] |].
  apply ReadAll_LimitReader_prefix in Hb. subst body.
  intros [= <- <-]. eauto.
Qed.

Ltac exec_upload :=
  cbv [serve fresh UploadPhoto Handlers.Upload Insert JSON Header emit gets modify
       bind ret set_disk set_objs add_row set_hdr add_event
       w_disk w_objs w_rows w_hdr w_gets w_log].

Ltac upload_tidy :=
  repeat match goal with
  | H : Storage.Upload _ _ _ _ _ _ = (_, inl _) |- _ => apply Upload_inv in H; subst
  | H : Storage.Upload _ _ _ _ _ _ = (_, inr (_, _)) |- _ =>
      apply Upload_inv in H as (-> & ? & ? & ->)
  | H : Some _ = Some _ |- _ => injection H as H; try subst
  end.

Ltac upload_step :=
  lazymatch goal with
  | |- ?t = _ -> _ => let h := waiting_for t in destruct h eqn:?
  end; cbv beta iota zeta; upload_tidy.

Ltac upload_runs :=
  exec_upload; repeat upload_step;
  let H := fresh in intros H; injection H as <- <-;
  cbv [status headers resp_body w_disk w_objs w_rows w_log].

(** X19. An upload that is turned away leaves no trace. A reply other than
    201 and 500 is a 503, 400 or 413, and with it nothing was asked of the
    object store or the metadata store: the bucket and the table are as
    they were, and so is the cache directory. *)
Theorem rejected_upload_leaves_no_trace env req d r w :
  serve (UploadPhoto env req) d = (r, w) ->
  status r <> 201 -> status r <> 500 ->
  (status r = 503 \/ status r = 400 \/ status r = 413) /\
  w_objs w = ∅ /\ w_rows w = [] /\ w_log w = [] /\ w_disk w = d.
Proof.
  upload_runs.
  all: intros H201 H500; try (exfalso; congruence).
  all: repeat split; auto.
Qed.

Lemma rejected_upload_leaves_no_trace_witness :
  let env := Demo.env (Some Demo.uploader) (Demo.store_with (bytes_reader [])) no_faults in
  let fh := MkFileHeader "cat.png" 20000000 "image/png" (inr (bytes_reader Demo.png_bytes)) in
  let req := MkUploadRequest "multipart/form-data" None (inr fh) in
  status (fst (serve (UploadPhoto env req) ∅)) = 413 /\
  w_objs (snd (serve (UploadPhoto env req) ∅)) = ∅.
Proof.
  intros env fh req.
  destruct (rejected_upload_leaves_no_trace env req ∅ _ _ (serve_eta _ _))
    as (_ & H & _); [vm_compute; discriminate | vm_compute; discriminate |].
  split; [vm_compute; reflexivity | exact H].
Defined.

(** X20. No metadata without the object. A row is written only by a request
    that is answered 201, and then it is the only row written; the bucket
    holds an object under the row's key, with the row's content type, which
    [strings.ToLower] turns into a string that begins with "image/"; the
    key is "photos/", the new id and an extension, and the reply names the
    id, the path "/photos/<id>", the content type and the size the client
    declared. *)
Theorem uploaded_row_has_its_object env req d r w row :
  serve (UploadPhoto env req) d = (r, w) ->
  In row (w_rows w) ->
  status r = 201 /\ w_rows w = [row] /\
  resp_body r =
    BCreated (p_id row) ("/photos/" +:+ p_id row) (p_content_type row) (p_size row) /\
  NewV7 env = Some (p_id row) /\
  (exists ext, p_object_key row = "photos/" +:+ p_id row +:+ ext /\ ext <> "") /\
  Strings.HasPrefix (ToLower env (p_content_type row)) "image/" = true /\
  exists body, w_objs w !! p_object_key row = Some (body, p_content_type row).
Proof.
  upload_runs.
  all: cbn [In]; intros Hin; try contradiction.
  all: destruct Hin as [<- | []]; cbn [p_id p_object_key p_content_type p_size].
  all: repeat match goal with
       | H : negb _ = false |- _ => apply negb_false_iff in H
       end.
  all: repeat split; try assumption; try reflexivity.
  all: try (eexists; split; [reflexivity |]).
  all: try (rewrite lookup_insert_eq; eauto).
  all: match goal with
       | |- (if String.eqb ?x "" then _ else _) <> _ =>
           destruct (String.eqb x "") eqn:E; [discriminate | now apply String.eqb_neq]
       end.
Qed.

Lemma uploaded_row_has_its_object_witness :
  let env := Demo.env (Some Demo.uploader) (Demo.store_with (bytes_reader [])) no_faults in
  let fh := MkFileHeader "Cat.PNG" 6 "" (inr (bytes_reader Demo.png_bytes)) in
  let req := MkUploadRequest "multipart/form-data" None (inr fh) in
  let w := snd (serve (UploadPhoto env req) ∅) in
  exists body, w_objs w !! "photos/0199ffff.png" = Some (body, "image/png").
Proof.
  intros env fh req w.
  destruct (uploaded_row_has_its_object env req ∅ _ w
              (MkPhoto "0199ffff" "photos/0199ffff.png" "Cat.PNG" "image/png" 6
                       "https://s3.example/stored")
              (serve_eta _ _))
    as (_ & _ & _ & _ & _ & _ & H); [vm_compute; auto |].
  exact H.
Defined.


(** X21. An object without metadata. When the upload has succeeded and the
    insert of the row fails, the reply is 500 and no row exists, but the
    object stays in the bucket: the handler does not remove it. *)
Theorem failed_insert_leaves_the_object env req d r w id :
  serve (UploadPhoto env req) d = (r, w) ->
  In (EvInsert id) (w_log w) -> insert_err env = true ->
  status r = 500 /\ w_rows w = [] /\
  exists key body ct, w_objs w = {[ key := (body, ct) ]} /\ In (EvUpload key) (w_log w).
Proof.
  upload_runs.
  all: intros Hin Hfail; try (exfalso; in_log; congruence).
  all: split; [reflexivity |]; split; [reflexivity |].
  all: eexists _, _, _; split; [apply insert_empty | log_has].
Qed.

Lemma failed_insert_leaves_the_object_witness :
  let env :=
    MkEnv Demo.rows true (Some Demo.uploader) (Demo.store_with (bytes_reader [])) 4242
          (fun _ => false) (fun _ => false) no_faults false Demo.decoder
          (fun _ => None) (fun _ _ => None) (fun _ => "image/png") (Some "0199ffff") 0
          Text.lower_ascii (fun _ _ => Whole) in
  let fh := MkFileHeader "cat.png" 6 "" (inr (bytes_reader Demo.png_bytes)) in
  let req := MkUploadRequest "multipart/form-data" None (inr fh) in
  status (fst (serve (UploadPhoto env req) ∅)) = 500 /\
  w_rows (snd (serve (UploadPhoto env req) ∅)) = [].
Proof.
  intros env fh req.
  destruct (failed_insert_leaves_the_object env req ∅ _ _ "0199ffff" (serve_eta _ _))
    as (H1 & H2 & _); [vm_compute; auto | reflexivity |].
  split; assumption.
Defined.

(** X22. A ceiling of zero switches the size check off and cuts every upload
    to one byte. With [MaxUploadMB = 0] in the configuration no request is
    answered 413, and whatever ends up in the bucket is at most the first
    byte of the body that was sent. *)
Theorem zero_ceiling_stores_one_byte cfg env req d r w :
  s3 env = Storage.NewS3Uploader false cfg -> Storage.MaxUploadMB cfg = 0 ->
  serve (UploadPhoto env req) d = (r, w) ->
  status r <> 413 /\
  forall key body ct,
    w_objs w !! key = Some (body, ct) ->
    (length body <= 1)%nat /\
    exists fh f, form_file req = inr fh /\ fh_open fh = inr f /\
                 body = takeZ (rd_data f) 1.
Proof.
  intros Hs3 Hmb. unfold Storage.NewS3Uploader in Hs3. rewrite Hmb in Hs3.
  change (GoInt.mul (GoInt.mul 0 1024) 1024) with 0 in Hs3.
  destruct (String.eqb (Storage.S3Bucket cfg) "").
  - exec_upload. rewrite Hs3. intros [= <- <-]. cbn [status w_objs].
    split; [discriminate |]. intros key body ct H. rewrite lookup_empty in H. discriminate.
  - exec_upload. rewrite Hs3. cbv beta iota zeta.
    unfold Storage.MaxBytes. cbn [Storage.maxBytes].
    change (0 <? 0) with false. cbn [andb].
    repeat upload_step.
    all: let H := fresh in intros H; injection H as <- <-; cbn [status w_objs].
    all: split; [discriminate |]; intros key body ct Hl.
    all: try (rewrite lookup_empty in Hl; discriminate).
    all: cbn [Storage.maxBytes] in Hl; change (GoInt.add 0 1) with 1 in Hl.
    all: apply lookup_insert_Some in Hl as [[_ Hl] | [_ Hl]];
      [| rewrite lookup_empty in Hl; discriminate].
    all: injection Hl as <- _.
    all: split; [| eauto].
    all: match goal with
         | |- (length (takeZ ?l 1) <= 1)%nat =>
             pose proof (takeZ_length l 1 ltac:(lia)); lia
         end.
Qed.

Lemma zero_ceiling_stores_one_byte_witness :
  let cfg := Storage.MkConfig "bucket" "" 0 in
  let env := Demo.env (Storage.NewS3Uploader false cfg) (Demo.store_with (bytes_reader []))
                      no_faults in
  let fh := MkFileHeader "cat.png" 6 "" (inr (bytes_reader Demo.png_bytes)) in
  let req := MkUploadRequest "multipart/form-data" None (inr fh) in
  let w := snd (serve (UploadPhoto env req) ∅) in
  status (fst (serve (UploadPhoto env req) ∅)) = 201 /\
  exists body, w_objs w !! "photos/0199ffff.png" = Some (body, "image/png") /\
               (length body <= 1)%nat.
Proof.
  intros cfg env fh req w.
  destruct (zero_ceiling_stores_one_byte cfg env req ∅ _ w eq_refl eq_refl (serve_eta _ _))
    as [_ H].
  split; [vm_compute; reflexivity |].
  exists [x89]. split; [vm_compute; reflexivity |].
  apply (H "photos/0199ffff.png" [x89] "image/png"). vm_compute. reflexivity.
Defined.

End UploadFacts.

(** ** internal/config *)

Section ConfigFacts.

Import Config.

Lemma env_unset e key def : Getenv e key = "" -> env e key def = def.
Proof. unfold env. now intros ->. Qed.

Lemma env_insert_empty e k key def : env (<[k := ""]> e) key def = env (delete k e) key def.
Proof.
  unfold env, Getenv. destruct (decide (key = k)) as [-> | Hne].
  - now rewrite lookup_insert_eq, lookup_delete_eq.
  - now rewrite lookup_insert_ne, lookup_delete_ne by congruence.
Qed.

(** X23. A variable set to the empty string counts as not set: the
    configuration is the same as without it, defaults included. *)
Theorem empty_variable_is_unset e k : Load (<[k := ""]> e) = Load (delete k e).
Proof. unfold Load. now rewrite !env_insert_empty. Qed.

(** X24. The configuration of an environment that sets none of the variables.
    The upload ceiling is 10 MiB and the sheet is polled every 300
    seconds; no bucket is named, so [NewS3Uploader] gives no uploader. *)
Theorem default_configuration e load_err :
  (forall key, Getenv e key = "") ->
  Load e =
    MkConfig "localhost" "5432" "postgres" "postgres" "relief" "disable" "8080" "" ""
             (300 * Second) "" "auto" "" "" "" false "" 10 /\
  Storage.NewS3Uploader load_err (for_storage (Load e)) = None.
Proof.
  intros H. unfold Load. rewrite !env_unset by apply H. split; reflexivity.
Qed.

Lemma default_configuration_witness :
  MaxUploadMB (Load ∅) = 10 /\ SheetInterval (Load ∅) = 300000000000.
Proof.
  destruct (default_configuration ∅ false) as [H _]; [reflexivity |].
  rewrite H. split; reflexivity.
Defined.

(** *** [strconv.Atoi] *)

Lemma fast_digits_decimal acc s :
  Handlers.all_digits s = true ->
  0 <= acc -> acc * 10 ^ Z.of_nat (String.length s) + 10 ^ Z.of_nat (String.length s) <= 10 ^ 18 ->
  Strconv.fast_digits acc s = Some (Handlers.decimal_from acc s).
Proof.
  revert acc. induction s as [|c s IH]; intros acc Hd Hacc Hb; [reflexivity |].
  cbn [Handlers.all_digits] in Hd. apply andb_prop in Hd as [Hc Hs].
  cbn [Strconv.fast_digits Handlers.decimal_from]. unfold Strconv.code.
  unfold Handlers.is_digit in Hc. apply andb_prop in Hc as [H1 H2].
  apply N.leb_le in H1, H2.
  assert (Hrange : 0 <= Z.of_N (N_of_ascii c) - 48 <= 9) by lia.
  rewrite (Z.mod_small (Z.of_N (N_of_ascii c) - 48)) by lia.
  destruct (Z.ltb_spec 9 (Z.of_N (N_of_ascii c) - 48)) as [Hgt | _]; [lia |].
  cbn [String.length] in Hb. rewrite Nat2Z.inj_succ, Z.pow_succ_r in Hb by lia.
  assert (Hp : 0 < 10 ^ Z.of_nat (String.length s)) by (apply Z.pow_pos_nonneg; lia).
  assert (Hnew : acc * 10 + (Z.of_N (N_of_ascii c) - 48) < 10 ^ 18) by nia.
  unfold GoInt.add, GoInt.mul.
  rewrite (wrap_small (acc * 10)) by (unfold GoInt.min_int, GoInt.max_int; lia).
  rewrite wrap_small by (unfold GoInt.min_int, GoInt.max_int; lia).
  apply IH; [exact Hs | lia | nia].
Qed.

Lemma fast_digits_not_number acc s :
  Handlers.all_digits s = false -> Strconv.fast_digits acc s = None.
Proof.
  revert acc. induction s as [|c s IH]; intros acc Hd; [discriminate |].
  cbn [Handlers.all_digits] in Hd. cbn [Strconv.fast_digits]. unfold Strconv.code.
  destruct (Handlers.is_digit c) eqn:Hc.
  - cbn [andb] in Hd. destruct (9 <? _); [reflexivity |]. now apply IH.
  - unfold Handlers.is_digit in Hc.
    pose proof (N_ascii_bounded c) as Hb.
    destruct (Z.ltb_spec 9 ((Z.of_N (N_of_ascii c) - 48) mod 256)) as [_ | Hle];
      [reflexivity | exfalso].
    apply andb_false_iff in Hc as [Hc | Hc]; apply N.leb_gt in Hc.
    + replace ((Z.of_N (N_of_ascii c) - 48) mod 256)
        with (Z.of_N (N_of_ascii c) - 48 + 256) in Hle; [lia |].
      apply Z.mod_unique with (q := -1); lia.
    + rewrite Z.mod_small in Hle by lia. lia.
Qed.

(** [Atoi] on a string of one to eighteen characters without a sign: its
    decimal value when all are digits, otherwise 0 with an error. *)
Lemma Atoi_short s :
  s <> "" -> (String.length s <= 18)%nat ->
  (forall rest, s <> String "-" rest) -> (forall rest, s <> String "+" rest) ->
  Strconv.Atoi s =
    if Handlers.all_digits s then (Handlers.decimal_from 0 s, false) else (0, true).
Proof.
  intros Hne Hlen Hm Hp. unfold Strconv.Atoi.
  destruct s as [|c rest]; [congruence |].
  replace ((0 <? Z.of_nat (String.length (String c rest))) &&
           (Z.of_nat (String.length (String c rest)) <? 19)) with true
    by (symmetry; cbn [String.length] in *; rewrite andb_true_iff, !Z.ltb_lt; lia).
  destruct (Ascii.eqb_spec c "-") as [-> | _]; [exfalso; now apply (Hm rest) |].
  destruct (Ascii.eqb_spec c "+") as [-> | _]; [exfalso; now apply (Hp rest) |].
  cbn [orb andb].
  destruct (Handlers.all_digits (String c rest)) eqn:Hd.
  - rewrite fast_digits_decimal; [reflexivity | exact Hd | lia |].
    rewrite Z.mul_0_l, Z.add_0_l. apply Z.pow_le_mono_r; lia.
  - now rewrite fast_digits_not_number.
Qed.

(** X25. The upload ceiling of the environment. [MAX_UPLOAD_MB] of up to
    eighteen digits is taken as written; a value of that length that is not
    a number (and carries no sign) silently becomes 0, not the default. *)
Theorem MaxUploadMB_of_the_environment e v :
  e !! "MAX_UPLOAD_MB" = Some v -> v <> "" -> (String.length v <= 18)%nat ->
  (forall rest, v <> String "-" rest) -> (forall rest, v <> String "+" rest) ->
  MaxUploadMB (Load e) = if Handlers.all_digits v then Handlers.decimal_from 0 v else 0.
Proof.
  intros Hv Hne Hlen Hm Hp. unfold Load. cbn [MaxUploadMB].
  unfold env, Getenv. rewrite Hv. change (default "" (Some v)) with v.
  apply String.eqb_neq in Hne. rewrite Hne. cbn [negb].
  apply String.eqb_neq in Hne.
  rewrite Atoi_short by assumption.
  destruct (Handlers.all_digits v); reflexivity.
Qed.

Lemma MaxUploadMB_of_the_environment_witness :
  MaxUploadMB (Load {[ "MAX_UPLOAD_MB" := "25" ]}) = 25 /\
  MaxUploadMB (Load {[ "MAX_UPLOAD_MB" := "10MB" ]}) = 0.
Proof.
  split.
  - rewrite (MaxUploadMB_of_the_environment _ "25");
      [reflexivity | reflexivity | discriminate | cbn; lia | discriminate | discriminate].
  - rewrite (MaxUploadMB_of_the_environment _ "10MB");
      [reflexivity | reflexivity | discriminate | cbn; lia | discriminate | discriminate].
Defined.

End ConfigFacts.

(** ** internal/middleware *)

Section MiddlewareFacts.

Import Middleware.

(** A request that the limiter counts. *)
Lemma limited_counted l now c cache :
  writeRateLimitSeconds l <> 0 -> writeRateLimitCount l <> 0 ->
  Method c = "POST" \/ Method c = "PATCH" ->
  paths l = ∅ \/ FullPath c ∈ paths l ->
  ClientIP c <> "" ->
  let pat := pattern_of (paths l) (ClientIP c) (FullPath c) in
  let n := GoInt.add (default 0 (patterns cache !! pat)) 1 in
  limited l now c cache =
    (writeRateLimitCount l <? n, MkPattern (loadedAt cache) (<[pat := n]> (patterns cache)),
     negb (Since now (loadedAt cache) <? refreshInterval l)).
Proof.
  intros Hs Hc Hm Hp Hip pat n. unfold limited.
  apply Z.eqb_neq in Hs, Hc. rewrite Hs, Hc. cbn [orb].
  replace (negb (String.eqb (Method c) "POST") && negb (String.eqb (Method c) "PATCH"))
    with false by (destruct Hm as [-> | ->]; reflexivity).
  replace (some_paths (paths l) && negb (bool_decide (FullPath c ∈ paths l))) with false.
  - apply String.eqb_neq in Hip. rewrite Hip. reflexivity.
  - symmetry. destruct Hp as [Hp | Hp].
    + unfold some_paths. rewrite bool_decide_eq_true_2 by assumption. reflexivity.
    + rewrite (bool_decide_eq_true_2 _ Hp). apply andb_false_r.
Qed.

Lemma serve_all_counted l c times cache :
  writeRateLimitSeconds l <> 0 -> writeRateLimitCount l <> 0 ->
  Method c = "POST" \/ Method c = "PATCH" ->
  paths l = ∅ \/ FullPath c ∈ paths l ->
  ClientIP c <> "" ->
  let pat := pattern_of (paths l) (ClientIP c) (FullPath c) in
  let c0 := default 0 (patterns cache !! pat) in
  0 <= c0 -> c0 + Z.of_nat (length times) <= GoInt.max_int ->
  times <> [] ->
  let run := serve_all l (map (fun now => (now, c)) times) cache in
  fst run = imap (fun i _ => writeRateLimitCount l <? c0 + Z.of_nat i + 1) times /\
  patterns (snd run) !! pat = Some (c0 + Z.of_nat (length times)) /\
  forall other, other <> pat -> patterns (snd run) !! other = patterns cache !! other.
Proof.
  intros Hs Hc Hm Hp Hip pat. cbv zeta.
  revert cache. induction times as [|now times IH]; intros cache H0 Hmax Hne;
    [congruence |].
  cbn [map serve_all length] in *.
  rewrite (limited_counted l now c cache Hs Hc Hm Hp Hip). fold pat.
  set (c0 := default 0 (patterns cache !! pat)) in *.
  assert (Hadd : GoInt.add c0 1 = c0 + 1).
  { unfold GoInt.add. apply wrap_small. unfold GoInt.min_int, GoInt.max_int in *. lia. }
  rewrite Hadd.
  set (cache' := MkPattern (loadedAt cache) (<[pat := c0 + 1]> (patterns cache))).
  destruct times as [|now' times'].
  - cbn. rewrite lookup_insert_eq. repeat split.
    + f_equal. f_equal. lia.
    + intros other Ho. now rewrite lookup_insert_ne by congruence.
  - specialize (IH cache').
    assert (Hc0' : default 0 (patterns cache' !! pat) = c0 + 1)
      by (cbn; now rewrite lookup_insert_eq).
    rewrite Hc0' in IH.
    destruct IH as (IH1 & IH2 & IH3); [lia | cbn [length] in *; lia | discriminate |].
    destruct (serve_all l (map (fun now0 => (now0, c)) (now' :: times')) cache')
      as [vs final] eqn:E.
    cbn [fst snd] in *. split; [| split].
    + rewrite imap_cons. f_equal; [f_equal; lia |].
      rewrite IH1. apply imap_ext. intros i x _. cbn. f_equal. lia.
    + rewrite IH2. f_equal. cbn [length]. lia.
    + intros other Ho. rewrite IH3 by assumption. cbn.
      now rewrite lookup_insert_ne by congruence.
Qed.

(** X26. The limit is reached by counting. Requests of one client that the
    limiter counts (the limit is switched on, the method is POST or PATCH,
    the path is one of those configured, the address is known), one after
    the other with no reload ending in between: with [c0] the count the
    cache holds for the client, request number [i] (from 0) is over the
    limit exactly when [c0 + i + 1] exceeds the limit, whatever the time,
    and the cache ends with the count [c0 + n]. *)
Theorem limit_is_reached_by_counting l c times cache :
  writeRateLimitSeconds l <> 0 -> writeRateLimitCount l <> 0 ->
  Method c = "POST" \/ Method c = "PATCH" ->
  paths l = ∅ \/ FullPath c ∈ paths l ->
  ClientIP c <> "" ->
  let pat := pattern_of (paths l) (ClientIP c) (FullPath c) in
  let c0 := default 0 (patterns cache !! pat) in
  0 <= c0 -> c0 + Z.of_nat (length times) <= GoInt.max_int ->
  times <> [] ->
  let run := serve_all l (map (fun now => (now, c)) times) cache in
  fst run = imap (fun i _ => writeRateLimitCount l <? c0 + Z.of_nat i + 1) times /\
  patterns (snd run) !! pat = Some (c0 + Z.of_nat (length times)) /\
  forall other, other <> pat -> patterns (snd run) !! other = patterns cache !! other.
Proof. apply serve_all_counted. Qed.

Lemma limit_is_reached_by_counting_witness :
  let l := MkLimiter ∅ 60000000000 3600 3 in
  let c := MkRequest "POST" "/reports" "203.0.113.7" in
  fst (serve_all l (map (fun now => (now, c)) [1; 2; 3; 4; 5]) (MkPattern 0 ∅)) =
    [false; false; false; true; true].
Proof.
  intros l c.
  destruct (limit_is_reached_by_counting l c [1; 2; 3; 4; 5] (MkPattern 0 ∅))
    as (H & _);
    [discriminate | discriminate | now left | now left | discriminate
    | reflexivity | vm_compute; discriminate | discriminate |].
  rewrite H. reflexivity.
Defined.

Lemma total_nonneg ns : Forall (fun n => 0 <= n) ns -> 0 <= total ns.
Proof. unfold total. induction 1; cbn [foldr]; lia. Qed.

Lemma total_cons n ns : total (n :: ns) = n + total ns.
Proof. reflexivity. Qed.

Lemma counts_for_cons paths key ip path n rows :
  counts_for paths key ((ip, path, n) :: rows) =
    if String.eqb (pattern_of paths ip path) key then n :: counts_for paths key rows
    else counts_for paths key rows.
Proof. unfold counts_for. cbn. now destruct (String.eqb _ key). Qed.

Lemma bump_same m pat n :
  0 <= default 0 (m !! pat) -> 0 <= n -> default 0 (m !! pat) + n <= GoInt.max_int ->
  bump m pat n !! pat = Some (default 0 (m !! pat) + n).
Proof.
  intros H0 Hn Hmax. unfold bump. rewrite lookup_insert_eq. f_equal.
  unfold GoInt.add. apply wrap_small. unfold GoInt.min_int, GoInt.max_int in *. lia.
Qed.

Lemma scan_rows_sums paths key rows m :
  Forall (fun n => 0 <= n) (counts (scanned rows)) ->
  0 <= default 0 (m !! key) ->
  default 0 (m !! key) + total (counts (scanned rows)) <= GoInt.max_int ->
  scan_rows paths rows m !! key =
  match counts_for paths key (scanned rows) with
  | [] => m !! key
  | mine => Some (default 0 (m !! key) + total mine)
  end.
Proof.
  revert m. induction rows as [|r rows IH]; intros m Hpos H0 Hmax; [reflexivity |].
  destruct r as [[[ip path] n] |]; [| reflexivity].
  cbn [scan_rows scanned] in *. unfold counts in Hpos, Hmax. cbn [map snd] in Hpos, Hmax.
  fold (counts (scanned rows)) in Hpos, Hmax.
  rewrite total_cons in Hmax.
  apply Forall_cons in Hpos as [Hn Hpos].
  pose proof (total_nonneg _ Hpos) as Htot.
  rewrite counts_for_cons.
  destruct (String.eqb_spec (pattern_of paths ip path) key) as [Hk | Hk].
  - rewrite Hk.
    pose proof (bump_same m key n H0 Hn ltac:(lia)) as Hb.
    assert (Hd : default 0 (bump m key n !! key) = default 0 (m !! key) + n)
      by (rewrite Hb; reflexivity).
    rewrite IH; [| exact Hpos | rewrite Hd; lia | rewrite Hd; lia].
    rewrite Hd, Hb.
    destruct (counts_for paths key (scanned rows)) as [|n' mine'].
    + f_equal. unfold total. cbn [foldr]. lia.
    + rewrite !total_cons. f_equal. lia.
  - assert (Hsame : bump m (pattern_of paths ip path) n !! key = m !! key)
      by (unfold bump; now rewrite lookup_insert_ne).
    rewrite IH; rewrite ?Hsame; try assumption; [reflexivity | lia].
Qed.

(** X27. What a load puts into the cache. The store is asked for the writes of
    the last [writeRateLimitSeconds - 60] seconds, and the rows are read up
    to the first one that does not scan: pgx closes the rows at a failed
    [Scan], so the rows after it are lost. The count of a pattern is the
    sum of the counts of its rows among those read; a pattern without such
    a row has no count. With paths configured a pattern is an address and
    a path, without them an address alone, so that its count runs over
    all paths. When the query fails the counts are empty. *)
Theorem loaded_counts_are_sums paths seconds now query key :
  match query (GoInt.add seconds (-60)) with
  | Some rows =>
      Forall (fun n => 0 <= n) (counts (scanned rows)) ->
      total (counts (scanned rows)) <= GoInt.max_int ->
      patterns (loadRequestPattern paths seconds now query) !! key =
        match counts_for paths key (scanned rows) with
        | [] => None
        | mine => Some (total mine)
        end
  | None => patterns (loadRequestPattern paths seconds now query) = ∅
  end /\
  loadedAt (loadRequestPattern paths seconds now query) = now.
Proof.
  unfold loadRequestPattern.
  destruct (query (GoInt.add seconds (-60))) as [rows |]; [| split; reflexivity].
  split; [| reflexivity]. intros Hpos Hmax. cbn [patterns].
  rewrite (scan_rows_sums paths key rows ∅ Hpos);
    rewrite ?lookup_empty; cbn [default]; try lia.
  destruct (counts_for paths key (scanned rows)); [reflexivity | f_equal; lia].
Qed.

Lemma loaded_counts_are_sums_witness :
  let rows := [ Some ("203.0.113.7", "/reports", 2);
                Some ("198.51.100.1", "/reports", 5);
                Some ("203.0.113.7", "/supplies", 4); None;
                Some ("203.0.113.7", "/shelters", 8) ] in
  patterns (loadRequestPattern ∅ 3600 0 (fun _ => Some rows)) !! "203.0.113.7" = Some 6.
Proof.
  intros rows.
  pose proof (loaded_counts_are_sums ∅ 3600 0 (fun _ => Some rows) "203.0.113.7") as [H _].
  cbv beta iota in H. rewrite H; [reflexivity | |].
  - cbn. repeat (apply List.Forall_cons; [lia |]). apply List.Forall_nil.
  - vm_compute. discriminate.
Defined.

(** A row that does not scan ends the load: the rows behind it are not
    counted. *)
Lemma failed_scan_ends_the_load :
  let rows := [ Some ("203.0.113.7", "/reports", 2); None;
                Some ("203.0.113.7", "/supplies", 4) ] in
  patterns (loadRequestPattern ∅ 3600 0 (fun _ => Some rows)) !! "203.0.113.7" = Some 2.
Proof. vm_compute. reflexivity. Qed.

(** X28. Requests that are not counted. With the limit switched off (a window
    or a count of 0) no request is ever over the limit. With it on, a
    request that is neither a POST nor a PATCH, or whose path is not among
    the configured ones, or whose address is unknown, is not over the
    limit either. None of these changes a count: the request leaves the
    value of the cache as it found it. The first three start no reload.
    The last, a POST or PATCH to a counted path without a known address,
    has asked for the fresh counts before it looks at the address: it
    starts a reload when the cache is stale, and the reload then replaces
    the counts. *)
Theorem uncounted_requests_pass l now c cache :
  (writeRateLimitSeconds l = 0 \/ writeRateLimitCount l = 0 \/
   (Method c <> "POST" /\ Method c <> "PATCH") \/
   (paths l <> ∅ /\ FullPath c ∉ paths l) ->
   limited l now c cache = (false, cache, false)) /\
  (ClientIP c = "" ->
   exists reload,
     limited l now c cache = (false, cache, reload) /\
     (reload = true <->
      (writeRateLimitSeconds l <> 0 /\ writeRateLimitCount l <> 0 /\
       (Method c = "POST" \/ Method c = "PATCH") /\
       (paths l = ∅ \/ FullPath c ∈ paths l) /\
       refreshInterval l <= Since now (loadedAt cache)))).
Proof.
  unfold limited.
  destruct (Z.eqb_spec (writeRateLimitSeconds l) 0) as [Hs | Hs]; cbn [orb].
  { split; [reflexivity |]. intros _. exists false. split; [reflexivity |].
    split; [discriminate | intros (? & _); congruence]. }
  destruct (Z.eqb_spec (writeRateLimitCount l) 0) as [Hn | Hn].
  { split; [reflexivity |]. intros _. exists false. split; [reflexivity |].
    split; [discriminate | intros (_ & ? & _); congruence]. }
  destruct (String.eqb_spec (Method c) "POST") as [Hpost | Hpost];
    destruct (String.eqb_spec (Method c) "PATCH") as [Hpatch | Hpatch]; cbn [negb andb].
  4:{ split; [reflexivity |]. intros _. exists false. split; [reflexivity |].
      split; [discriminate | intros (_ & _ & [? | ?] & _); congruence]. }
  all: unfold some_paths;
    destruct (decide (paths l = ∅)) as [He | He];
    [ rewrite (bool_decide_eq_true_2 _ He)
    | rewrite (bool_decide_eq_false_2 _ He) ]; cbn [negb andb];
    [| destruct (decide (FullPath c ∈ paths l)) as [Hin | Hin];
       [ rewrite (bool_decide_eq_true_2 _ Hin)
       | rewrite (bool_decide_eq_false_2 _ Hin) ]; cbn [negb] ].
  all: try (split; [reflexivity |]; intros _; exists false; split; [reflexivity |];
            split; [discriminate | intros (_ & _ & _ & [? | ?] & _); congruence]).
  all: split;
    [ intros [? | [? | [[? ?] | [? ?]]]]; congruence
    | intros Hip; rewrite Hip; cbn [String.eqb]; eexists; split; [reflexivity |];
      rewrite negb_true_iff, Z.ltb_ge; split;
      [ intros Hst; repeat split; auto | intros (_ & _ & _ & _ & Hst); exact Hst ] ].
Qed.

Lemma uncounted_requests_pass_witness :
  let l := MkLimiter {[ "/reports" ]} 60000000000 3600 1 in
  let cache := MkPattern 0 {[ "203.0.113.7_/reports" := 99 ]} in
  limited l 1 (MkRequest "GET" "/reports" "203.0.113.7") cache = (false, cache, false) /\
  limited l 2 (MkRequest "POST" "/shelters" "203.0.113.7") cache = (false, cache, false).
Proof.
  intros l cache. split.
  - apply (uncounted_requests_pass l 1 (MkRequest "GET" "/reports" "203.0.113.7") cache).
    right. right. left. split; discriminate.
  - apply (uncounted_requests_pass l 2 (MkRequest "POST" "/shelters" "203.0.113.7") cache).
    right. right. right. split; [vm_compute; discriminate |].
    cbn. set_solver.
Defined.

(** A POST without a known address, on a stale cache: it is let through
    and leaves the counts, and it starts the reload. *)
Lemma unknown_address_starts_reload :
  let l := MkLimiter ∅ 60000000000 3600 1 in
  let cache := MkPattern 0 {[ "203.0.113.7" := 99 ]} in
  limited l 60000000001 (MkRequest "POST" "/reports" "") cache = (false, cache, true).
Proof. vm_compute. reflexivity. Qed.

(** Counted requests within [refreshInterval] of the load start no
    reload. *)
Lemma reloads_fresh l c times cache :
  writeRateLimitSeconds l <> 0 -> writeRateLimitCount l <> 0 ->
  Method c = "POST" \/ Method c = "PATCH" ->
  paths l = ∅ \/ FullPath c ∈ paths l ->
  ClientIP c <> "" ->
  Forall (fun t => Since t (loadedAt cache) < refreshInterval l) times ->
  reloads l (map (fun t => (t, c)) times) cache = map (fun _ => false) times.
Proof.
  intros Hs Hc Hm Hp Hip. revert cache.
  induction times as [|t times IH]; intros cache Hfresh; [reflexivity |].
  apply Forall_cons in Hfresh as [Ht Hfresh].
  cbn [map reloads]. rewrite (limited_counted l t c cache Hs Hc Hm Hp Hip).
  rewrite IH by exact Hfresh.
  apply Z.ltb_lt in Ht. rewrite Ht. reflexivity.
Qed.

(** X29. The limiter fails open. When the query for the logged writes fails as
    the limiter is set up, the cache starts empty. Of the requests a client
    makes while the cache is fresh, each less than [refreshInterval] after
    the set-up, none starts a reload, the first [writeRateLimitCount] are
    let through whatever the client has written before, and the ones after
    are over the limit. *)
Theorem failed_query_starts_from_zero query now refresh seconds count pattern c times :
  query (GoInt.add seconds (-60)) = None ->
  seconds <> 0 -> 0 < count ->
  Method c = "POST" \/ Method c = "PATCH" ->
  paths_of pattern = ∅ \/ FullPath c ∈ paths_of pattern ->
  ClientIP c <> "" -> times <> [] -> Z.of_nat (length times) <= GoInt.max_int ->
  Forall (fun t => Since t now < refresh) times ->
  let '(l, cache) := NewWriteRequestCache query now refresh seconds count pattern in
  patterns cache = ∅ /\
  reloads l (map (fun t => (t, c)) times) cache = map (fun _ => false) times /\
  fst (serve_all l (map (fun t => (t, c)) times) cache) =
    imap (fun i _ => count <=? Z.of_nat i) times.
Proof.
  intros Hq Hs Hc Hm Hp Hip Hne Hlen Hfresh.
  unfold NewWriteRequestCache, loadRequestPattern.
  rewrite Hq. split; [reflexivity |].
  set (l := MkLimiter (paths_of pattern) refresh seconds count).
  split.
  - apply (reloads_fresh l c times (MkPattern now ∅)); try assumption.
    cbn [writeRateLimitCount l]. lia.
  - pose proof (serve_all_counted l c times (MkPattern now ∅)) as H.
    cbv zeta in H. cbn [patterns writeRateLimitSeconds writeRateLimitCount paths l] in H.
    rewrite lookup_empty in H. change (default 0 None) with 0 in H.
    destruct H as (H & _); try assumption; try lia.
    rewrite H. apply imap_ext. intros i x _.
    destruct (Z.ltb_spec count (0 + Z.of_nat i + 1)), (Z.leb_spec count (Z.of_nat i)); lia.
Qed.

Lemma failed_query_starts_from_zero_witness :
  let c := MkRequest "PATCH" "/reports/:id" "203.0.113.7" in
  let '(l, cache) := NewWriteRequestCache (fun _ => None) 0 60000000000 3600 2
                       "/reports, /reports/:id" in
  fst (serve_all l (map (fun t => (t, c)) [5; 6; 7]) cache) = [false; false; true].
Proof.
  intros c.
  pose proof (failed_query_starts_from_zero (fun _ => None) 0 60000000000 3600 2
                "/reports, /reports/:id" c [5; 6; 7] eq_refl) as H.
  cbv beta iota zeta in H.
  destruct (NewWriteRequestCache (fun _ => None) 0 60000000000 3600 2
              "/reports, /reports/:id") as [l cache].
  destruct H as (_ & _ & H);
    [discriminate | lia | now right | right; vm_compute; set_solver | discriminate
    | discriminate | vm_compute; discriminate
    | repeat (apply List.Forall_cons; [vm_compute; reflexivity |]); apply List.Forall_nil |].
  rewrite H. reflexivity.
Defined.

End MiddlewareFacts.
